(** * gmail-exporter: a shallow embedding of the batch engine and the query builder

    The development follows the Go packages of the repository:
    [filters] (query construction, validation, size parsing), [exporter],
    [importer] and [cleaner] (the three batch operations), preceded by the
    fragments of the Go standard library they call.

    Conventions.
    - A Go [string] is a byte string ([String.string]); a [[]byte] is a
      [list byte].  The Unicode-aware library functions ([strings.TrimSpace],
      [strings.ToUpper], [strings.ToLower], [strings.Fields]) are modelled on
      bytes: they treat the six ASCII space bytes as white space and map the
      ASCII letters, and leave every other byte alone.
    - A Go [error] is its message ([string]); [nil] is the absence of one.
    - [int] and [int64] values are integers of [Z]; counters that are only
      ever incremented once per element of a slice are kept in [nat], since a
      slice length always fits an [int].
    - [float64] is IEEE-754 binary64 as specified by [SpecFloat]. *)

From Stdlib Require Import ZArith Lia List String Ascii.
From Stdlib Require Import Strings.Byte.
From Stdlib Require Import Floats.SpecFloat.
From Stdlib Require DecimalString.
From stdpp Require Import base relations list gmap strings.

Import ListNotations.
Local Open Scope string_scope.
Local Open Scope list_scope.
Local Open Scope Z_scope.

(** ** Fragments of the Go standard library *)

Module Go.

(** A call that returns [(T, error)]. *)
Inductive result (A : Type) : Type :=
| Ok (a : A)
| Err (e : string).
Arguments Ok {A} a.
Arguments Err {A} e.

Definition is_ok {A} (r : result A) : bool :=
  match r with Ok _ => true | Err _ => false end.

(** [fmt.Errorf("ctx: %w", err)] *)
Definition wrap (ctx : string) (e : string) : string := ctx +:+ ": " +:+ e.

(** *** package strings *)

Definition isSpace (c : ascii) : bool :=
  let n := N_of_ascii c in
  (N.eqb n 9 || N.eqb n 10 || N.eqb n 11 || N.eqb n 12 || N.eqb n 13 || N.eqb n 32)%bool.

Definition upperByte (c : ascii) : ascii :=
  let n := N_of_ascii c in
  if (N.leb 97 n && N.leb n 122)%bool then ascii_of_N (n - 32) else c.

Definition lowerByte (c : ascii) : ascii :=
  let n := N_of_ascii c in
  if (N.leb 65 n && N.leb n 90)%bool then ascii_of_N (n + 32) else c.

Fixpoint mapBytes (f : ascii -> ascii) (s : string) : string :=
  match s with
  | EmptyString => EmptyString
  | String c s' => String (f c) (mapBytes f s')
  end.

Definition ToUpper : string -> string := mapBytes upperByte.
Definition ToLower : string -> string := mapBytes lowerByte.

Fixpoint trimLeftSpace (s : string) : string :=
  match s with
  | EmptyString => EmptyString
  | String c s' => if isSpace c then trimLeftSpace s' else s
  end.

Fixpoint trimRightSpace (s : string) : string :=
  match s with
  | EmptyString => EmptyString
  | String c s' =>
      match trimRightSpace s' with
      | EmptyString => if isSpace c then EmptyString else String c EmptyString
      | t => String c t
      end
  end.

Definition TrimSpace (s : string) : string := trimRightSpace (trimLeftSpace s).

(** Whether [s] has a white-space byte. *)
Fixpoint hasSpace (s : string) : bool :=
  match s with
  | EmptyString => false
  | String c s' => (isSpace c || hasSpace s')%bool
  end.

(** [strings.TrimRight(s, cutset)] for a one-byte cutset. *)
Fixpoint TrimRight (s : string) (cut : ascii) : string :=
  match s with
  | EmptyString => EmptyString
  | String c s' =>
      match TrimRight s' cut with
      | EmptyString => if Ascii.eqb c cut then EmptyString else String c EmptyString
      | t => String c t
      end
  end.

(** [strings.ReplaceAll(s, old, new)] for one-byte [old] and [new]. *)
Definition ReplaceAll (s : string) (old new : ascii) : string :=
  mapBytes (fun c => if Ascii.eqb c old then new else c) s.

(** [s] without the suffix [suffix], if it ends with it. *)
Fixpoint cutSuffix (s suffix : string) : option string :=
  if String.eqb s suffix then Some EmptyString
  else
    match s with
    | EmptyString => None
    | String c s' =>
        match cutSuffix s' suffix with
        | Some t => Some (String c t)
        | None => None
        end
    end.

(** [strings.TrimSuffix(s, suffix)] *)
Definition TrimSuffix (s suffix : string) : string :=
  match cutSuffix s suffix with
  | Some t => t
  | None => s
  end.

Definition snoc (s : string) (c : ascii) : string := s +:+ String c EmptyString.

(** [strings.Fields]: the maximal runs of non-space bytes, in order. *)
Fixpoint fieldsFrom (cur : option string) (s : string) : list string :=
  match s with
  | EmptyString => match cur with Some w => [w] | None => [] end
  | String c s' =>
      if isSpace c then
        match cur with
        | Some w => w :: fieldsFrom None s'
        | None => fieldsFrom None s'
        end
      else
        fieldsFrom (Some (snoc (default EmptyString cur) c)) s'
  end.

Definition Fields (s : string) : list string := fieldsFrom None s.

(** [strings.Split(s, sep)] for a one-byte separator: always at least one
    element, empty pieces are kept. *)
Fixpoint Split (s : string) (sep : ascii) : list string :=
  match s with
  | EmptyString => [EmptyString]
  | String c s' =>
      if Ascii.eqb c sep then EmptyString :: Split s' sep
      else match Split s' sep with
           | w :: ws => String c w :: ws
           | [] => [String c EmptyString]
           end
  end.

Definition Join (parts : list string) (sep : string) : string :=
  String.concat sep parts.

Fixpoint containsByte (c : ascii) (s : string) : bool :=
  match s with
  | EmptyString => false
  | String d s' => (Ascii.eqb c d || containsByte c s')%bool
  end.

(** [strconv.FormatInt(n, 10)], the [%d] verb. *)
Definition Itoa (n : Z) : string :=
  DecimalString.NilZero.string_of_int (Z.to_int n).

(** *** package path/filepath *)

(** [filepath.Ext]: the suffix starting at the last dot of the last path
    element, empty when that element has no dot. *)
Fixpoint Ext (path : string) : string :=
  match path with
  | EmptyString => EmptyString
  | String c rest =>
      if (Ascii.eqb c "." && negb (containsByte "." rest) && negb (containsByte "/" rest))%bool
      then path
      else Ext rest
  end.

(** [filepath.Join(dir, name)] for a clean, non-root [dir] and a plain
    file name. *)
Definition PathJoin (dir name : string) : string := dir +:+ "/" +:+ name.

(** [filepath.Dir] of a clean path. *)
Fixpoint dirOf (path : string) : option string :=
  match path with
  | EmptyString => None
  | String c rest =>
      match dirOf rest with
      | Some d => Some (String c d)
      | None => if Ascii.eqb c "/" then Some EmptyString else None
      end
  end.

Definition PathDir (path : string) : string :=
  match dirOf path with
  | None => "."
  | Some EmptyString => "/"
  | Some d => d
  end.

(** *** float64 *)

Definition prec : Z := 53.
Definition emax : Z := 1024.
Definition float64 : Type := spec_float.

(** [float64(n)] for an integer [n]: the nearest binary64 number. *)
Definition floatOfInt (n : Z) : float64 := binary_normalize prec emax n 0 false.
Definition fmul : float64 -> float64 -> float64 := SFmul prec emax.
Definition fadd : float64 -> float64 -> float64 := SFadd prec emax.
Definition fdiv : float64 -> float64 -> float64 := SFdiv prec emax.

(** The integer part of a finite number (rounding toward zero). *)
Definition ftrunc (f : float64) : option Z :=
  match f with
  | S754_zero _ => Some 0
  | S754_finite s m e =>
      let a := if 0 <=? e then Z.pos m * 2 ^ e else Z.pos m / 2 ^ (- e) in
      Some (if s then - a else a)
  | _ => None
  end.

(** The result of converting to [int64] a float64 that is not finite or whose
    integer part does not fit: Go leaves it to the implementation; this is the
    value the amd64 conversion instruction produces. *)
Definition int64Indefinite : Z := - 2 ^ 63.

(** [int64(f)] *)
Definition intOfFloat (f : float64) : Z :=
  match ftrunc f with
  | Some z => if ((- 2 ^ 63 <=? z) && (z <? 2 ^ 63))%bool then z else int64Indefinite
  | None => int64Indefinite
  end.

Definition isDigit (c : ascii) : bool :=
  let n := N_of_ascii c in (N.leb 48 n && N.leb n 57)%bool.

Definition digitVal (c : ascii) : Z := Z.of_N (N_of_ascii c) - 48.

(** Reads the leading decimal digits of [s] on top of the value [acc]:
    the value read, the number of digits, and what follows them. *)
Fixpoint scanDigits (s : string) (acc : Z) (n : nat) : Z * nat * string :=
  match s with
  | String c s' =>
      if isDigit c then scanDigits s' (10 * acc + digitVal c) (S n) else (acc, n, s)
  | EmptyString => (acc, n, s)
  end.

(** The binary64 number nearest to [m / 10^k] (ties to even); a value too
    large for binary64 is a range error. *)
Definition decimalToFloat (m : Z) (k : nat) : result float64 :=
  match m with
  | Z.pos p =>
      match fdiv (S754_finite false p 0)
                 (S754_finite false (Z.to_pos (10 ^ Z.of_nat k)) 0) with
      | S754_infinity _ => Err "value out of range"
      | f => Ok f
      end
  | _ => Ok (S754_zero false)
  end.

(** [strconv.ParseFloat(s, 64)] on the inputs the repository gives it: an
    unsigned decimal with at most one point and no exponent.  Anything else is
    a syntax error. *)
Definition ParseFloat (s : string) : result float64 :=
  let '(ip, ni, rest) := scanDigits s 0 0 in
  match rest with
  | EmptyString =>
      if Nat.eqb ni 0 then Err "invalid syntax" else decimalToFloat ip 0
  | String c rest' =>
      if Ascii.eqb c "." then
        let '(m, nf, rest'') := scanDigits rest' ip 0 in
        match rest'' with
        | EmptyString =>
            if Nat.eqb (ni + nf) 0 then Err "invalid syntax" else decimalToFloat m nf
        | _ => Err "invalid syntax"
        end
      else Err "invalid syntax"
  end.

(** [strconv.Atoi(s)]: an optional sign and then decimal digits only, at
    least one; a value that does not fit an [int] (64 bits) is a range
    error.  The repository never looks at the text of the error. *)
Definition Atoi (s : string) : result Z :=
  let '(neg, digits) :=
    match s with
    | String c rest =>
        if Ascii.eqb c "-" then (true, rest)
        else if Ascii.eqb c "+" then (false, rest)
        else (false, s)
    | EmptyString => (false, s)
    end in
  let '(n, k, rest) := scanDigits digits 0 0 in
  match rest with
  | EmptyString =>
      if Nat.eqb k 0 then Err "invalid syntax"
      else
        let v := if neg then - n else n in
        if ((- 2 ^ 63 <=? v) && (v <? 2 ^ 63))%bool then Ok v else Err "value out of range"
  | _ => Err "invalid syntax"
  end.

(** The verb [%.1f] on a float64: the exact value rounded to one decimal,
    ties to even. *)
Definition FormatFixed1 (f : float64) : string :=
  match f with
  | S754_zero s => (if s then "-" else "") +:+ "0.0"
  | S754_infinity s => if s then "-Inf" else "+Inf"
  | S754_nan => "NaN"
  | S754_finite s m e =>
      let tenths :=
        if 0 <=? e then Z.pos m * 2 ^ e * 10
        else
          let num := Z.pos m * 10 in
          let den := 2 ^ (- e) in
          let q := num / den in
          let r := num mod den in
          if ((den <? 2 * r) || ((2 * r =? den) && Z.odd q))%bool then q + 1 else q in
      (if s then "-" else "") +:+ Itoa (tenths / 10) +:+ "." +:+ Itoa (tenths mod 10)
  end.

(** *** package time *)

(** A [time.Time]: an instant (seconds and nanoseconds since the Unix epoch)
    and the offset, in seconds east of UTC, of the zone it is displayed in. *)
Record Time := { unixSec : Z; nanos : Z; zoneOffset : Z }.

(** [t.After(u)] *)
Definition After (t u : Time) : bool :=
  ((unixSec u <? unixSec t) || ((unixSec t =? unixSec u) && (nanos u <? nanos t)))%bool.

(** Year, month and day of the proleptic Gregorian calendar for a number of
    days since 1970-01-01. *)
Definition civilFromDays (days : Z) : Z * Z * Z :=
  let z := days + 719468 in
  let era := z / 146097 in
  let doe := z - era * 146097 in
  let yoe := (doe - doe / 1460 + doe / 36524 - doe / 146096) / 365 in
  let y := yoe + era * 400 in
  let doy := doe - (365 * yoe + yoe / 4 - yoe / 100) in
  let mp := (5 * doy + 2) / 153 in
  let d := doy - (153 * mp + 2) / 5 + 1 in
  let m := if mp <? 10 then mp + 3 else mp - 9 in
  (if m <=? 2 then y + 1 else y, m, d).

(** The decimal digits of [n >= 0], zero-padded on the left to [width]. *)
Definition padInt (n : Z) (width : nat) : string :=
  let s := Itoa (Z.abs n) in
  let pad := String.concat "" (repeat "0" (width - String.length s)) in
  (if n <? 0 then "-" else "") +:+ pad +:+ s.

(** [t.Format("2006/01/02")] *)
Definition FormatDate (t : Time) : string :=
  let '(y, m, d) := civilFromDays ((unixSec t + zoneOffset t) / 86400) in
  padInt y 4 +:+ "/" +:+ padInt m 2 +:+ "/" +:+ padInt d 2.

(** A [time.Duration] is a number of nanoseconds. *)
Definition Hour : Z := 3600 * 1000000000.

(** [d.Hours()] *)
Definition Hours (d : Z) : float64 :=
  let hour := Z.quot d Hour in
  let nsec := Z.rem d Hour in
  fadd (floatOfInt hour) (fdiv (floatOfInt nsec) (floatOfInt Hour)).

(** *** package encoding/base64 *)

Module base64.

Definition encodeStd : string :=
  "ABCDEFGHIJKLMNOPQRSTUVWXYZabcdefghijklmnopqrstuvwxyz0123456789+/".
Definition encodeURL : string :=
  "ABCDEFGHIJKLMNOPQRSTUVWXYZabcdefghijklmnopqrstuvwxyz0123456789-_".

Definition padChar : ascii := "=".

Definition byteVal (b : byte) : Z := Z.of_N (Byte.to_N b).

(** [byte(v)]: the low eight bits. *)
Definition byteOf (v : Z) : byte :=
  match Byte.of_N (Z.to_N (Z.land v 255)) with
  | Some b => b
  | None => x00
  end.

(** [enc.encode[i]] *)
Definition encodeChar (alphabet : string) (i : Z) : ascii :=
  match String.get (Z.to_nat i) alphabet with
  | Some c => c
  | None => zero
  end.

Fixpoint indexOf (c : ascii) (alphabet : string) (i : Z) : option Z :=
  match alphabet with
  | EmptyString => None
  | String d rest => if Ascii.eqb c d then Some i else indexOf c rest (i + 1)
  end.

(** [enc.decodeMap[c]], [None] standing for the entry [0xff]. *)
Definition decodeMap (alphabet : string) (c : ascii) : option Z := indexOf c alphabet 0.

(** [enc.EncodeToString(src)] for a padded encoding. *)
Fixpoint EncodeToString (alphabet : string) (src : list byte) : string :=
  let enc := encodeChar alphabet in
  match src with
  | [] => EmptyString
  | [a] =>
      let val := Z.shiftl (byteVal a) 16 in
      String (enc (Z.land (Z.shiftr val 18) 63))
        (String (enc (Z.land (Z.shiftr val 12) 63))
           (String padChar (String padChar EmptyString)))
  | [a; b] =>
      let val := Z.lor (Z.shiftl (byteVal a) 16) (Z.shiftl (byteVal b) 8) in
      String (enc (Z.land (Z.shiftr val 18) 63))
        (String (enc (Z.land (Z.shiftr val 12) 63))
           (String (enc (Z.land (Z.shiftr val 6) 63))
              (String padChar EmptyString)))
  | a :: b :: c :: rest =>
      let val := Z.lor (Z.lor (Z.shiftl (byteVal a) 16) (Z.shiftl (byteVal b) 8)) (byteVal c) in
      String (enc (Z.land (Z.shiftr val 18) 63))
        (String (enc (Z.land (Z.shiftr val 12) 63))
           (String (enc (Z.land (Z.shiftr val 6) 63))
              (String (enc (Z.land val 63))
                 (EncodeToString alphabet rest))))
  end.

Definition isNewline (c : ascii) : bool := (Ascii.eqb c "010" || Ascii.eqb c "013")%bool.

(** Skips line breaks: what is left and how many bytes were skipped. *)
Fixpoint skipNewlines (s : string) (n : nat) : string * nat :=
  match s with
  | String c rest => if isNewline c then skipNewlines rest (S n) else (s, n)
  | EmptyString => (s, n)
  end.

(** [CorruptInputError(offset).Error()] *)
Definition corruptInput (offset : nat) : string :=
  "illegal base64 data at input byte " +:+ Itoa (Z.of_nat offset).

(** The 24 bits of a quantum, from its (at most four) 6-bit values. *)
Definition quantumVal (dbuf : list Z) : Z :=
  Z.lor (Z.lor (Z.lor (Z.shiftl (nth 0 dbuf 0) 18) (Z.shiftl (nth 1 dbuf 0) 12))
               (Z.shiftl (nth 2 dbuf 0) 6))
        (nth 3 dbuf 0).

(** [enc.DecodeString(s)] for a padded, non-strict encoding: the input is
    read in quanta of four characters, line breaks are skipped, and padding
    is accepted only where it completes the last quantum.  [si] is the index
    of the next input byte, [dbuf] the values read of the current quantum. *)
Fixpoint decodeFrom (alphabet : string) (src : string) (si : nat) (dbuf : list Z)
  : result (list byte) :=
  match src with
  | EmptyString =>
      match dbuf with
      | [] => Ok []
      | _ => Err (corruptInput (si - length dbuf))
      end
  | String c rest =>
      match decodeMap alphabet c with
      | Some v =>
          let dbuf' := dbuf ++ [v] in
          if Nat.eqb (length dbuf') 4 then
            let val := quantumVal dbuf' in
            match decodeFrom alphabet rest (S si) [] with
            | Ok out =>
                Ok (byteOf (Z.shiftr val 16) :: byteOf (Z.shiftr val 8) :: byteOf val :: out)
            | Err e => Err e
            end
          else decodeFrom alphabet rest (S si) dbuf'
      | None =>
          if isNewline c then decodeFrom alphabet rest (S si) dbuf
          else if negb (Ascii.eqb c padChar) then Err (corruptInput si)
          else
            let val := quantumVal dbuf in
            match length dbuf with
            | 2%nat =>
                (* "==" is expected, the first "=" is already consumed *)
                let '(rest1, k1) := skipNewlines rest 0 in
                match rest1 with
                | EmptyString => Err (corruptInput (S si + k1))
                | String c2 rest2 =>
                    if negb (Ascii.eqb c2 padChar) then Err (corruptInput (si + k1))
                    else
                      let '(rest3, k3) := skipNewlines rest2 0 in
                      match rest3 with
                      | EmptyString => Ok [byteOf (Z.shiftr val 16)]
                      | _ => Err (corruptInput (S (S si) + k1 + k3))
                      end
                end
            | 3%nat =>
                let '(rest1, k1) := skipNewlines rest 0 in
                match rest1 with
                | EmptyString => Ok [byteOf (Z.shiftr val 16); byteOf (Z.shiftr val 8)]
                | _ => Err (corruptInput (S si + k1))
                end
            | _ => Err (corruptInput si)   (* incorrect padding *)
            end
      end
  end.

Definition DecodeString (alphabet : string) (s : string) : result (list byte) :=
  decodeFrom alphabet s 0 [].

End base64.

End Go.


Import Go.

Definition nonEmpty (s : string) : bool := negb (String.eqb s EmptyString).

(** ** package filters *)

Module filters.

(** Config represents email filtering configuration.  The pointer fields
    ([*time.Time], [*bool]) are options. *)
Record Config := {
  To : string;
  From : string;
  Subject : string;
  IncludesWords : string;
  ExcludesWords : string;
  SizeGreaterThan : Z;
  SizeLessThan : Z;
  DateWithin : Z;
  DateAfter : option Time;
  DateBefore : option Time;
  HasAttachment : option bool;
  ExcludeChats : bool;
  Labels : string;
  SearchScope : string
}.

(** The zero value [Config{}]. *)
Definition empty : Config := {|
  To := ""; From := ""; Subject := ""; IncludesWords := ""; ExcludesWords := "";
  SizeGreaterThan := 0; SizeLessThan := 0; DateWithin := 0;
  DateAfter := None; DateBefore := None; HasAttachment := None;
  ExcludeChats := false; Labels := ""; SearchScope := ""
|}.

(** BuildGmailQuery appends to the slice [parts] in fourteen [if] blocks.
    Each block is a function from the slice before it to the slice after it;
    they are named after the field they read. *)

Definition addTo (c : Config) (parts : list string) : list string :=
  if nonEmpty (To c) then parts ++ ["to:" +:+ To c] else parts.

Definition addFrom (c : Config) (parts : list string) : list string :=
  if nonEmpty (From c) then parts ++ ["from:" +:+ From c] else parts.

Definition addSubject (c : Config) (parts : list string) : list string :=
  if nonEmpty (Subject c) then parts ++ ["subject:(" +:+ Subject c +:+ ")"] else parts.

Definition addIncludesWords (c : Config) (parts : list string) : list string :=
  if nonEmpty (IncludesWords c) then parts ++ [IncludesWords c] else parts.

Definition addExcludesWords (c : Config) (parts : list string) : list string :=
  if nonEmpty (ExcludesWords c) then
    let words := Fields (ExcludesWords c) in
    fold_left (fun parts word => parts ++ ["-" +:+ word]) words parts
  else parts.

Definition addSizeGreaterThan (c : Config) (parts : list string) : list string :=
  if 0 <? SizeGreaterThan c then parts ++ ["size:" +:+ Itoa (SizeGreaterThan c)] else parts.

Definition addSizeLessThan (c : Config) (parts : list string) : list string :=
  if 0 <? SizeLessThan c then parts ++ ["-size:" +:+ Itoa (SizeLessThan c)] else parts.

Definition addDateWithin (c : Config) (parts : list string) : list string :=
  if 0 <? DateWithin c then
    let days := intOfFloat (fdiv (Hours (DateWithin c)) (floatOfInt 24)) in
    parts ++ ["newer_than:" +:+ Itoa days +:+ "d"]
  else parts.

Definition addDateAfter (c : Config) (parts : list string) : list string :=
  match DateAfter c with
  | Some t => parts ++ ["after:" +:+ FormatDate t]
  | None => parts
  end.

Definition addDateBefore (c : Config) (parts : list string) : list string :=
  match DateBefore c with
  | Some t => parts ++ ["before:" +:+ FormatDate t]
  | None => parts
  end.

Definition addHasAttachment (c : Config) (parts : list string) : list string :=
  match HasAttachment c with
  | Some true => parts ++ ["has:attachment"]
  | Some false => parts ++ ["-has:attachment"]
  | None => parts
  end.

Definition addExcludeChats (c : Config) (parts : list string) : list string :=
  if ExcludeChats c then parts ++ ["-in:chats"] else parts.

Definition addLabels (c : Config) (parts : list string) : list string :=
  if nonEmpty (Labels c) then
    let labels := Split (Labels c) "," in
    fold_left
      (fun parts label =>
         let label := TrimSpace label in
         if nonEmpty label then parts ++ ["label:" +:+ label] else parts)
      labels parts
  else parts.

Definition addSearchScope (c : Config) (parts : list string) : list string :=
  if (nonEmpty (SearchScope c) && negb (String.eqb (SearchScope c) "all_mail"))%bool
  then parts ++ ["in:" +:+ SearchScope c]
  else parts.

(** The blocks in the order of the source. *)
Definition blocks : list (Config -> list string -> list string) :=
  [ addTo; addFrom; addSubject; addIncludesWords; addExcludesWords;
    addSizeGreaterThan; addSizeLessThan;
    addDateWithin; addDateAfter; addDateBefore;
    addHasAttachment; addExcludeChats;
    addLabels; addSearchScope ].

(** The slice [parts] just before it is joined. *)
Definition queryParts (c : Config) : list string :=
  fold_left (fun parts block => block c parts) blocks [].

(** BuildGmailQuery converts the filter configuration to a Gmail search query. *)
Definition BuildGmailQuery (c : Config) : string := Join (queryParts c) " ".

Definition validScopes : list string :=
  ["all_mail"; "inbox"; "sent"; "drafts"; "spam"; "trash"].

(** Validate checks if the filter configuration is valid; [None] is [nil]. *)
Definition Validate (c : Config) : option string :=
  if ((0 <? SizeGreaterThan c) && (0 <? SizeLessThan c)
      && (SizeLessThan c <=? SizeGreaterThan c))%bool
  then Some "size-greater-than must be less than size-less-than"
  else
    if match DateAfter c, DateBefore c with
       | Some a, Some b => After a b
       | _, _ => false
       end
    then Some "date-after must be before date-before"
    else
      if nonEmpty (SearchScope c) then
        let valid := existsb (String.eqb (SearchScope c)) validScopes in
        if negb valid then
          Some ("invalid search scope: " +:+ SearchScope c
                +:+ " (valid: " +:+ Join validScopes ", " +:+ ")")
        else None
      else None.

(** The loop of [ParseSize] that separates the number from the unit: the
    longest prefix of digits and dots, and the rest of the string. *)
Fixpoint splitNumber (s : string) : string * string :=
  match s with
  | EmptyString => (EmptyString, EmptyString)
  | String r s' =>
      if (isDigit r || Ascii.eqb r ".")%bool then
        let '(numStr, unit) := splitNumber s' in (String r numStr, unit)
      else (EmptyString, s)
  end.

(** The [switch unit] of [ParseSize]. *)
Definition unitMultiplier (unit : string) : option Z :=
  if (String.eqb unit "" || String.eqb unit "B")%bool then Some 1
  else if String.eqb unit "KB" then Some 1024
  else if String.eqb unit "MB" then Some (1024 * 1024)
  else if String.eqb unit "GB" then Some (1024 * 1024 * 1024)
  else if String.eqb unit "TB" then Some (1024 * 1024 * 1024 * 1024)
  else None.

(** ParseSize parses size strings like "5MB", "1GB", etc. *)
Definition ParseSize (sizeStr : string) : result Z :=
  let sizeStr := ToUpper (TrimSpace sizeStr) in
  let '(numStr, unit) := splitNumber sizeStr in
  if String.eqb numStr "" then Err ("invalid size format: " +:+ sizeStr)
  else
    match ParseFloat numStr with
    | Err _ => Err ("invalid number in size: " +:+ numStr)
    | Ok num =>
        match unitMultiplier unit with
        | None => Err ("invalid size unit: " +:+ unit +:+ " (valid: B, KB, MB, GB, TB)")
        | Some multiplier => Ok (intOfFloat (fmul num (floatOfInt multiplier)))
        end
    end.

(** [durationStr[:len(durationStr)-1]] and [durationStr[len(durationStr)-1:]]:
    the string without its last byte, and its last byte. *)
Fixpoint splitLast (s : string) : string * string :=
  match s with
  | EmptyString => (EmptyString, EmptyString)
  | String c EmptyString => (EmptyString, s)
  | String c rest => let '(numStr, unit) := splitLast rest in (String c numStr, unit)
  end.

(** The product of two [time.Duration] values, which wraps around. *)
Definition mulDuration (a b : Z) : Z := (a * b + 2 ^ 63) mod 2 ^ 64 - 2 ^ 63.

(** ParseDuration parses duration strings like "30d", "1w", "6m". *)
Definition ParseDuration (durationStr : string) : result Z :=
  let durationStr := ToLower (TrimSpace durationStr) in
  if (String.length durationStr <? 2)%nat
  then Err ("invalid duration format: " +:+ durationStr)
  else
    let '(numStr, unit) := splitLast durationStr in
    match Atoi numStr with
    | Err _ => Err ("invalid number in duration: " +:+ numStr)
    | Ok num =>
        if String.eqb unit "d" then Ok (mulDuration (mulDuration num 24) Hour)
        else if String.eqb unit "w"
        then Ok (mulDuration (mulDuration (mulDuration num 7) 24) Hour)
        else if String.eqb unit "m"
        then Ok (mulDuration (mulDuration (mulDuration num 30) 24) Hour)
        else if String.eqb unit "y"
        then Ok (mulDuration (mulDuration (mulDuration num 365) 24) Hour)
        else if String.eqb unit "h" then Ok (mulDuration num Hour)
        else Err ("invalid duration unit: " +:+ unit +:+ " (valid: h, d, w, m, y)")
    end.

End filters.

(** ** The environment of the batch operations

    The remote mail service, the file system, the clock and the logger are
    the collaborators of the three operations.  What they hold is the
    [World]; how they answer is the [Env]. *)

Module os.

(** A [gmail.Message], as far as the repository looks into it. *)
Record Message := { Id : string; LabelIds : list string; Raw : string }.

(** The requests made to the mail service, in the order they were made. *)
Inductive apiCall :=
| MessagesList (q : string) (page : nat)
| MessagesGet (id format : string)
| MessagesImport (raw : string)
| MessagesModify (id : string) (removeLabelIds : list string)
| MessagesDelete (id : string).

Record File := { content : list byte; perm : Z }.

Record World := {
  files : gmap string File;
  dirs : gset string;
  calls : list apiCall;
  clock : Z;
  logs : list (string * string)
}.

(** The answers of the mail service may depend on every request made so far.
    A listing is served as a finite chain of pages, each a list of message
    identifiers or a failed request; the last page carries no continuation
    token. *)
Record GmailService := {
  listPages : list apiCall -> string -> list (result (list string));
  getMessage : list apiCall -> string -> string -> result Message;
  importMessage : list apiCall -> string -> option string;
  modifyMessage : list apiCall -> string -> list string -> option string;
  deleteMessage : list apiCall -> string -> option string
}.

(** A directory tree as [filepath.WalkDir] sees it: the entries of a
    directory come in lexical order; [readError] is the failure of reading
    the directory, if it cannot be read. *)
#[warnings="-register-all"]
Inductive node :=
| FileNode (name : string)
| DirNode (name : string) (readError : option string) (entries : list node).

(** The records of the metrics collector that end up in its JSON file. *)
Record MetricsData := {
  Operation : string;
  StartTime : Z;
  EndTime : Z;
  MDuration : Z;
  MTotalMatched : Z;
  MTotalExported : Z;
  MTotalFailed : Z;
  MTotalSize : Z
}.

(** A record of the manifest ([processed_emails.json]); the packages
    [exporter] and [cleaner] each declare this struct, field for field. *)
Record ProcessedEmail := {
  ID : string;
  PSubject : string;
  PFrom : string;
  Date : Z;
  Size : Z;
  Processed : Z
}.

Record Env := {
  gmailService : GmailService;
  (* os.MkdirAll and os.WriteFile fail on the paths the system refuses *)
  mkdirError : string -> option string;
  writeError : string -> option string;
  (* the tree below a root directory, [None] when the root cannot be stat-ed *)
  lstat : string -> option node;
  (* encoding/json *)
  marshalProcessed : list ProcessedEmail -> result (list byte);
  unmarshalProcessed : list byte -> result (list ProcessedEmail);
  marshalMessage : Message -> result (list byte);
  unmarshalRaw : list byte -> result string;
  marshalMetrics : MetricsData -> result (list byte)
}.

Definition setFiles (w : World) (f : gmap string File) : World :=
  {| files := f; dirs := dirs w; calls := calls w; clock := clock w; logs := logs w |}.

Definition setDirs (w : World) (d : gset string) : World :=
  {| files := files w; dirs := d; calls := calls w; clock := clock w; logs := logs w |}.

(** Records a request to the mail service. *)
Definition called (c : apiCall) (w : World) : World :=
  {| files := files w; dirs := dirs w; calls := calls w ++ [c]; clock := clock w;
     logs := logs w |}.

(** [logrus]: the level and the message of an entry (its fields are left out). *)
Definition Log (level msg : string) (w : World) : World :=
  {| files := files w; dirs := dirs w; calls := calls w; clock := clock w;
     logs := logs w ++ [(level, msg)] |}.

(** [time.Now()]: the clock is read and moves on. *)
Definition Now (w : World) : Z * World :=
  (clock w,
   {| files := files w; dirs := dirs w; calls := calls w; clock := clock w + 1;
      logs := logs w |}).

(** [os.MkdirAll(path, perm)] *)
Definition MkdirAll (env : Env) (path : string) (w : World) : option string * World :=
  match mkdirError env path with
  | Some e => (Some e, w)
  | None => (None, setDirs w ({[path]} ∪ dirs w))
  end.

(** [os.WriteFile(name, data, perm)]: the content is replaced; the permission
    bits are those given when the file is created and are kept otherwise.  A
    write that fails leaves the files as they are. *)
Definition WriteFile (env : Env) (name : string) (data : list byte) (p : Z) (w : World)
  : option string * World :=
  match writeError env name with
  | Some e => (Some e, w)
  | None =>
      let f := match files w !! name with
               | Some old => {| content := data; perm := perm old |}
               | None => {| content := data; perm := p |}
               end in
      (None, setFiles w (<[name := f]> (files w)))
  end.

(** [os.ReadFile(name)] *)
Definition ReadFile (name : string) (w : World) : result (list byte) :=
  match files w !! name with
  | Some f => Ok (content f)
  | None => Err ("open " +:+ name +:+ ": no such file or directory")
  end.

(** The value of a Go [int64] after an addition that may wrap around. *)
Definition wrap64 (z : Z) : Z := (z + 2 ^ 63) mod 2 ^ 64 - 2 ^ 63.

(** [len(data)] as a number. *)
Definition len {A} (l : list A) : Z := Z.of_nat (length l).

(** The limit step shared by the three operations:
    [if limit > 0 && len(xs) > limit { xs = xs[:limit] }]. *)
Definition applyLimit {A} (limit : Z) (xs : list A) : list A :=
  if ((0 <? limit) && (limit <? len xs))%bool then take (Z.to_nat limit) xs else xs.

End os.

Import os.

(** ** The worker pool

    [exportEmails] and [importEmails] run the same goroutines: the main
    goroutine starts the workers, sends every item on the buffered channel
    [jobs], closes it, starts the goroutine that closes [results] once the
    wait group is done, and then receives from [results] until it is closed
    and drained.  Both channels have the capacity of the item list, so a send
    never blocks.  One step of the model is one communication, one call of
    the per-item handler, or one turn of the collecting loop, by one
    goroutine; any goroutine that is not blocked may take the next step. *)

Module pool.

Section Engine.

Context {R Acc : Type}.

(** A worker's call of the per-item function, with the result it sends. *)
Variable handler : string -> World -> R * World.
(** The body of the collecting loop. *)
Variable collect : R -> Acc -> World -> Acc * World.
(** What the main goroutine does once [results] is drained. *)
Variable finish : Acc -> World -> World.

(** [for item := range jobs { results <- handle(item) }] *)
Inductive worker :=
| Waiting                   (* at the receive from [jobs] *)
| Running (item : string)   (* holding an item *)
| Exited.                   (* past [wg.Done()] *)

Inductive phase :=
| Sending (rest : list string)   (* in the loop [jobs <- item] *)
| Collecting                     (* [jobs] closed, in [for r := range results] *)
| Returned.

Record state := {
  main : phase;
  jobs : list string;
  workers : list worker;
  results : list R;
  resultsClosed : bool;
  acc : Acc;
  wld : World
}.

Inductive action := Main | Work (i : nat) | Close.

Definition isExited (k : worker) : bool :=
  match k with Exited => true | _ => false end.

Definition jobsClosed (s : state) : bool :=
  match main s with Sending _ => false | _ => true end.

Definition step_fn (a : action) (s : state) : option state :=
  match a with
  | Main =>
      match main s with
      | Sending (x :: rest) =>
          Some {| main := Sending rest; jobs := jobs s ++ [x]; workers := workers s;
                  results := results s; resultsClosed := resultsClosed s;
                  acc := acc s; wld := wld s |}
      | Sending [] =>
          Some {| main := Collecting; jobs := jobs s; workers := workers s;
                  results := results s; resultsClosed := resultsClosed s;
                  acc := acc s; wld := wld s |}
      | Collecting =>
          match results s with
          | r :: rs =>
              let '(a', w') := collect r (acc s) (wld s) in
              Some {| main := Collecting; jobs := jobs s; workers := workers s;
                      results := rs; resultsClosed := resultsClosed s;
                      acc := a'; wld := w' |}
          | [] =>
              if resultsClosed s then
                Some {| main := Returned; jobs := jobs s; workers := workers s;
                        results := []; resultsClosed := true;
                        acc := acc s; wld := finish (acc s) (wld s) |}
              else None
          end
      | Returned => None
      end
  | Work i =>
      match workers s !! i with
      | Some Waiting =>
          match jobs s with
          | x :: rest =>
              Some {| main := main s; jobs := rest;
                      workers := <[i := Running x]> (workers s);
                      results := results s; resultsClosed := resultsClosed s;
                      acc := acc s; wld := wld s |}
          | [] =>
              if jobsClosed s then
                Some {| main := main s; jobs := [];
                        workers := <[i := Exited]> (workers s);
                        results := results s; resultsClosed := resultsClosed s;
                        acc := acc s; wld := wld s |}
              else None
          end
      | Some (Running x) =>
          let '(r, w') := handler x (wld s) in
          Some {| main := main s; jobs := jobs s;
                  workers := <[i := Waiting]> (workers s);
                  results := results s ++ [r]; resultsClosed := resultsClosed s;
                  acc := acc s; wld := w' |}
      | _ => None
      end
  | Close =>
      if (jobsClosed s && negb (resultsClosed s) && forallb isExited (workers s))%bool
      then Some {| main := main s; jobs := jobs s; workers := workers s;
                   results := results s; resultsClosed := true;
                   acc := acc s; wld := wld s |}
      else None
  end.

Definition step (s s' : state) : Prop := exists a, step_fn a s = Some s'.

(** The state after the [go] statements that start [n] workers. *)
Definition init (items : list string) (n : nat) (a : Acc) (w : World) : state :=
  {| main := Sending items; jobs := []; workers := replicate n Waiting;
     results := []; resultsClosed := false; acc := a; wld := w |}.

Definition final (s : state) : Prop := main s = Returned.

(** A scheduler: the main goroutine whenever it can move, else the first
    worker that can, else the closing goroutine. *)
Fixpoint firstStep (cands : list action) (s : state) : option state :=
  match cands with
  | [] => None
  | a :: rest =>
      match step_fn a s with
      | Some s' => Some s'
      | None => firstStep rest s
      end
  end.

Definition candidates (s : state) : list action :=
  Main :: map Work (seq 0 (length (workers s))) ++ [Close].

Fixpoint run (fuel : nat) (s : state) : option state :=
  match main s with
  | Returned => Some s
  | _ =>
      match fuel with
      | O => None
      | S fuel' =>
          match firstStep (candidates s) s with
          | Some s' => run fuel' s'
          | None => None
          end
      end
  end.

(** Runs the actions of a schedule in order; [None] if one of them is
    blocked when its turn comes. *)
Fixpoint exec (sched : list action) (s : state) : option state :=
  match sched with
  | [] => Some s
  | a :: rest =>
      match step_fn a s with
      | Some s' => exec rest s'
      | None => None
      end
  end.

(** Where the items are: not yet sent, in the channel, with a worker, or
    (as a result) on the way back. *)
Variable item : R -> string.

Definition toSend (p : phase) : list string :=
  match p with Sending rest => rest | _ => [] end.

Fixpoint runningItems (ws : list worker) : list string :=
  match ws with
  | [] => []
  | Running x :: ws' => x :: runningItems ws'
  | _ :: ws' => runningItems ws'
  end.

Definition pending (s : state) : list string :=
  toSend (main s) ++ jobs s ++ runningItems (workers s) ++ map item (results s).

(** The channels are closed in order: [results] only after every worker
    has left its loop, which a worker does only once [jobs] is closed and
    empty; the main goroutine returns only once [results] is closed and
    empty. *)
Definition orderly (s : state) : Prop :=
  (resultsClosed s = true -> forallb isExited (workers s) = true)
  /\ (existsb isExited (workers s) = true -> jobs s = [] /\ toSend (main s) = [])
  /\ (main s = Returned -> results s = [] /\ resultsClosed s = true).

(** Every item is in exactly one place: still pending, or accounted for
    in the accumulator of the main goroutine. *)
Variable doneItems : Acc -> list string.

Definition accounted (items : list string) (s : state) : Prop :=
  items ≡ₚ pending s ++ doneItems (acc s).

(** The same account by number, for an accumulator that only counts. *)
Variable count : Acc -> nat.

Definition counted (total : nat) (s : state) : Prop :=
  total = (length (pending s) + count (acc s))%nat.

(** An upper bound on the number of steps left. *)
Definition phaseRank (p : phase) : nat :=
  match p with
  | Sending rest => 2 + 4 * length rest
  | Collecting => 1
  | Returned => 0
  end.

Definition workerRank (k : worker) : nat :=
  match k with Running _ => 3 | Waiting => 1 | Exited => 0 end.

Fixpoint workersRank (ws : list worker) : nat :=
  match ws with
  | [] => 0
  | k :: ws' => workerRank k + workersRank ws'
  end.

Definition measure (s : state) : nat :=
  (phaseRank (main s) + 3 * length (jobs s) + workersRank (workers s)
   + length (results s) + (if resultsClosed s then 0 else 1))%nat.

End Engine.

End pool.

(** ** package metrics *)

Module metrics.

(** The metrics collector, as far as it touches the world: it reads the
    clock, logs, and saves its data as JSON. *)
Definition Save (env : Env) (filename : string) (d : MetricsData) (w : World)
  : option string * World :=
  match marshalMetrics env d with
  | Err err => (Some (wrap "failed to marshal metrics" err), w)
  | Ok data =>
      match WriteFile env filename data 384 w with
      | (Some err, w) => (Some (wrap "failed to write metrics file" err), w)
      | (None, w) => (None, Log "info" "Saved metrics to file" w)
      end
  end.

(** getBucketCount returns 1 if duration is less than or equal to bucket, 0
    otherwise. *)
Definition getBucketCount (duration bucket : Z) : Z :=
  if duration <=? bucket then 1 else 0.

(** The loop of FormatBytes,
    [for n := bytes / unit; n >= unit; n /= unit { div *= unit; exp++ }],
    from the values of [n], [div] and [exp] at the test of the loop.  A turn
    takes ten bits off [n], so [fuel] turns are enough when [n < 2 ^ fuel]. *)
Fixpoint unitLoop (fuel : nat) (n div : Z) (exp : nat) : Z * nat :=
  match fuel with
  | O => (div, exp)
  | S fuel' =>
      if 1024 <=? n
      then unitLoop fuel' (Z.quot n 1024) (wrap64 (div * 1024)) (S exp)
      else (div, exp)
  end.

(** FormatBytes formats bytes in human-readable format; [None] is the
    run-time panic of an index out of range.  (The function [formatBytes] of
    package cli has the same body.) *)
Definition FormatBytes (bytes : Z) : option string :=
  if bytes <? 1024 then Some (Itoa bytes +:+ " B")
  else
    let n := Z.quot bytes 1024 in
    let '(div, exp) := unitLoop (Z.to_nat (Z.log2 n)) n 1024 0 in
    match String.get exp "KMGTPE" with
    | None => None
    | Some c =>
        Some (FormatFixed1 (fdiv (floatOfInt bytes) (floatOfInt div))
              +:+ " " +:+ String c "B")
    end.

End metrics.

(** ** package exporter *)

Module exporter.

(** Config represents the exporter configuration. *)
Record Config := {
  CredentialsFile : string;
  TokenFile : string;
  OutputDir : string;
  OrganizeByLabels : bool;
  ParallelWorkers : Z;
  IncludeAttachments : bool;
  CompressExports : bool;
  Format : string;
  Resume : bool;
  StateFile : string;
  Limit : Z
}.

(** Failure represents a failed export operation. *)
Record Failure := { EmailID : string; Error : string; Timestamp : Z }.

(** Result represents the export operation result. *)
Record Result := {
  TotalMatched : nat;
  TotalExported : nat;
  TotalFailed : nat;
  TotalSize : Z;
  Duration : Z;
  Failures : list Failure
}.

(** Exporter handles email export operations. *)
Record Exporter := { config : Config; env : Env }.

(** exportResult represents the result of exporting a single email. *)
Record exportResult := { MessageID : string; RSize : Z; RError : option string }.

Definition setFormat (c : Config) (f : string) : Config :=
  {| CredentialsFile := CredentialsFile c; TokenFile := TokenFile c;
     OutputDir := OutputDir c; OrganizeByLabels := OrganizeByLabels c;
     ParallelWorkers := ParallelWorkers c; IncludeAttachments := IncludeAttachments c;
     CompressExports := CompressExports c; Format := f; Resume := Resume c;
     StateFile := StateFile c; Limit := Limit c |}.

(** The exporter [e] with the format [f]. *)
Definition withFormat (e : Exporter) (f : string) : Exporter :=
  {| config := setFormat (config e) f; env := env e |}.

(** validateConfig validates the exporter configuration (and fills in the
    default format, which is why the configuration is returned). *)
Definition validateConfig (c : Config) : Config * option string :=
  if String.eqb (CredentialsFile c) "" then (c, Some "credentials file is required")
  else if String.eqb (TokenFile c) "" then (c, Some "token file is required")
  else if String.eqb (OutputDir c) "" then (c, Some "output directory is required")
  else if ParallelWorkers c <? 0 then (c, Some "parallel workers must be >= 0")
  else
    let c := if String.eqb (Format c) "" then setFormat c "eml" else c in
    let valid := existsb (String.eqb (Format c)) ["eml"; "json"; "mbox"] in
    if negb valid
    then (c, Some ("invalid format: " +:+ Format c +:+ " (valid: eml, json, mbox)"))
    else (c, None).

(** The [switch len(data) % 4] of decodeBase64URL. *)
Definition addPadding (data : string) : string :=
  match (String.length data mod 4)%nat with
  | 2%nat => data +:+ "=="
  | 3%nat => data +:+ "="
  | _ => data
  end.

(** decodeBase64URL decodes a base64url encoded string. *)
Definition decodeBase64URL (data : string) : result (list byte) :=
  (* Add padding if necessary *)
  let data := addPadding data in
  (* Replace URL-safe characters *)
  let data := ReplaceAll data "-" "+" in
  let data := ReplaceAll data "_" "/" in
  base64.DecodeString base64.encodeStd data.

(** searchEmails: the pages of the listing are requested one after the
    other and their identifiers accumulated, until the page without a
    continuation token. *)
Fixpoint searchPages (q : string) (pages : list (result (list string))) (i : nat)
         (messageIDs : list string) (w : World) : result (list string) * World :=
  match pages with
  | [] => (Ok messageIDs, called (MessagesList q i) w)
  | p :: rest =>
      let w := called (MessagesList q i) w in
      match p with
      | Err e => (Err (wrap "failed to list messages" e), w)
      | Ok ids =>
          match rest with
          | [] => (Ok (messageIDs ++ ids), w)
          | _ => searchPages q rest (S i) (messageIDs ++ ids) w
          end
      end
  end.

Definition searchEmails (e : Exporter) (filterConfig : filters.Config) (w : World)
  : result (list string) * World :=
  let query := filters.BuildGmailQuery filterConfig in
  searchPages query (listPages (gmailService (env e)) (calls w) query) 0 [] w.

(** getOutputPath determines the output path for an email. *)
Definition getOutputPath (e : Exporter) (message : Message) (w : World)
  : result string * World :=
  let filename := Id message +:+ "." +:+ Format (config e) in
  if negb (OrganizeByLabels (config e)) then
    (Ok (PathJoin (OutputDir (config e)) filename), w)
  else
    let labelDir :=
      match LabelIds message with
      | l :: _ => l
      | [] => "unlabeled"
      end in
    let outputDir := PathJoin (OutputDir (config e)) labelDir in
    match MkdirAll (env e) outputDir w with
    | (Some err, w) => (Err (wrap "failed to create label directory" err), w)
    | (None, w) => (Ok (PathJoin outputDir filename), w)
    end.

(** exportAsEML exports an email in EML format. *)
Definition exportAsEML (e : Exporter) (message : Message) (outputPath : string) (w : World)
  : result Z * World :=
  let reply := getMessage (gmailService (env e)) (calls w) (Id message) "raw" in
  let w := called (MessagesGet (Id message) "raw") w in
  match reply with
  | Err err => (Err (wrap "failed to get raw message" err), w)
  | Ok rawMessage =>
      match decodeBase64URL (Raw rawMessage) with
      | Err err => (Err (wrap "failed to decode raw message" err), w)
      | Ok rawData =>
          match WriteFile (env e) outputPath rawData 384 w with
          | (Some err, w) => (Err (wrap "failed to write EML file" err), w)
          | (None, w) => (Ok (len rawData), w)
          end
      end
  end.

(** exportAsJSON exports an email in JSON format. *)
Definition exportAsJSON (e : Exporter) (message : Message) (outputPath : string) (w : World)
  : result Z * World :=
  match marshalMessage (env e) message with
  | Err err => (Err (wrap "failed to marshal message to JSON" err), w)
  | Ok jsonData =>
      match WriteFile (env e) outputPath jsonData 384 w with
      | (Some err, w) => (Err (wrap "failed to write JSON file" err), w)
      | (None, w) => (Ok (len jsonData), w)
      end
  end.

(** exportAsMbox exports an email in Mbox format. *)
Definition exportAsMbox (e : Exporter) (message : Message) (outputPath : string) (w : World)
  : result Z * World :=
  exportAsEML e message outputPath w.

(** exportSingleEmail exports a single email: the size and the error it
    returns, and the world it leaves. *)
Definition exportSingleEmail (e : Exporter) (messageID : string) (w : World)
  : (Z * option string) * World :=
  let reply := getMessage (gmailService (env e)) (calls w) messageID "full" in
  let w := called (MessagesGet messageID "full") w in
  match reply with
  | Err err => ((0, Some (wrap "failed to get message" err)), w)
  | Ok message =>
      match getOutputPath e message w with
      | (Err err, w) => ((0, Some (wrap "failed to determine output path" err)), w)
      | (Ok outputPath, w) =>
          let fmt := Format (config e) in
          let '(r, w) :=
            if String.eqb fmt "eml" then exportAsEML e message outputPath w
            else if String.eqb fmt "json" then exportAsJSON e message outputPath w
            else if String.eqb fmt "mbox" then exportAsMbox e message outputPath w
            else (Err ("unsupported export format: " +:+ fmt), w) in
          match r with
          | Err err => ((0, Some err), w)
          | Ok size => ((size, None), w)
          end
      end
  end.

(** The body of the loop of exportWorker. *)
Definition exportWorker (e : Exporter) (messageID : string) (w : World)
  : exportResult * World :=
  let '((size, err), w) := exportSingleEmail e messageID w in
  ({| MessageID := messageID; RSize := size; RError := err |}, w).

(** saveProcessedEmailsFilter saves the list of processed emails to a filter file. *)
Definition saveProcessedEmailsFilter (e : Exporter) (processedEmails : list ProcessedEmail)
           (w : World) : option string * World :=
  let filterFile := PathJoin (OutputDir (config e)) "processed_emails.json" in
  match marshalProcessed (env e) processedEmails with
  | Err err => (Some (wrap "failed to marshal processed emails" err), w)
  | Ok data =>
      match WriteFile (env e) filterFile data 384 w with
      | (Some err, w) => (Some (wrap "failed to write filter file" err), w)
      | (None, w) => (None, Log "info" "Saved processed emails filter file" w)
      end
  end.

(** The variables [result] and [processedEmails] of exportEmails. *)
Definition accum : Type := Result * list ProcessedEmail.

Definition emptyAccum : accum :=
  ({| TotalMatched := 0; TotalExported := 0; TotalFailed := 0; TotalSize := 0;
      Duration := 0; Failures := [] |}, []).

(** One turn of [for exportRes := range results]. *)
Definition collect (exportRes : exportResult) (a : accum) (w : World) : accum * World :=
  let '(result, processedEmails) := a in
  match RError exportRes with
  | Some err =>
      let '(now, w) := Now w in
      (({| TotalMatched := TotalMatched result;
           TotalExported := TotalExported result;
           TotalFailed := S (TotalFailed result);
           TotalSize := TotalSize result;
           Duration := Duration result;
           Failures := Failures result ++
             [{| EmailID := MessageID exportRes; Error := err; Timestamp := now |}] |},
        processedEmails),
       Log "error" "Failed to export email" w)
  | None =>
      let '(now, w) := Now w in
      (({| TotalMatched := TotalMatched result;
           TotalExported := S (TotalExported result);
           TotalFailed := TotalFailed result;
           TotalSize := wrap64 (TotalSize result + RSize exportRes);
           Duration := Duration result;
           Failures := Failures result |},
        processedEmails ++
          [{| ID := MessageID exportRes; PSubject := ""; PFrom := ""; Date := 0;
              Size := RSize exportRes; Processed := now |}]),
       w)
  end.

(** The number of results the loop has handled. *)
Definition handled (a : accum) : nat := (TotalExported (fst a) + TotalFailed (fst a))%nat.

(** The identifiers the loop has handled: those it recorded as processed and
    those it recorded as failed. *)
Definition handledIDs (a : accum) : list string :=
  map ID (snd a) ++ map EmailID (Failures (fst a)).

(** The path of the manifest. *)
Definition manifestPath (e : Exporter) : string :=
  PathJoin (OutputDir (config e)) "processed_emails.json".

(** After the loop: save the processed emails filter file. *)
Definition finish (e : Exporter) (a : accum) (w : World) : World :=
  match snd a with
  | [] => w
  | processedEmails =>
      match saveProcessedEmailsFilter e processedEmails w with
      | (Some _, w) => Log "warning" "Failed to save processed emails filter file" w
      | (None, w) => w
      end
  end.

(** [if e.config.ParallelWorkers <= 0 { e.config.ParallelWorkers = 1 }] *)
Definition workerCount (c : Config) : nat :=
  Z.to_nat (if ParallelWorkers c <=? 0 then 1 else ParallelWorkers c).

Definition poolState : Type := @pool.state exportResult accum.

Definition start (e : Exporter) (messageIDs : list string) (w : World) : poolState :=
  pool.init messageIDs (workerCount (config e)) emptyAccum w.

Definition poolStep (e : Exporter) : poolState -> poolState -> Prop :=
  pool.step (exportWorker e) collect (finish e).

(** The results that carry an error. *)
Definition failed (r : exportResult) : Prop := RError r <> None.

(** While exportEmails runs from the world [w0]: as long as no success has
    come out of a worker, the files are those of [w0] ... *)
Definition untouched (w0 : World) (s : poolState) : Prop :=
  snd (pool.acc s) = [] -> Forall failed (pool.results s) ->
  files (pool.wld s) = files w0.

(** ... and once the main goroutine has returned, the world is the one the
    step after the loop made of the world [wp] the loop left. *)
Definition finished (e : Exporter) (w0 : World) (s : poolState) : Prop :=
  pool.main s = pool.Returned ->
  exists wp, pool.wld s = finish e (pool.acc s) wp
             /\ (snd (pool.acc s) = [] -> files wp = files w0).

Definition manifestInv (e : Exporter) (w0 : World) (s : poolState) : Prop :=
  TotalExported (fst (pool.acc s)) = length (snd (pool.acc s))
  /\ pool.orderly s
  /\ (pool.main s <> pool.Returned -> untouched w0 s)
  /\ finished e w0 s.

(** exportEmails exports the specified emails: [exportEmails e ids w r w']
    when some interleaving of its goroutines returns the result [r] and
    leaves the world [w'].  (Its error is always [nil].) *)
Definition exportEmails (e : Exporter) (messageIDs : list string) (w : World)
           (r : Result) (w' : World) : Prop :=
  exists s, rtc (poolStep e) (start e messageIDs w) s /\ pool.final s
            /\ fst (pool.acc s) = r /\ pool.wld s = w'.

(** exportEmails under the scheduler [pool.run]. *)
Definition exportEmailsRun (e : Exporter) (messageIDs : list string) (w : World)
  : option (Result * World) :=
  let s0 := start e messageIDs w in
  match pool.run (exportWorker e) collect (finish e) (pool.measure s0) s0 with
  | Some s => Some (fst (pool.acc s), pool.wld s)
  | None => None
  end.

(** Export, up to the search: the two start times (of the operation and of
    the metrics collector) and the identifiers found, or the error returned. *)
Definition exportSearch (e : Exporter) (filterConfig : filters.Config) (w : World)
  : result (Z * Z * list string) * World :=
  let '(startTime, w) := Now w in
  let '(metricsStart, w) := Now w in
  let w := Log "debug" "Started metrics collection" w in
  let w := Log "info" "Starting export with Gmail query" w in
  (* Validate filter configuration *)
  match filters.Validate filterConfig with
  | Some err => (Err (wrap "invalid filter configuration" err), w)
  | None =>
      (* Create output directory *)
      match MkdirAll (env e) (OutputDir (config e)) w with
      | (Some err, w) => (Err (wrap "failed to create output directory" err), w)
      | (None, w) =>
          (* Search for emails *)
          match searchEmails e filterConfig w with
          | (Err err, w) => (Err (wrap "failed to search emails" err), w)
          | (Ok messageIDs, w) =>
              (Ok (startTime, metricsStart, messageIDs),
               Log "info" "Found emails matching filter" w)
          end
      end
  end.

(** Export, up to the call of exportEmails: the start times and the
    identifiers to process, or the error returned. *)
Definition exportPrepare (e : Exporter) (filterConfig : filters.Config) (w : World)
  : result (Z * Z * list string) * World :=
  match exportSearch e filterConfig w with
  | (Err err, w) => (Err err, w)
  | (Ok (startTime, metricsStart, messageIDs), w) =>
      (* Apply limit if specified *)
      let limited := applyLimit (Limit (config e)) messageIDs in
      let w :=
        if ((0 <? Limit (config e)) && (Limit (config e) <? len messageIDs))%bool
        then Log "info" "Limited number of emails to process" w
        else w in
      (* Set total matched in metrics *)
      let w := Log "debug" "Set total matched emails" w in
      (Ok (startTime, metricsStart, limited), w)
  end.

(** Export, after exportEmails has returned. *)
Definition exportFinish (e : Exporter) (startTime metricsStart : Z)
           (messageIDs : list string) (result : Result) (w : World) : Result * World :=
  (* Calculate duration *)
  let '(now, w) := Now w in
  let result :=
    {| TotalMatched := length messageIDs;
       TotalExported := TotalExported result;
       TotalFailed := TotalFailed result;
       TotalSize := TotalSize result;
       Duration := now - startTime;
       Failures := Failures result |} in
  (* Record metrics *)
  let w := Log "debug" "Recorded email processing metrics" w in
  let w := Log "debug" "Recorded bytes processed" w in
  let '(endTime, w) := Now w in
  let w := Log "debug" "Recorded operation duration" w in
  let data :=
    {| Operation := "export"; StartTime := metricsStart; EndTime := endTime;
       MDuration := Duration result;
       MTotalMatched := Z.of_nat (length messageIDs);
       MTotalExported := Z.of_nat (TotalExported result);
       MTotalFailed := Z.of_nat (TotalFailed result);
       MTotalSize := TotalSize result |} in
  (* Save metrics *)
  let w :=
    match metrics.Save (env e) (PathJoin (OutputDir (config e)) "metrics.json") data w with
    | (Some _, w) => Log "warning" "Failed to save metrics" w
    | (None, w) => w
    end in
  (result, Log "info" "Export completed" w).

(** Export performs the email export operation. *)
Definition Export (e : Exporter) (filterConfig : filters.Config) (w : World)
           (out : result Result) (w' : World) : Prop :=
  match exportPrepare e filterConfig w with
  | (Err err, w1) => out = Err err /\ w' = w1
  | (Ok (startTime, metricsStart, messageIDs), w1) =>
      exists r w2, exportEmails e messageIDs w1 r w2
                   /\ out = Ok (fst (exportFinish e startTime metricsStart messageIDs r w2))
                   /\ w' = snd (exportFinish e startTime metricsStart messageIDs r w2)
  end.

(** Export under the scheduler [pool.run]. *)
Definition ExportRun (e : Exporter) (filterConfig : filters.Config) (w : World)
  : option (result Result * World) :=
  match exportPrepare e filterConfig w with
  | (Err err, w1) => Some (Err err, w1)
  | (Ok (startTime, metricsStart, messageIDs), w1) =>
      match exportEmailsRun e messageIDs w1 with
      | Some (r, w2) =>
          let '(r', w3) := exportFinish e startTime metricsStart messageIDs r w2 in
          Some (Ok r', w3)
      | None => None
      end
  end.

End exporter.

(** ** package importer *)

Module importer.

(** Config represents the importer configuration. *)
Record Config := {
  CredentialsFile : string;
  TokenFile : string;
  InputDir : string;
  ParallelWorkers : Z;
  PreserveDates : bool;
  Limit : Z
}.

(** Failure represents a failed import operation. *)
Record Failure := { FilePath : string; Error : string; Timestamp : Z }.

(** Result represents the import operation result. *)
Record Result := {
  TotalFound : nat;
  TotalImported : nat;
  TotalFailed : nat;
  TotalSize : Z;
  Duration : Z;
  Failures : list Failure
}.

(** Importer handles email import operations. *)
Record Importer := { config : Config; env : Env }.

(** importResult represents the result of importing a single email. *)
Record importResult := { RFilePath : string; RSize : Z; RError : option string }.

(** validateConfig validates the importer configuration; [os.Stat] finds
    the input directory when there is a tree at its path. *)
Definition validateConfig (env : Env) (c : Config) : option string :=
  if String.eqb (InputDir c) "" then Some "input directory is required"
  else
    match lstat env (InputDir c) with
    | None => Some ("input directory does not exist: " +:+ InputDir c)
    | Some _ =>
        if ParallelWorkers c <? 0 then Some "parallel workers must be >= 0"
        else if Limit c <? 0 then Some "limit must be >= 0"
        else None
    end.

(** encodeBase64URL encodes data in base64url format for Gmail API. *)
Definition encodeBase64URL (data : list byte) : string :=
  let encoded := base64.EncodeToString base64.encodeURL data in
  TrimRight encoded "=".

(** The test of the callback of findEmailFiles on a file's path. *)
Definition isEmailFile (path : string) : bool :=
  let ext := ToLower (Ext path) in
  (String.eqb ext ".eml" || String.eqb ext ".json" || String.eqb ext ".mbox")%bool.

Definition nodeName (n : node) : string :=
  match n with
  | FileNode name => name
  | DirNode name _ _ => name
  end.

(** [filepath.WalkDir] with the callback of findEmailFiles, which appends to
    [emailFiles] the paths it keeps: the callback is called on [path]; for a
    directory, its entries are then read (a failure is handed to the
    callback, which returns it and so stops the walk) and walked in order. *)
Fixpoint walkDir (path : string) (d : node) (emailFiles : list string)
  : result (list string) :=
  match d with
  | FileNode _ =>
      Ok (if isEmailFile path then emailFiles ++ [path] else emailFiles)
  | DirNode _ (Some err) _ => Err err
  | DirNode _ None entries =>
      (fix walkEntries (ds : list node) (emailFiles : list string) :=
         match ds with
         | [] => Ok emailFiles
         | d1 :: ds' =>
             match walkDir (PathJoin path (nodeName d1)) d1 emailFiles with
             | Ok emailFiles => walkEntries ds' emailFiles
             | Err err => Err err
             end
         end) entries emailFiles
  end.

(** What the specification says of the walk, for comparison: every path of
    the tree that is not a directory, parents before children and entries
    in order ... *)
Fixpoint walkFiles (path : string) (d : node) : list string :=
  match d with
  | FileNode _ => [path]
  | DirNode _ _ entries =>
      (fix walkEntries (ds : list node) : list string :=
         match ds with
         | [] => []
         | d1 :: ds' => walkFiles (PathJoin path (nodeName d1)) d1 ++ walkEntries ds'
         end) entries
  end.

(** ... in a tree all of whose directories can be read. *)
Fixpoint readable (d : node) : bool :=
  match d with
  | FileNode _ => true
  | DirNode _ (Some _) _ => false
  | DirNode _ None entries =>
      (fix readableEntries (ds : list node) : bool :=
         match ds with
         | [] => true
         | d1 :: ds' => (readable d1 && readableEntries ds')%bool
         end) entries
  end.

(** findEmailFiles finds all email files in the input directory. *)
Definition findEmailFiles (i : Importer) : result (list string) :=
  let root := InputDir (config i) in
  match lstat (env i) root with
  | None => Err (wrap "failed to walk directory"
                   ("lstat " +:+ root +:+ ": no such file or directory"))
  | Some d =>
      match walkDir root d [] with
      | Ok emailFiles => Ok emailFiles
      | Err err => Err (wrap "failed to walk directory" err)
      end
  end.

(** The three import functions end with the same request. *)
Definition importRaw (i : Importer) (raw : string) (size : Z) (w : World)
  : (Z * option string) * World :=
  let reply := importMessage (gmailService (env i)) (calls w) raw in
  let w := called (MessagesImport raw) w in
  match reply with
  | Some err => ((0, Some (wrap "failed to import message" err)), w)
  | None => ((size, None), w)
  end.

(** importEMLFile imports an EML format email. *)
Definition importEMLFile (i : Importer) (data : list byte) (w : World)
  : (Z * option string) * World :=
  importRaw i (encodeBase64URL data) (len data) w.

(** importJSONFile imports a JSON format email. *)
Definition importJSONFile (i : Importer) (data : list byte) (w : World)
  : (Z * option string) * World :=
  match unmarshalRaw (env i) data with
  | Err err => ((0, Some (wrap "failed to parse JSON" err)), w)
  | Ok raw => importRaw i raw (len data) w
  end.

(** importMboxFile imports an mbox format email. *)
Definition importMboxFile (i : Importer) (data : list byte) (w : World)
  : (Z * option string) * World :=
  importRaw i (encodeBase64URL data) (len data) w.

(** importSingleEmail imports a single email file. *)
Definition importSingleEmail (i : Importer) (filePath : string) (w : World)
  : (Z * option string) * World :=
  match ReadFile filePath w with
  | Err err => ((0, Some (wrap "failed to read file" err)), w)
  | Ok data =>
      let ext := ToLower (Ext filePath) in
      if String.eqb ext ".eml" then importEMLFile i data w
      else if String.eqb ext ".json" then importJSONFile i data w
      else if String.eqb ext ".mbox" then importMboxFile i data w
      else ((0, Some ("unsupported file type: " +:+ ext)), w)
  end.

(** The body of the loop of importWorker. *)
Definition importWorker (i : Importer) (filePath : string) (w : World)
  : importResult * World :=
  let '((size, err), w) := importSingleEmail i filePath w in
  ({| RFilePath := filePath; RSize := size; RError := err |}, w).

Definition emptyResult : Result :=
  {| TotalFound := 0; TotalImported := 0; TotalFailed := 0; TotalSize := 0;
     Duration := 0; Failures := [] |}.

(** One turn of [for importRes := range results]. *)
Definition collect (importRes : importResult) (result : Result) (w : World)
  : Result * World :=
  match RError importRes with
  | Some err =>
      let '(now, w) := Now w in
      ({| TotalFound := TotalFound result;
          TotalImported := TotalImported result;
          TotalFailed := S (TotalFailed result);
          TotalSize := TotalSize result;
          Duration := Duration result;
          Failures := Failures result ++
            [{| FilePath := RFilePath importRes; Error := err; Timestamp := now |}] |},
       Log "error" "Failed to import email" w)
  | None =>
      ({| TotalFound := TotalFound result;
          TotalImported := S (TotalImported result);
          TotalFailed := TotalFailed result;
          TotalSize := wrap64 (TotalSize result + RSize importRes);
          Duration := Duration result;
          Failures := Failures result |},
       w)
  end.

(** The number of results the loop has handled. *)
Definition handled (result : Result) : nat := (TotalImported result + TotalFailed result)%nat.

Definition finish (result : Result) (w : World) : World := w.

(** [if i.config.ParallelWorkers <= 0 { i.config.ParallelWorkers = 1 }] *)
Definition workerCount (c : Config) : nat :=
  Z.to_nat (if ParallelWorkers c <=? 0 then 1 else ParallelWorkers c).

Definition poolState : Type := @pool.state importResult Result.

Definition start (i : Importer) (emailFiles : list string) (w : World) : poolState :=
  pool.init emailFiles (workerCount (config i)) emptyResult w.

Definition poolStep (i : Importer) : poolState -> poolState -> Prop :=
  pool.step (importWorker i) collect finish.

(** importEmails imports the specified email files. *)
Definition importEmails (i : Importer) (emailFiles : list string) (w : World)
           (r : Result) (w' : World) : Prop :=
  exists s, rtc (poolStep i) (start i emailFiles w) s /\ pool.final s
            /\ pool.acc s = r /\ pool.wld s = w'.

(** importEmails under the scheduler [pool.run]. *)
Definition importEmailsRun (i : Importer) (emailFiles : list string) (w : World)
  : option (Result * World) :=
  let s0 := start i emailFiles w in
  match pool.run (importWorker i) collect finish (pool.measure s0) s0 with
  | Some s => Some (pool.acc s, pool.wld s)
  | None => None
  end.

(** Import, up to the call of importEmails. *)
Definition importPrepare (i : Importer) (w : World)
  : result (Z * Z * list string) * World :=
  let '(startTime, w) := Now w in
  let '(metricsStart, w) := Now w in
  let w := Log "debug" "Started metrics collection" w in
  let w := Log "info" "Starting email import" w in
  (* Find email files *)
  match findEmailFiles i with
  | Err err => (Err (wrap "failed to find email files" err), w)
  | Ok emailFiles =>
      let w := Log "info" "Found email files to import" w in
      (* Apply limit if specified *)
      let limited := applyLimit (Limit (config i)) emailFiles in
      let w :=
        if ((0 <? Limit (config i)) && (Limit (config i) <? len emailFiles))%bool
        then Log "info" "Limited number of files to process" w
        else w in
      (Ok (startTime, metricsStart, limited), w)
  end.

(** Import, after importEmails has returned. *)
Definition importFinish (i : Importer) (startTime metricsStart : Z)
           (emailFiles : list string) (result : Result) (w : World) : Result * World :=
  (* Calculate duration *)
  let '(now, w) := Now w in
  let result :=
    {| TotalFound := length emailFiles;
       TotalImported := TotalImported result;
       TotalFailed := TotalFailed result;
       TotalSize := TotalSize result;
       Duration := now - startTime;
       Failures := Failures result |} in
  (* Record metrics *)
  let w := Log "debug" "Recorded email processing metrics" w in
  let w := Log "debug" "Recorded bytes processed" w in
  let '(endTime, w) := Now w in
  let w := Log "debug" "Recorded operation duration" w in
  let w := Log "debug" "Set total matched emails" w in
  let data :=
    {| Operation := "import"; StartTime := metricsStart; EndTime := endTime;
       MDuration := Duration result;
       MTotalMatched := Z.of_nat (TotalFound result);
       MTotalExported := Z.of_nat (TotalImported result);
       MTotalFailed := Z.of_nat (TotalFailed result);
       MTotalSize := TotalSize result |} in
  (* Save metrics *)
  let metricsPath := PathJoin (PathDir (InputDir (config i))) "import_metrics.json" in
  let w :=
    match metrics.Save (env i) metricsPath data w with
    | (Some _, w) => Log "warning" "Failed to save metrics" w
    | (None, w) => w
    end in
  (result, Log "info" "Import completed" w).

(** Import performs the email import operation. *)
Definition Import (i : Importer) (w : World) (out : result Result) (w' : World) : Prop :=
  match importPrepare i w with
  | (Err err, w1) => out = Err err /\ w' = w1
  | (Ok (startTime, metricsStart, emailFiles), w1) =>
      exists r w2, importEmails i emailFiles w1 r w2
                   /\ out = Ok (fst (importFinish i startTime metricsStart emailFiles r w2))
                   /\ w' = snd (importFinish i startTime metricsStart emailFiles r w2)
  end.


End importer.

(** ** package cleaner *)

Module cleaner.

(** Config represents the cleaner configuration. *)
Record Config := {
  CredentialsFile : string;
  TokenFile : string;
  Action : string;   (* "archive" or "delete" *)
  FilterFile : string;
  DryRun : bool;
  Limit : Z
}.

(** Failure represents a failed cleanup operation. *)
Record Failure := { EmailID : string; Error : string; Timestamp : Z }.

(** Result represents the cleanup operation result. *)
Record Result := {
  TotalFound : nat;
  TotalProcessed : nat;
  TotalFailed : nat;
  Duration : Z;
  RAction : string;
  RDryRun : bool;
  Failures : list Failure
}.

(** Cleaner handles email cleanup operations. *)
Record Cleaner := { config : Config; env : Env }.

Definition setAction (c : Config) (a : string) : Config :=
  {| CredentialsFile := CredentialsFile c; TokenFile := TokenFile c; Action := a;
     FilterFile := FilterFile c; DryRun := DryRun c; Limit := Limit c |}.

(** validateConfig validates the cleaner configuration (and fills in the
    default action). *)
Definition validateConfig (c : Config) (w : World) : Config * option string :=
  let c := if String.eqb (Action c) "" then setAction c "archive" else c in
  if (negb (String.eqb (Action c) "archive") && negb (String.eqb (Action c) "delete"))%bool
  then (c, Some ("action must be 'archive' or 'delete', got: " +:+ Action c))
  else if String.eqb (FilterFile c) "" then (c, Some "filter file is required")
  else
    match files w !! FilterFile c with
    | None => (c, Some ("filter file does not exist: " +:+ FilterFile c))
    | Some _ =>
        if Limit c <? 0 then (c, Some "limit must be >= 0") else (c, None)
    end.

(** loadProcessedEmails loads the list of processed emails from the filter file. *)
Definition loadProcessedEmails (c : Cleaner) (w : World) : result (list ProcessedEmail) :=
  match ReadFile (FilterFile (config c)) w with
  | Err err => Err (wrap "failed to read filter file" err)
  | Ok data =>
      match unmarshalProcessed (env c) data with
      | Err err => Err (wrap "failed to parse filter file" err)
      | Ok processedEmails => Ok processedEmails
      end
  end.

(** archiveEmail archives a single email. *)
Definition archiveEmail (c : Cleaner) (emailID : string) (w : World)
  : option string * World :=
  let reply := modifyMessage (gmailService (env c)) (calls w) emailID ["INBOX"] in
  let w := called (MessagesModify emailID ["INBOX"]) w in
  match reply with
  | Some err => (Some (wrap "failed to archive email" err), w)
  | None => (None, w)
  end.

(** deleteEmail deletes a single email. *)
Definition deleteEmail (c : Cleaner) (emailID : string) (w : World)
  : option string * World :=
  let reply := deleteMessage (gmailService (env c)) (calls w) emailID in
  let w := called (MessagesDelete emailID) w in
  match reply with
  | Some err => (Some (wrap "failed to delete email" err), w)
  | None => (None, w)
  end.

(** cleanupSingleEmail performs cleanup on a single email. *)
Definition cleanupSingleEmail (c : Cleaner) (emailID : string) (w : World)
  : option string * World :=
  if DryRun (config c) then
    (None, Log "info" "DRY RUN: Would perform cleanup action" w)
  else if String.eqb (Action (config c)) "archive" then archiveEmail c emailID w
  else if String.eqb (Action (config c)) "delete" then deleteEmail c emailID w
  else (Some ("unsupported action: " +:+ Action (config c)), w).

Definition emptyResult : Result :=
  {| TotalFound := 0; TotalProcessed := 0; TotalFailed := 0; Duration := 0;
     RAction := ""; RDryRun := false; Failures := [] |}.

(** cleanupEmails performs cleanup on the specified emails: one turn of its
    loop per email, in order. *)
Fixpoint cleanupLoop (c : Cleaner) (processedEmails : list ProcessedEmail)
         (result : Result) (w : World) : Result * World :=
  match processedEmails with
  | [] => (result, w)
  | email :: rest =>
      match cleanupSingleEmail c (ID email) w with
      | (Some err, w) =>
          let '(now, w) := Now w in
          let result :=
            {| TotalFound := TotalFound result;
               TotalProcessed := TotalProcessed result;
               TotalFailed := S (TotalFailed result);
               Duration := Duration result;
               RAction := RAction result;
               RDryRun := RDryRun result;
               Failures := Failures result ++
                 [{| EmailID := ID email; Error := err; Timestamp := now |}] |} in
          cleanupLoop c rest result (Log "error" "Failed to cleanup email" w)
      | (None, w) =>
          let result :=
            {| TotalFound := TotalFound result;
               TotalProcessed := S (TotalProcessed result);
               TotalFailed := TotalFailed result;
               Duration := Duration result;
               RAction := RAction result;
               RDryRun := RDryRun result;
               Failures := Failures result |} in
          cleanupLoop c rest result w
      end
  end.

Definition cleanupEmails (c : Cleaner) (processedEmails : list ProcessedEmail) (w : World)
  : Result * World :=
  cleanupLoop c processedEmails emptyResult w.

(** Cleanup performs the email cleanup operation. *)
Definition Cleanup (c : Cleaner) (w : World) : result Result * World :=
  let '(startTime, w) := Now w in
  let '(metricsStart, w) := Now w in
  let w := Log "debug" "Started metrics collection" w in
  let w := Log "info" "Starting email cleanup" w in
  (* Load processed emails from filter file *)
  match loadProcessedEmails c w with
  | Err err => (Err (wrap "failed to load processed emails" err), w)
  | Ok processedEmails =>
      let w := Log "info" "Found processed emails to clean up" w in
      (* Apply limit if specified *)
      let limited := applyLimit (Limit (config c)) processedEmails in
      let w :=
        if ((0 <? Limit (config c)) && (Limit (config c) <? len processedEmails))%bool
        then Log "info" "Limited number of emails to process" w
        else w in
      (* Perform cleanup *)
      let '(result, w) := cleanupEmails c limited w in
      (* Calculate duration *)
      let '(now, w) := Now w in
      let result :=
        {| TotalFound := length limited;
           TotalProcessed := TotalProcessed result;
           TotalFailed := TotalFailed result;
           Duration := now - startTime;
           RAction := Action (config c);
           RDryRun := DryRun (config c);
           Failures := Failures result |} in
      (* Record metrics *)
      let w := Log "debug" "Recorded email processing metrics" w in
      let '(endTime, w) := Now w in
      let w := Log "debug" "Recorded operation duration" w in
      let w := Log "debug" "Set total matched emails" w in
      let data :=
        {| Operation := "cleanup"; StartTime := metricsStart; EndTime := endTime;
           MDuration := Duration result;
           MTotalMatched := Z.of_nat (TotalFound result);
           MTotalExported := Z.of_nat (TotalProcessed result);
           MTotalFailed := Z.of_nat (TotalFailed result);
           MTotalSize := 0 |} in
      (* Save metrics *)
      let metricsPath := PathJoin (PathDir (FilterFile (config c))) "cleanup_metrics.json" in
      let w :=
        match metrics.Save (env c) metricsPath data w with
        | (Some _, w) => Log "warning" "Failed to save metrics" w
        | (None, w) => w
        end in
      (Ok result, Log "info" "Cleanup completed" w)
  end.

(** getActionVerb returns the appropriate verb for the action. *)
Definition getActionVerb (c : Cleaner) : string :=
  if String.eqb (Action (config c)) "archive" then "archived"
  else if String.eqb (Action (config c)) "delete" then "deleted"
  else "processed".

End cleaner.

(** ** package cli: the command generate-filter *)

Module cli.

Definition isHexDigit (char : ascii) : bool :=
  let n := N_of_ascii char in
  ((N.leb 48 n && N.leb n 57) || (N.leb 97 n && N.leb n 102)
   || (N.leb 65 n && N.leb n 70))%bool.

Fixpoint allHexDigits (id : string) : bool :=
  match id with
  | EmptyString => true
  | String char rest => (isHexDigit char && allHexDigits rest)%bool
  end.

(** isValidGmailMessageID checks if a string looks like a valid Gmail message
    ID: ten to twenty hexadecimal digits. *)
Definition isValidGmailMessageID (id : string) : bool :=
  if ((String.length id <? 10)%nat || (20 <? String.length id)%nat)%bool then false
  else allHexDigits id.

(** The callback of scanExportsDirectory on the file [filename] at [path].
    The information on a file is that of the file system at the time of the
    call; it is missing when the file is no longer there. *)
Definition scanFile (now : Z) (path filename : string)
           (processedEmails : list ProcessedEmail) (w : World)
  : list ProcessedEmail * World :=
  let ext := ToLower (Ext path) in
  if negb (String.eqb ext ".eml" || String.eqb ext ".json" || String.eqb ext ".mbox")%bool
  then (processedEmails, w)
  else
    (* Extract email ID from filename *)
    let emailID := TrimSuffix filename ext in
    if negb (isValidGmailMessageID emailID)
    then (processedEmails,
          Log "debug" "Skipping file with invalid Gmail message ID format" w)
    else
      match files w !! path with
      | None =>
          (processedEmails ++
             [{| ID := emailID; PSubject := ""; PFrom := ""; Date := 0; Size := 0;
                 Processed := now |}],
           Log "warning" "Failed to get file info" w)
      | Some fileInfo =>
          (processedEmails ++
             [{| ID := emailID; PSubject := ""; PFrom := ""; Date := 0;
                 Size := len (content fileInfo); Processed := now |}],
           w)
      end.

(** [filepath.WalkDir] with the callback of scanExportsDirectory. *)
Fixpoint scanWalk (now : Z) (path : string) (d : node)
         (processedEmails : list ProcessedEmail) (w : World)
  : result (list ProcessedEmail) * World :=
  match d with
  | FileNode name =>
      let '(processedEmails, w) := scanFile now path name processedEmails w in
      (Ok processedEmails, w)
  | DirNode _ (Some err) _ => (Err err, w)
  | DirNode _ None entries =>
      (fix walkEntries (ds : list node) (processedEmails : list ProcessedEmail) (w : World) :=
         match ds with
         | [] => (Ok processedEmails, w)
         | d1 :: ds' =>
             match scanWalk now (PathJoin path (importer.nodeName d1)) d1 processedEmails w with
             | (Ok processedEmails, w) => walkEntries ds' processedEmails w
             | (Err err, w) => (Err err, w)
             end
         end) entries processedEmails w
  end.

(** scanExportsDirectory scans the exports directory and extracts email IDs
    from filenames. *)
Definition scanExportsDirectory (env : Env) (inputDir : string) (w : World)
  : result (list ProcessedEmail) * World :=
  let '(now, w) := Now w in
  match lstat env inputDir with
  | None =>
      (Err (wrap "failed to walk directory"
              ("lstat " +:+ inputDir +:+ ": no such file or directory")), w)
  | Some d =>
      match scanWalk now inputDir d [] w with
      | (Ok processedEmails, w) => (Ok processedEmails, w)
      | (Err err, w) => (Err (wrap "failed to walk directory" err), w)
      end
  end.

(** The command generate-filter, from the values of its two flags: the
    error it returns, and the world it leaves.  (What it prints is left
    out.) *)
Definition generateFilter (env : Env) (inputDir outputFile : string) (w : World)
  : option string * World :=
  if String.eqb inputDir "" then (Some "input-dir is required", w)
  else
    let outputFile :=
      if String.eqb outputFile "" then PathJoin inputDir "processed_emails.json"
      else outputFile in
    let w := Log "info" "Generating filter file from exports directory" w in
    (* Scan for email files and extract IDs *)
    match scanExportsDirectory env inputDir w with
    | (Err err, w) => (Some (wrap "failed to scan exports directory" err), w)
    | (Ok processedEmails, w) =>
        match processedEmails with
        | [] => (Some ("no email files found in directory: " +:+ inputDir), w)
        | _ =>
            (* Write the filter file *)
            match marshalProcessed env processedEmails with
            | Err err => (Some (wrap "failed to marshal processed emails" err), w)
            | Ok data =>
                match WriteFile env outputFile data 384 w with
                | (Some err, w) => (Some (wrap "failed to write filter file" err), w)
                | (None, w) => (None, w)
                end
            end
        end
    end.

End cli.

(** ** Concrete scenarios *)

Module scenario.

Definition bytesOf (s : string) : list byte := list_byte_of_string s.

(** A mail service holding three messages that all match: the listing is one
    page, a message is returned with its raw content in base64url. *)
Definition rawOf (id : string) : list byte := bytesOf ("Subject: Invoice " +:+ id).

Definition service : GmailService := {|
  listPages := fun _ _ => [Ok ["m1"; "m2"; "m3"]];
  getMessage := fun _ id _ =>
    if existsb (String.eqb id) ["m1"; "m2"; "m3"]
    then Ok {| Id := id; LabelIds := ["INBOX"]; Raw := importer.encodeBase64URL (rawOf id) |}
    else Err "notFound";
  importMessage := fun _ _ => None;
  modifyMessage := fun _ _ _ => None;
  deleteMessage := fun _ _ => None
|}.

(** A stand-in for encoding/json on manifests: one identifier per line. *)
Definition manifestText (l : list ProcessedEmail) : list byte :=
  bytesOf (String.concat "
" (map ID l)).

(** The input directory of the import scenario. *)
Definition inbox : node :=
  DirNode "in" None [FileNode "a.eml"; FileNode "b.eml"; FileNode "notes.txt"].

(** The directory of the importer's test: five files and a subdirectory. *)
Definition testDir : node :=
  DirNode "tmp" None
    [ FileNode "document.pdf"; FileNode "email1.eml"; FileNode "email2.json";
      FileNode "email3.mbox"; FileNode "not_email.txt";
      DirNode "subdir" None [FileNode "email4.eml"] ].

(** The directory of the test of generate-filter, in the order of a walk. *)
Definition exportsDir : node :=
  DirNode "exports" None
    [ FileNode "125288cd4bd52814.eml"; FileNode "125289498b7ee74e.eml";
      FileNode "125289e540f06a4e.json"; FileNode "12d7a4179949125c.mbox";
      FileNode "invalid-id.eml"; FileNode "metrics.json"; FileNode "not-an-email.txt" ].

(** A directory as Export leaves it: two messages, the metrics file and the
    manifest. *)
Definition exportedDir : node :=
  DirNode "exported" None
    [ FileNode "125288cd4bd52814.eml"; FileNode "125289498b7ee74e.eml";
      FileNode "metrics.json"; FileNode "processed_emails.json" ].

Definition twoRecords : list ProcessedEmail :=
  [ {| ID := "m1"; PSubject := ""; PFrom := ""; Date := 0; Size := 100; Processed := 1 |};
    {| ID := "m2"; PSubject := ""; PFrom := ""; Date := 0; Size := 200; Processed := 2 |} ].

Definition env0 : Env := {|
  gmailService := service;
  mkdirError := fun _ => None;
  writeError := fun _ => None;
  lstat := fun root => if String.eqb root "in" then Some inbox else None;
  marshalProcessed := fun l => Ok (manifestText l);
  unmarshalProcessed := fun _ => Ok twoRecords;
  marshalMessage := fun m => Ok (bytesOf (Id m));
  unmarshalRaw := fun _ => Err "unexpected end of JSON input";
  marshalMetrics := fun _ => Ok []
|}.

Definition world0 : World := {|
  files := {[ "in/a.eml" := {| content := bytesOf "A"; perm := 420 |};
              "in/b.eml" := {| content := bytesOf "BB"; perm := 420 |};
              "in/notes.txt" := {| content := bytesOf "n"; perm := 420 |};
              "out/processed_emails.json" := {| content := bytesOf "m1"; perm := 384 |} ]};
  dirs := ∅; calls := []; clock := 0; logs := []
|}.

(** The same environment with a mail service that refuses every request. *)
Definition offline : Env := {|
  gmailService := {|
    listPages := fun _ _ => [Err "connection refused"];
    getMessage := fun _ _ _ => Err "connection refused";
    importMessage := fun _ _ => Some "connection refused";
    modifyMessage := fun _ _ _ => Some "connection refused";
    deleteMessage := fun _ _ => Some "connection refused"
  |};
  mkdirError := mkdirError env0;
  writeError := writeError env0;
  lstat := lstat env0;
  marshalProcessed := marshalProcessed env0;
  unmarshalProcessed := unmarshalProcessed env0;
  marshalMessage := marshalMessage env0;
  unmarshalRaw := unmarshalRaw env0;
  marshalMetrics := marshalMetrics env0
|}.

(** The environment and the file system of a run of generate-filter on that
    directory. *)
Definition exportedEnv : Env := {|
  gmailService := service;
  mkdirError := mkdirError env0;
  writeError := writeError env0;
  lstat := fun root => if String.eqb root "exported" then Some exportedDir else None;
  marshalProcessed := marshalProcessed env0;
  unmarshalProcessed := unmarshalProcessed env0;
  marshalMessage := marshalMessage env0;
  unmarshalRaw := unmarshalRaw env0;
  marshalMetrics := marshalMetrics env0
|}.

Definition exportedWorld : World := {|
  files := {[ "exported/125288cd4bd52814.eml"
                := {| content := bytesOf "test email content"; perm := 384 |};
              "exported/125289498b7ee74e.eml"
                := {| content := bytesOf "another email"; perm := 384 |};
              "exported/metrics.json" := {| content := []; perm := 384 |};
              "exported/processed_emails.json"
                := {| content := bytesOf "m1"; perm := 384 |} ]};
  dirs := {[ "exported" ]}; calls := []; clock := 7; logs := []
|}.

Definition exportConfig (limit workers : Z) (format : string) : exporter.Config := {|
  exporter.CredentialsFile := "credentials.json";
  exporter.TokenFile := "token.json";
  exporter.OutputDir := "out";
  exporter.OrganizeByLabels := false;
  exporter.ParallelWorkers := workers;
  exporter.IncludeAttachments := false;
  exporter.CompressExports := false;
  exporter.Format := format;
  exporter.Resume := false;
  exporter.StateFile := "";
  exporter.Limit := limit
|}.

Definition theExporter (limit workers : Z) (format : string) : exporter.Exporter :=
  {| exporter.config := exportConfig limit workers format; exporter.env := env0 |}.

Definition offlineExporter (workers : Z) : exporter.Exporter :=
  {| exporter.config := exportConfig 0 workers "eml"; exporter.env := offline |}.

(** An interleaving of two workers in which the second item is finished
    first: both items are sent and the channel closed; worker 0 takes m1,
    worker 1 takes m2 and finishes it, then worker 0 finishes m1; the main
    goroutine receives the two results; the workers leave, the results
    channel is closed and the main goroutine returns. *)
Definition secondFirst : list pool.action :=
  [ pool.Main; pool.Main; pool.Main;
    pool.Work 0; pool.Work 1; pool.Work 1; pool.Work 0;
    pool.Main; pool.Main;
    pool.Work 0; pool.Work 1; pool.Close; pool.Main ].

Definition invoiceFilter : filters.Config := {|
  filters.To := ""; filters.From := ""; filters.Subject := "Invoice";
  filters.IncludesWords := ""; filters.ExcludesWords := "";
  filters.SizeGreaterThan := 0; filters.SizeLessThan := 0; filters.DateWithin := 0;
  filters.DateAfter := None; filters.DateBefore := None; filters.HasAttachment := None;
  filters.ExcludeChats := false; filters.Labels := ""; filters.SearchScope := ""
|}.

(** The filter that only restricts the search scope. *)
Definition scopeFilter (scope : string) : filters.Config := {|
  filters.To := ""; filters.From := ""; filters.Subject := "";
  filters.IncludesWords := ""; filters.ExcludesWords := "";
  filters.SizeGreaterThan := 0; filters.SizeLessThan := 0; filters.DateWithin := 0;
  filters.DateAfter := None; filters.DateBefore := None; filters.HasAttachment := None;
  filters.ExcludeChats := false; filters.Labels := ""; filters.SearchScope := scope
|}.

(** The filter that only bounds the size. *)
Definition sizeFilter (greater less : Z) : filters.Config := {|
  filters.To := ""; filters.From := ""; filters.Subject := "";
  filters.IncludesWords := ""; filters.ExcludesWords := "";
  filters.SizeGreaterThan := greater; filters.SizeLessThan := less; filters.DateWithin := 0;
  filters.DateAfter := None; filters.DateBefore := None; filters.HasAttachment := None;
  filters.ExcludeChats := false; filters.Labels := ""; filters.SearchScope := ""
|}.

Definition theImporter (limit workers : Z) : importer.Importer :=
  {| importer.config :=
       {| importer.CredentialsFile := "credentials.json";
          importer.TokenFile := "token.json";
          importer.InputDir := "in";
          importer.ParallelWorkers := workers;
          importer.PreserveDates := false;
          importer.Limit := limit |};
     importer.env := env0 |}.

Definition theCleaner (action : string) (dryRun : bool) (limit : Z) : cleaner.Cleaner :=
  {| cleaner.config :=
       {| cleaner.CredentialsFile := "credentials.json";
          cleaner.TokenFile := "token.json";
          cleaner.Action := action;
          cleaner.FilterFile := "out/processed_emails.json";
          cleaner.DryRun := dryRun;
          cleaner.Limit := limit |};
     cleaner.env := env0 |}.

End scenario.

(** * Properties of the embedding *)

(** ** The worker pool *)

Section PoolFacts.

Context {R Acc : Type}.
Variable handler : string -> World -> R * World.
Variable collect : R -> Acc -> World -> Acc * World.
Variable finish : Acc -> World -> World.

Local Abbreviation state := (@pool.state R Acc).
Local Abbreviation step_fn := (pool.step_fn handler collect finish).
Local Abbreviation step := (pool.step handler collect finish).
Local Abbreviation run := (pool.run handler collect finish).
Local Abbreviation firstStep := (pool.firstStep handler collect finish).

Lemma workersRank_insert (ws : list (@pool.worker)) i k k' :
  ws !! i = Some k ->
  (pool.workersRank (<[i := k']> ws) + pool.workerRank k
   = pool.workersRank ws + pool.workerRank k')%nat.
Proof.
  revert i. induction ws as [|k0 ws IH]; intros [|i] Hi; simpl in *; try discriminate.
  - injection Hi as ->. lia.
  - specialize (IH _ Hi). lia.
Qed.

(** Every step uses up some of the measure: there is no infinite run. *)
Lemma step_fn_measure a (s s' : state) :
  step_fn a s = Some s' -> (pool.measure s' < pool.measure s)%nat.
Proof.
  destruct s as [m js ws rs cl ac w]. unfold pool.step_fn, pool.measure. simpl.
  destruct a as [|i|].
  - destruct m as [[|x rest]| |]; simpl.
    + intros [= <-]. simpl. lia.
    + intros [= <-]. simpl. rewrite length_app. simpl. lia.
    + destruct rs as [|r rs].
      * destruct cl; intros [= <-]. simpl. lia.
      * destruct (collect r ac w) as [a' w']. intros [= <-]. simpl. lia.
    + discriminate.
  - destruct (ws !! i) as [[|x|]|] eqn:Hi; try discriminate.
    + destruct js as [|x rest].
      * destruct (pool.jobsClosed _); intros [= <-]; simpl.
        pose proof (workersRank_insert ws i _ (@pool.Exited) Hi). simpl in *. lia.
      * intros [= <-]. simpl.
        pose proof (workersRank_insert ws i _ (@pool.Running x) Hi). simpl in *. lia.
    + destruct (handler x w) as [r w']. intros [= <-]. simpl.
      pose proof (workersRank_insert ws i _ (@pool.Waiting) Hi).
      rewrite length_app. simpl in *. lia.
  - destruct (pool.jobsClosed _ && negb cl && forallb pool.isExited ws)%bool eqn:E;
      intros [= <-]. simpl.
    destruct cl; simpl in *; [|lia].
    rewrite andb_false_r in E. discriminate.
Qed.

(** A goroutine that has not left its loop can move once [jobs] is closed. *)
Lemma not_all_exited (ws : list (@pool.worker)) :
  forallb pool.isExited ws = false ->
  exists i k, ws !! i = Some k /\ k <> pool.Exited.
Proof.
  induction ws as [|k ws IH]; simpl; [discriminate|].
  destruct k; simpl.
  - intros _. exists 0%nat, pool.Waiting. split; [reflexivity | discriminate].
  - intros _. exists 0%nat, (pool.Running item). split; [reflexivity | discriminate].
  - intros H. destruct (IH H) as (i & k & Hi & Hk). exists (S i), k. auto.
Qed.

(** No deadlock: until the main goroutine has returned, some goroutine can
    take a step. *)
Lemma progress (s : state) :
  pool.main s <> pool.Returned ->
  exists a s', step_fn a s = Some s'
               /\ match a with pool.Work i => (i < length (pool.workers s))%nat | _ => True end.
Proof.
  destruct s as [m js ws rs cl ac w]. simpl. intros Hm.
  destruct m as [[|x rest]| |]; [| | |congruence].
  - exists pool.Main. simpl. eauto.
  - exists pool.Main. simpl. eauto.
  - destruct rs as [|r rs].
    + destruct cl eqn:Ecl.
      * exists pool.Main. simpl. eauto.
      * destruct (forallb pool.isExited ws) eqn:Eall.
        -- exists pool.Close. unfold pool.step_fn. simpl. rewrite Eall. eauto.
        -- destruct (not_all_exited ws Eall) as (i & k & Hi & Hk).
           exists (pool.Work i). unfold pool.step_fn. simpl. rewrite Hi.
           assert (i < length ws)%nat by (eapply lookup_lt_Some; eauto).
           destruct k as [|x|]; [| |congruence].
           ++ destruct js; eauto.
           ++ destruct (handler x w). eauto.
    + exists pool.Main. simpl. destruct (collect r ac w). eauto.
Qed.

Lemma firstStep_step cands (s s' : state) :
  firstStep cands s = Some s' -> step s s'.
Proof.
  induction cands as [|a cands IH]; simpl; [discriminate|].
  destruct (step_fn a s) as [s1|] eqn:E.
  - intros [= <-]. exists a. exact E.
  - exact IH.
Qed.

Lemma firstStep_enabled cands a (s s' : state) :
  In a cands -> step_fn a s = Some s' -> is_Some (firstStep cands s).
Proof.
  induction cands as [|b cands IH]; simpl; [tauto|].
  intros [-> | Hin] Ha.
  - rewrite Ha. eauto.
  - destruct (step_fn b s); eauto.
Qed.

Lemma candidates_complete a (s s' : state) :
  step_fn a s = Some s' ->
  match a with pool.Work i => (i < length (pool.workers s))%nat | _ => True end ->
  In a (pool.candidates s).
Proof.
  intros _ Hi. unfold pool.candidates. destruct a as [|i|]; simpl.
  - auto.
  - right. apply in_or_app. left. apply in_map. apply in_seq. lia.
  - right. apply in_or_app. right. simpl. auto.
Qed.

Lemma run_unfold fuel (s : state) :
  pool.main s <> pool.Returned ->
  run (S fuel) s = match firstStep (pool.candidates s) s with
                   | Some s' => run fuel s'
                   | None => None
                   end.
Proof. intros Hm. cbn [pool.run]. destruct (pool.main s); congruence. Qed.

(** The scheduler [pool.run] brings every state to a final one, given the
    fuel of the measure, along steps of the model. *)
Lemma run_total fuel (s : state) :
  (pool.measure s <= fuel)%nat ->
  exists s', run fuel s = Some s' /\ pool.final s' /\ rtc step s s'.
Proof.
  revert s. induction fuel as [|fuel IH]; intros s Hfuel.
  - destruct (pool.main s) eqn:Hm.
    + unfold pool.measure in Hfuel. rewrite Hm in Hfuel. simpl in Hfuel. lia.
    + unfold pool.measure in Hfuel. rewrite Hm in Hfuel. simpl in Hfuel. lia.
    + exists s. simpl. rewrite Hm. repeat split; [exact Hm | apply rtc_refl].
  - assert (pool.main s = pool.Returned \/ pool.main s <> pool.Returned) as [Hm|Hm]
      by (destruct (pool.main s); (left; reflexivity) || (right; discriminate)).
    + exists s. simpl. rewrite Hm. repeat split; [exact Hm | apply rtc_refl].
    + destruct (progress s Hm) as (a & s1 & Ha & Hi).
      destruct (firstStep_enabled (pool.candidates s) a s s1) as [s2 Hs2];
        [eapply candidates_complete; eauto | exact Ha |].
      pose proof (firstStep_step _ _ _ Hs2) as Hstep.
      destruct Hstep as [b Hb].
      pose proof (step_fn_measure _ _ _ Hb) as Hlt.
      destruct (IH s2) as (s' & Hrun & Hfin & Hrtc); [lia|].
      exists s'. split; [|split; [exact Hfin|]].
      * rewrite run_unfold by exact Hm. rewrite Hs2. exact Hrun.
      * eapply rtc_l; [exists b; exact Hb | exact Hrtc].
Qed.

(** What the scheduler [pool.run] returns is a final state reached by
    steps of the model. *)
Lemma run_sound fuel (s s' : state) :
  run fuel s = Some s' -> pool.final s' /\ rtc step s s'.
Proof.
  revert s. induction fuel as [|fuel IH]; intros s.
  - cbn [pool.run]. destruct (pool.main s) eqn:Hm; try discriminate.
    intros [= <-]. split; [exact Hm | apply rtc_refl].
  - assert (pool.main s = pool.Returned \/ pool.main s <> pool.Returned) as [Hm|Hm]
      by (destruct (pool.main s); (left; reflexivity) || (right; discriminate)).
    + cbn [pool.run]. rewrite Hm. intros [= <-]. split; [exact Hm | apply rtc_refl].
    + rewrite run_unfold by exact Hm.
      destruct (firstStep (pool.candidates s) s) as [s1|] eqn:H1; [|discriminate].
      intros Hrun. destruct (IH _ Hrun) as [Hfin Hrtc]. split; [exact Hfin|].
      eapply rtc_l; [eapply firstStep_step; exact H1 | exact Hrtc].
Qed.

(** A run cannot be longer than the measure of the state it starts from. *)
Lemma nsteps_bounded n (s s' : state) :
  nsteps step n s s' -> (n + pool.measure s' <= pool.measure s)%nat.
Proof.
  induction 1 as [|n s s1 s' [a Ha] _ IH]; [lia|].
  pose proof (step_fn_measure _ _ _ Ha). lia.
Qed.

(** What every step keeps, every run keeps. *)
Lemma rtc_keeps (I : state -> Prop) :
  (forall a s s', I s -> step_fn a s = Some s' -> I s') ->
  forall s s', rtc step s s' -> I s -> I s'.
Proof.
  intros Hstep s s' Hrtc. induction Hrtc as [s|s s1 s' [a Ha] _ IH]; [auto|].
  intros Hs. apply IH. eapply Hstep; eauto.
Qed.

End PoolFacts.

Section PoolInvariant.

Context {R Acc : Type}.
Variable handler : string -> World -> R * World.
Variable collect : R -> Acc -> World -> Acc * World.
Variable finish : Acc -> World -> World.
Variable item : R -> string.
Variable doneItems : Acc -> list string.

(** The result a worker sends names the item it was given, and the
    collecting loop files every result it receives. *)
Hypothesis handler_item : forall x w, item (fst (handler x w)) = x.
Hypothesis collect_done :
  forall r a w, doneItems (fst (collect r a w)) ≡ₚ item r :: doneItems a.

Local Abbreviation state := (@pool.state R Acc).
Local Abbreviation step_fn := (pool.step_fn handler collect finish).
Local Abbreviation step := (pool.step handler collect finish).
Local Abbreviation accounted := (pool.accounted item doneItems).

Lemma runningItems_take (ws : list (@pool.worker)) i x :
  ws !! i = Some pool.Waiting ->
  pool.runningItems (<[i := pool.Running x]> ws) ≡ₚ x :: pool.runningItems ws.
Proof.
  revert i. induction ws as [|k ws IH]; intros [|i] Hi; simpl in *; try discriminate.
  - injection Hi as ->. reflexivity.
  - destruct k; rewrite (IH _ Hi); solve_Permutation.
Qed.

Lemma runningItems_exit (ws : list (@pool.worker)) i :
  ws !! i = Some pool.Waiting ->
  pool.runningItems (<[i := pool.Exited]> ws) = pool.runningItems ws.
Proof.
  revert i. induction ws as [|k ws IH]; intros [|i] Hi; simpl in *; try discriminate.
  - injection Hi as ->. reflexivity.
  - destruct k; rewrite (IH _ Hi); reflexivity.
Qed.

Lemma runningItems_done (ws : list (@pool.worker)) i x :
  ws !! i = Some (pool.Running x) ->
  pool.runningItems ws ≡ₚ x :: pool.runningItems (<[i := pool.Waiting]> ws).
Proof.
  revert i. induction ws as [|k ws IH]; intros [|i] Hi; simpl in *; try discriminate.
  - injection Hi as ->. reflexivity.
  - destruct k; rewrite (IH _ Hi); solve_Permutation.
Qed.

(** No step loses or duplicates an item. *)
Lemma step_accounted items a (s s' : state) :
  accounted items s -> step_fn a s = Some s' -> accounted items s'.
Proof.
  destruct s as [m js ws rs cl ac w]. unfold pool.accounted, pool.pending, pool.step_fn.
  simpl. intros Hinv.
  destruct a as [|i|].
  - destruct m as [[|x rest]| |]; simpl in *.
    + intros [= <-]. simpl. exact Hinv.
    + intros [= <-]. simpl. rewrite Hinv. solve_Permutation.
    + destruct rs as [|r rs].
      * destruct cl; intros [= <-]. simpl. exact Hinv.
      * pose proof (collect_done r ac w) as Hc.
        destruct (collect r ac w) as [a' w']. intros [= <-]. simpl in *.
        rewrite Hinv, Hc. solve_Permutation.
    + discriminate.
  - destruct (ws !! i) as [[|x|]|] eqn:Hi; try discriminate.
    + destruct js as [|x rest].
      * destruct (pool.jobsClosed _); intros [= <-]; simpl.
        rewrite (runningItems_exit ws i Hi). exact Hinv.
      * intros [= <-]. simpl.
        rewrite (runningItems_take ws i x Hi). rewrite Hinv. solve_Permutation.
    + pose proof (handler_item x w) as Hh.
      destruct (handler x w) as [r w']. intros [= <-]. simpl in *.
      rewrite Hinv, (runningItems_done ws i x Hi), map_app. simpl. rewrite Hh.
      solve_Permutation.
  - destruct (_ && _ && _)%bool; intros [= <-]. simpl. exact Hinv.
Qed.

Lemma forallb_exited_insert (ws : list (@pool.worker)) i k :
  forallb pool.isExited ws = true -> ws !! i = Some k -> k = pool.Exited.
Proof.
  revert i. induction ws as [|k0 ws IH]; intros [|i]; simpl; try discriminate.
  - intros H [= <-]. apply andb_prop in H as [H _]. destruct k0; try discriminate.
    reflexivity.
  - intros H Hi. apply andb_prop in H as [_ H]. eauto.
Qed.

Lemma existsb_exited_insert (ws : list (@pool.worker)) i k k' :
  ws !! i = Some k -> k' <> pool.Exited ->
  existsb pool.isExited (<[i := k']> ws) = true -> existsb pool.isExited ws = true.
Proof.
  revert i. induction ws as [|k0 ws IH]; intros [|i]; simpl; try discriminate.
  - intros _ Hk' H. apply orb_prop in H as [H|H].
    + destruct k'; try discriminate. congruence.
    + rewrite H. apply orb_true_r.
  - intros Hi Hk' H. apply orb_prop in H as [H|H].
    + rewrite H. reflexivity.
    + rewrite (IH _ Hi Hk' H). apply orb_true_r.
Qed.

(** The order in which the channels are closed is kept by every step. *)
Lemma step_orderly a (s s' : state) :
  pool.orderly s -> step_fn a s = Some s' -> pool.orderly s'.
Proof.
  destruct s as [m js ws rs cl ac w]. unfold pool.orderly, pool.step_fn. simpl.
  intros (Hcl & Hex & Hret).
  destruct a as [|i|].
  - destruct m as [[|x rest]| |]; simpl in *.
    + intros [= <-]. simpl. repeat split; intros; try discriminate; try tauto.
    + intros [= <-]. simpl. repeat split; intros; try discriminate; try tauto.
      all: destruct Hex; [assumption | discriminate].
    + destruct rs as [|r rs].
      * destruct cl; intros [= <-]; simpl. repeat split; intros; try tauto.
      * destruct (collect r ac w) as [a' w']. intros [= <-]. simpl.
        repeat split; intros; try discriminate; try tauto.
    + discriminate.
  - destruct (ws !! i) as [k|] eqn:Hi; [|discriminate].
    assert (Hk : k = pool.Exited \/ k <> pool.Exited)
      by (destruct k; (left; reflexivity) || (right; discriminate)).
    destruct Hk as [-> | Hk]; [discriminate|].
    assert (Hopen : cl = false).
    { destruct cl; [|reflexivity]. specialize (Hcl eq_refl).
      pose proof (forallb_exited_insert ws i k Hcl Hi). contradiction. }
    subst cl.
    assert (Hm : m <> pool.Returned).
    { intros ->. destruct Hret; [reflexivity | discriminate]. }
    destruct k as [|x|]; [| |discriminate].
    + destruct js as [|x rest].
      * destruct m as [rest'| |]; simpl; intros [= <-]; simpl; [|congruence].
        repeat split; intros; try discriminate; try tauto.
      * intros [= <-]. simpl. repeat split; intros; try discriminate; try congruence.
        all: match goal with
             | H : existsb _ _ = true |- _ =>
                 apply (existsb_exited_insert ws i _ _ Hi) in H; [|discriminate];
                 destruct (Hex H); try discriminate; assumption
             end.
    + destruct (handler x w) as [r w']. intros [= <-]. simpl.
      repeat split; intros; try discriminate; try congruence.
      all: match goal with
           | H : existsb _ _ = true |- _ =>
               apply (existsb_exited_insert ws i _ _ Hi) in H; [|discriminate];
               destruct (Hex H); try discriminate; assumption
           end.
  - destruct (pool.jobsClosed _ && negb cl && forallb pool.isExited ws)%bool eqn:E;
      intros [= <-]. simpl.
    apply andb_prop in E as [E Hall]. apply andb_prop in E as [Hjc Hncl].
    repeat split; intros; try tauto.
Qed.

Lemma step_workers a (s s' : state) :
  step_fn a s = Some s' -> length (pool.workers s') = length (pool.workers s).
Proof.
  destruct s as [m js ws rs cl ac w]. unfold pool.step_fn. simpl.
  destruct a as [|i|].
  - destruct m as [[|x rest]| |]; simpl; try discriminate.
    + intros [= <-]. reflexivity.
    + intros [= <-]. reflexivity.
    + destruct rs as [|r rs].
      * destruct cl; intros [= <-]. reflexivity.
      * destruct (collect r ac w). intros [= <-]. reflexivity.
  - destruct (ws !! i) as [[|x|]|]; try discriminate.
    + destruct js; [destruct (pool.jobsClosed _)|]; intros [= <-]; simpl;
        apply length_insert.
    + destruct (handler x w). intros [= <-]. simpl. apply length_insert.
  - destruct (_ && _ && _)%bool; intros [= <-]. reflexivity.
Qed.

Lemma init_orderly items n a0 w0 : pool.orderly (pool.init items n a0 w0 : state).
Proof.
  assert (Hnone : existsb pool.isExited (replicate n (@pool.Waiting)) = false)
    by (induction n; simpl; auto).
  unfold pool.orderly, pool.init. simpl. rewrite Hnone.
  repeat split; discriminate.
Qed.

Lemma runningItems_exited (ws : list (@pool.worker)) :
  forallb pool.isExited ws = true -> pool.runningItems ws = [].
Proof.
  induction ws as [|k ws IH]; simpl; [reflexivity|].
  destruct k; simpl; try discriminate. exact IH.
Qed.

(** With at least one worker, nothing is pending once the main goroutine
    has returned. *)
Lemma final_pending (s : state) :
  pool.orderly s -> pool.final s -> (0 < length (pool.workers s))%nat ->
  pool.pending item s = [].
Proof.
  intros (Hcl & Hex & Hret) Hfin Hn. unfold pool.final in Hfin.
  destruct (Hret Hfin) as [Hrs Hc]. specialize (Hcl Hc).
  assert (Hsome : existsb pool.isExited (pool.workers s) = true).
  { destruct (pool.workers s) as [|k ws]; simpl in *; [lia|].
    apply andb_prop in Hcl as [-> _]. reflexivity. }
  destruct (Hex Hsome) as [Hjs Hts].
  unfold pool.pending. rewrite Hts, Hjs, Hrs, (runningItems_exited _ Hcl). reflexivity.
Qed.

Lemma rtc_invariants items (s s' : state) :
  rtc step s s' ->
  accounted items s -> pool.orderly s ->
  accounted items s' /\ pool.orderly s'
  /\ length (pool.workers s') = length (pool.workers s).
Proof.
  induction 1 as [s|s s1 s' [a Ha] _ IH]; [auto|].
  intros Hacc Hord.
  destruct IH as (? & ? & Hlen);
    [eapply step_accounted; eauto | eapply step_orderly; eauto |].
  rewrite (step_workers _ _ _ Ha) in Hlen. auto.
Qed.

(** Every item given to the pool is accounted for when the batch returns,
    whatever the interleaving. *)
Lemma returns_accounted items n a0 w0 (s : state) :
  (0 < n)%nat -> doneItems a0 = [] ->
  rtc step (pool.init items n a0 w0) s -> pool.final s ->
  doneItems (pool.acc s) ≡ₚ items.
Proof.
  intros Hn Ha0 Hrtc Hfin.
  destruct (rtc_invariants items _ _ Hrtc) as (Hacc & Hord & Hlen).
  - unfold pool.accounted, pool.pending, pool.init. simpl.
    rewrite Ha0, !app_nil_r.
    assert (pool.runningItems (replicate n (@pool.Waiting)) = []) as ->
      by (clear; induction n; simpl; auto).
    rewrite app_nil_r. reflexivity.
  - apply init_orderly.
  - unfold pool.accounted in Hacc. rewrite final_pending in Hacc; auto.
    + symmetry. exact Hacc.
    + rewrite Hlen. simpl. rewrite length_replicate. exact Hn.
Qed.

End PoolInvariant.

Section PoolCount.

Context {R Acc : Type}.
Variable handler : string -> World -> R * World.
Variable collect : R -> Acc -> World -> Acc * World.
Variable finish : Acc -> World -> World.
Variable count : Acc -> nat.

(** The collecting loop counts every result it receives. *)
Hypothesis collect_count : forall r a w, count (fst (collect r a w)) = S (count a).

Local Abbreviation state := (@pool.state R Acc).
Local Abbreviation step_fn := (pool.step_fn handler collect finish).
Local Abbreviation step := (pool.step handler collect finish).
Local Abbreviation tag := (fun _ : R => EmptyString).
Local Abbreviation counted := (pool.counted tag count).

Local Ltac lengths :=
  simpl in *;
  repeat match goal with
    | H : context [length (_ ++ _)] |- _ => rewrite length_app in H; simpl in H
    | H : context [length (map _ _)] |- _ => rewrite List.length_map in H; simpl in H
    | |- context [length (_ ++ _)] => rewrite length_app; simpl
    | |- context [length (map _ _)] => rewrite List.length_map; simpl
    end;
  lia.

Lemma step_counted total a (s s' : state) :
  counted total s -> step_fn a s = Some s' -> counted total s'.
Proof.
  destruct s as [m js ws rs cl ac w]. unfold pool.counted, pool.pending, pool.step_fn.
  simpl. intros Hinv.
  destruct a as [|i|].
  - destruct m as [[|x rest]| |]; simpl in *.
    + intros [= <-]. simpl. exact Hinv.
    + intros [= <-]. simpl. lengths.
    + destruct rs as [|r rs].
      * destruct cl; intros [= <-]. simpl. exact Hinv.
      * pose proof (collect_count r ac w) as Hc.
        destruct (collect r ac w) as [a' w']. intros [= <-]. simpl in *.
        lengths.
    + discriminate.
  - destruct (ws !! i) as [[|x|]|] eqn:Hi; try discriminate.
    + destruct js as [|x rest].
      * destruct (pool.jobsClosed _); intros [= <-]; simpl.
        rewrite (runningItems_exit ws i Hi). exact Hinv.
      * intros [= <-]. simpl.
        pose proof (Permutation_length (runningItems_take ws i x Hi)) as Hl.
        lengths.
    + destruct (handler x w) as [r w']. intros [= <-]. simpl in *.
      pose proof (Permutation_length (runningItems_done ws i x Hi)) as Hl.
      lengths.
  - destruct (_ && _ && _)%bool; intros [= <-]. simpl. exact Hinv.
Qed.

Lemma rtc_counted total (s s' : state) :
  rtc step s s' ->
  counted total s -> pool.orderly s ->
  counted total s' /\ pool.orderly s'
  /\ length (pool.workers s') = length (pool.workers s).
Proof.
  induction 1 as [s|s s1 s' [a Ha] _ IH]; [auto|].
  intros Hacc Hord.
  destruct IH as (? & ? & Hlen);
    [eapply step_counted; eauto | eapply step_orderly; eauto |].
  rewrite (step_workers handler collect finish _ _ _ Ha) in Hlen. auto.
Qed.

(** The number of results counted when the batch returns is the number of
    items it was given, whatever the interleaving. *)
Lemma returns_counted items n a0 w0 (s : state) :
  (0 < n)%nat -> count a0 = 0%nat ->
  rtc step (pool.init items n a0 w0) s -> pool.final s ->
  count (pool.acc s) = length items.
Proof.
  intros Hn Ha0 Hrtc Hfin.
  destruct (rtc_counted (length items) _ _ Hrtc) as (Hacc & Hord & Hlen).
  - unfold pool.counted, pool.pending, pool.init. simpl.
    rewrite Ha0, !length_app.
    assert (pool.runningItems (replicate n (@pool.Waiting)) = []) as ->
      by (clear; induction n; simpl; auto).
    simpl. lia.
  - apply init_orderly.
  - unfold pool.counted in Hacc.
    rewrite (final_pending tag) in Hacc; auto.
    rewrite Hlen. simpl. rewrite length_replicate. exact Hn.
Qed.

End PoolCount.

(** ** The batch operations *)

Lemma workerCount_pos_export c : (0 < exporter.workerCount c)%nat.
Proof. unfold exporter.workerCount. destruct (Z.leb_spec (exporter.ParallelWorkers c) 0); lia. Qed.

Lemma workerCount_pos_import c : (0 < importer.workerCount c)%nat.
Proof. unfold importer.workerCount. destruct (Z.leb_spec (importer.ParallelWorkers c) 0); lia. Qed.

Lemma export_collect_count r a w :
  exporter.handled (fst (exporter.collect r a w)) = S (exporter.handled a).
Proof.
  unfold exporter.collect, exporter.handled. destruct a as [res ps].
  destruct (exporter.RError r); simpl; lia.
Qed.

Lemma import_collect_count r a w :
  importer.handled (fst (importer.collect r a w)) = S (importer.handled a).
Proof.
  unfold importer.collect, importer.handled. destruct (importer.RError r); simpl; lia.
Qed.

(** exportEmails returns, under every configuration and in every world. *)
Lemma exportEmails_returns e ids w : exists r w', exporter.exportEmails e ids w r w'.
Proof.
  destruct (run_total (exporter.exportWorker e) exporter.collect (exporter.finish e)
              (pool.measure (exporter.start e ids w)) (exporter.start e ids w))
    as (s & _ & Hfin & Hrtc); [lia|].
  exists (fst (pool.acc s)), (pool.wld s), s. auto.
Qed.

Lemma importEmails_returns i files w : exists r w', importer.importEmails i files w r w'.
Proof.
  destruct (run_total (importer.importWorker i) importer.collect importer.finish
              (pool.measure (importer.start i files w)) (importer.start i files w))
    as (s & _ & Hfin & Hrtc); [lia|].
  exists (pool.acc s), (pool.wld s), s. auto.
Qed.

Lemma exportEmails_counts e ids w r w' :
  exporter.exportEmails e ids w r w' ->
  (exporter.TotalExported r + exporter.TotalFailed r)%nat = length ids.
Proof.
  intros (s & Hrtc & Hfin & <- & _).
  apply (returns_counted (exporter.exportWorker e) exporter.collect (exporter.finish e)
           exporter.handled export_collect_count ids _ exporter.emptyAccum _ s
           (workerCount_pos_export _) eq_refl Hrtc Hfin).
Qed.

Lemma importEmails_counts i files w r w' :
  importer.importEmails i files w r w' ->
  (importer.TotalImported r + importer.TotalFailed r)%nat = length files.
Proof.
  intros (s & Hrtc & Hfin & <- & _).
  apply (returns_counted (importer.importWorker i) importer.collect importer.finish
           importer.handled import_collect_count files _ importer.emptyResult _ s
           (workerCount_pos_import _) eq_refl Hrtc Hfin).
Qed.

(** What Export and Import make of the result of the batch. *)
Lemma exportFinish_fields e t0 t1 ids r w :
  exporter.TotalMatched (fst (exporter.exportFinish e t0 t1 ids r w)) = length ids
  /\ exporter.TotalExported (fst (exporter.exportFinish e t0 t1 ids r w))
     = exporter.TotalExported r
  /\ exporter.TotalFailed (fst (exporter.exportFinish e t0 t1 ids r w))
     = exporter.TotalFailed r
  /\ exporter.TotalSize (fst (exporter.exportFinish e t0 t1 ids r w))
     = exporter.TotalSize r
  /\ exporter.Failures (fst (exporter.exportFinish e t0 t1 ids r w))
     = exporter.Failures r.
Proof.
  unfold exporter.exportFinish, Now. cbn zeta.
  destruct (metrics.Save _ _ _ _) as [[?|] ?]; simpl; auto.
Qed.


Lemma exportEmailsRun_sound e ids w r w' :
  exporter.exportEmailsRun e ids w = Some (r, w') -> exporter.exportEmails e ids w r w'.
Proof.
  unfold exporter.exportEmailsRun.
  destruct (pool.run _ _ _ _ _) as [s|] eqn:Hrun; [|discriminate].
  intros [= <- <-]. apply run_sound in Hrun as [Hfin Hrtc].
  exists s. auto.
Qed.

Lemma importEmailsRun_sound i files w r w' :
  importer.importEmailsRun i files w = Some (r, w') -> importer.importEmails i files w r w'.
Proof.
  unfold importer.importEmailsRun.
  destruct (pool.run _ _ _ _ _) as [s|] eqn:Hrun; [|discriminate].
  intros [= <- <-]. apply run_sound in Hrun as [Hfin Hrtc].
  exists s. auto.
Qed.

(** The runs of Export and Import under the scheduler are runs of the model. *)
Lemma ExportRun_sound e f w out w' :
  exporter.ExportRun e f w = Some (out, w') -> exporter.Export e f w out w'.
Proof.
  unfold exporter.ExportRun, exporter.Export.
  destruct (exporter.exportPrepare e f w) as [[[[t0 t1] ids]|err] w1].
  - destruct (exporter.exportEmailsRun e ids w1) as [[r w2]|] eqn:Hrun; [|discriminate].
    destruct (exporter.exportFinish e t0 t1 ids r w2) as [r' w3] eqn:Hfin.
    intros [= <- <-]. exists r, w2. rewrite Hfin.
    split; [apply exportEmailsRun_sound; exact Hrun | auto].
  - intros [= <- <-]. auto.
Qed.


(** Export and Import return, whatever the filter and the world. *)
Lemma Export_returns e f w : exists out w', exporter.Export e f w out w'.
Proof.
  unfold exporter.Export.
  destruct (exporter.exportPrepare e f w) as [[[[t0 t1] ids]|err] w1]; [|eauto].
  destruct (exportEmails_returns e ids w1) as (r & w2 & Hr).
  do 2 eexists. exists r, w2. split; [exact Hr | split; reflexivity].
Qed.

Lemma Import_returns i w : exists out w', importer.Import i w out w'.
Proof.
  unfold importer.Import.
  destruct (importer.importPrepare i w) as [[[[t0 t1] files]|err] w1]; [|eauto].
  destruct (importEmails_returns i files w1) as (r & w2 & Hr).
  do 2 eexists. exists r, w2. split; [exact Hr | split; reflexivity].
Qed.

Lemma Export_counts e f w r w' :
  exporter.Export e f w (Ok r) w' ->
  (exporter.TotalExported r + exporter.TotalFailed r)%nat = exporter.TotalMatched r.
Proof.
  unfold exporter.Export.
  destruct (exporter.exportPrepare e f w) as [[[[t0 t1] ids]|err] w1].
  - intros (r0 & w2 & Hrun & [= ->] & _).
    simpl. eapply exportEmails_counts; eauto.
  - intros [[=] _].
Qed.

Lemma Import_counts i w r w' :
  importer.Import i w (Ok r) w' ->
  (importer.TotalImported r + importer.TotalFailed r)%nat = importer.TotalFound r.
Proof.
  unfold importer.Import.
  destruct (importer.importPrepare i w) as [[[[t0 t1] files]|err] w1].
  - intros (r0 & w2 & Hrun & [= ->] & _).
    simpl. eapply importEmails_counts; eauto.
  - intros [[=] _].
Qed.

(** C1.  The worker pool accounts for every item.  For every list of items,
    every configured concurrency and every world, exportEmails and
    importEmails return, and whatever the interleaving of the goroutines the
    result they return has succeeded + failed equal to the number of items
    they were given; in the results of Export and Import, succeeded + failed
    is at most the number of matches reported. *)
Theorem worker_pool_accounts_for_every_item :
  (forall e ids w,
      (exists r w', exporter.exportEmails e ids w r w')
      /\ (forall r w', exporter.exportEmails e ids w r w' ->
                       (exporter.TotalExported r + exporter.TotalFailed r)%nat = length ids))
  /\ (forall i files w,
         (exists r w', importer.importEmails i files w r w')
         /\ (forall r w', importer.importEmails i files w r w' ->
                          (importer.TotalImported r + importer.TotalFailed r)%nat
                          = length files))
  /\ (forall e f w r w',
         exporter.Export e f w (Ok r) w' ->
         (exporter.TotalExported r + exporter.TotalFailed r <= exporter.TotalMatched r)%nat)
  /\ (forall i w r w',
         importer.Import i w (Ok r) w' ->
         (importer.TotalImported r + importer.TotalFailed r <= importer.TotalFound r)%nat).
Proof.
  repeat split.
  - apply exportEmails_returns.
  - intros r w'. apply exportEmails_counts.
  - apply importEmails_returns.
  - intros r w'. apply importEmails_counts.
  - intros e f w r w' H. rewrite (Export_counts _ _ _ _ _ H). lia.
  - intros i w r w' H. rewrite (Import_counts _ _ _ _ H). lia.
Qed.

Lemma applyLimit_length {A} limit (xs : list A) :
  length (applyLimit limit xs)
  = if ((0 <? limit) && (limit <? len xs))%bool then Z.to_nat limit else length xs.
Proof.
  unfold applyLimit, len.
  destruct (Z.ltb_spec 0 limit); simpl; [|reflexivity].
  destruct (Z.ltb_spec limit (Z.of_nat (length xs))); [|reflexivity].
  rewrite length_take. lia.
Qed.

(** ** The query builder *)

Lemma nonEmpty_true s : nonEmpty s = true <-> s <> EmptyString.
Proof.
  unfold nonEmpty. destruct (String.eqb_spec s EmptyString); simpl.
  - split; [discriminate | contradiction].
  - split; auto.
Qed.

Lemma existsb_eqb_In (x : string) (l : list string) :
  existsb (String.eqb x) l = true <-> In x l.
Proof.
  rewrite existsb_exists. split.
  - intros (y & Hy & Heq). apply String.eqb_eq in Heq. subst. exact Hy.
  - intros H. exists x. split; [exact H | apply String.eqb_refl].
Qed.

(** C3 (as the code has it).  Validate returns an error exactly when both
    size bounds are set (positive) and the minimum is at least the maximum,
    or both date bounds are set and the after-date is later than the
    before-date, or a search scope is set that is not one of all_mail, inbox,
    sent, drafts, spam, trash. *)
Theorem Validate_error_cases (c : filters.Config) :
  filters.Validate c <> None <->
    (0 < filters.SizeGreaterThan c /\ 0 < filters.SizeLessThan c
     /\ filters.SizeLessThan c <= filters.SizeGreaterThan c)
    \/ (exists a b, filters.DateAfter c = Some a /\ filters.DateBefore c = Some b
                    /\ After a b = true)
    \/ (filters.SearchScope c <> EmptyString
        /\ ~ In (filters.SearchScope c)
               ["all_mail"; "inbox"; "sent"; "drafts"; "spam"; "trash"]).
Proof.
  unfold filters.Validate.
  set (sz := ((0 <? filters.SizeGreaterThan c) && (0 <? filters.SizeLessThan c)
              && (filters.SizeLessThan c <=? filters.SizeGreaterThan c))%bool).
  set (dt := match filters.DateAfter c, filters.DateBefore c with
             | Some a, Some b => After a b
             | _, _ => false
             end).
  set (known := existsb (String.eqb (filters.SearchScope c)) filters.validScopes).
  assert (Hsz : sz = true <->
                0 < filters.SizeGreaterThan c /\ 0 < filters.SizeLessThan c
                /\ filters.SizeLessThan c <= filters.SizeGreaterThan c).
  { unfold sz. rewrite !andb_true_iff, !Z.ltb_lt, Z.leb_le. tauto. }
  assert (Hdt : dt = true <->
                exists a b, filters.DateAfter c = Some a /\ filters.DateBefore c = Some b
                            /\ After a b = true).
  { unfold dt. destruct (filters.DateAfter c) as [a|], (filters.DateBefore c) as [b|].
    - split; [eauto | intros (a' & b' & [= <-] & [= <-] & H); exact H].
    - split; [discriminate | intros (a' & b' & _ & [=] & _)].
    - split; [discriminate | intros (a' & b' & [=] & _)].
    - split; [discriminate | intros (a' & b' & [=] & _)]. }
  assert (Hkn : known = true <->
                In (filters.SearchScope c)
                   ["all_mail"; "inbox"; "sent"; "drafts"; "spam"; "trash"])
    by apply existsb_eqb_In.
  pose proof (nonEmpty_true (filters.SearchScope c)) as Hne.
  destruct sz.
  { split; [intros _; left; apply Hsz; reflexivity | discriminate]. }
  destruct dt.
  { split; [intros _; right; left; apply Hdt; reflexivity | discriminate]. }
  split.
  - intros H. right. right.
    destruct (nonEmpty (filters.SearchScope c)); [|congruence].
    destruct known; simpl in H; [congruence|].
    split; [apply Hne; reflexivity|].
    intros Hin. apply Hkn in Hin. discriminate.
  - intros [H | [H | [H1 H2]]];
      [apply Hsz in H; discriminate | apply Hdt in H; discriminate |].
    apply Hne in H1. rewrite H1.
    destruct known; simpl; [|discriminate].
    exfalso. apply H2, Hkn. reflexivity.
Qed.

(** The example of the specification: a minimum of 10 MB with a maximum of
    5 MB is rejected, the other way round it is accepted. *)
Example Validate_size_bounds :
  filters.Validate (scenario.sizeFilter 10485760 5242880)
  = Some "size-greater-than must be less than size-less-than"
  /\ filters.Validate (scenario.sizeFilter 5242880 10485760) = None.
Proof. split; reflexivity. Qed.

(** C3 (as stated) fails on the scope named all: the code names that scope
    all_mail.  A filter that sets nothing but the scope all (no size bound, no
    date bound) is rejected, and one with the scope all_mail is accepted. *)
Lemma Validate_scope_all_is_rejected :
  filters.Validate (scenario.scopeFilter "all")
  = Some "invalid search scope: all (valid: all_mail, inbox, sent, drafts, spam, trash)"
  /\ filters.SizeGreaterThan (scenario.scopeFilter "all") = 0
  /\ filters.SizeLessThan (scenario.scopeFilter "all") = 0
  /\ filters.DateAfter (scenario.scopeFilter "all") = None
  /\ filters.DateBefore (scenario.scopeFilter "all") = None
  /\ In "all" ["all"; "inbox"; "sent"; "drafts"; "spam"; "trash"]
  /\ filters.Validate (scenario.scopeFilter "all_mail") = None
  /\ ~ In "all_mail" ["all"; "inbox"; "sent"; "drafts"; "spam"; "trash"].
Proof.
  do 5 (split; [reflexivity|]). split; [simpl; auto|]. split; [reflexivity|].
  simpl. intuition discriminate.
Qed.

Lemma fold_append_extends {A B} (f : B -> list A) (l : list B) (init : list A) :
  fold_left (fun parts x => parts ++ f x) l init = init ++ concat (map f l).
Proof.
  revert init. induction l as [|x l IH]; intros init; simpl.
  - rewrite app_nil_r. reflexivity.
  - rewrite IH, <- app_assoc. reflexivity.
Qed.

Lemma fold_guarded_append_extends {A B} (b : B -> bool) (f : B -> list A)
      (l : list B) (init : list A) :
  fold_left (fun parts x => if b x then parts ++ f x else parts) l init
  = init ++ concat (map (fun x => if b x then f x else []) l).
Proof.
  revert init. induction l as [|x l IH]; intros init; simpl.
  - rewrite app_nil_r. reflexivity.
  - rewrite IH. destruct (b x); simpl; [rewrite <- app_assoc|]; reflexivity.
Qed.

(** A block only appends to the slice it is given. *)
Lemma block_appends block c parts :
  In block filters.blocks -> exists more, block c parts = parts ++ more.
Proof.
  assert (Hif : forall (b : bool) (x : list string),
             exists more, (if b then parts ++ x else parts) = parts ++ more).
  { intros [] x; [exists x | exists []]; [reflexivity | rewrite app_nil_r; reflexivity]. }
  unfold filters.blocks. simpl.
  intros [<- | [<- | [<- | [<- | [<- | [<- | [<- | [<- | [<- | [<- | [<- | [<- | [<- | [<- | []]]]]]]]]]]]]]].
  - apply Hif.
  - apply Hif.
  - apply Hif.
  - apply Hif.
  - unfold filters.addExcludesWords. cbn zeta.
    rewrite (fold_append_extends (fun word => ["-" +:+ word])). apply Hif.
  - apply Hif.
  - apply Hif.
  - apply Hif.
  - unfold filters.addDateAfter. destruct (filters.DateAfter c); [eexists; reflexivity|].
    exists []. rewrite app_nil_r. reflexivity.
  - unfold filters.addDateBefore. destruct (filters.DateBefore c); [eexists; reflexivity|].
    exists []. rewrite app_nil_r. reflexivity.
  - unfold filters.addHasAttachment.
    destruct (filters.HasAttachment c) as [[]|]; try (eexists; reflexivity).
    exists []. rewrite app_nil_r. reflexivity.
  - apply Hif.
  - unfold filters.addLabels. cbn zeta.
    rewrite (fold_guarded_append_extends
               (fun label => nonEmpty (TrimSpace label))
               (fun label => ["label:" +:+ TrimSpace label])).
    apply Hif.
  - apply Hif.
Qed.

Lemma blocks_append bs c parts :
  (forall b, In b bs -> In b filters.blocks) ->
  exists more, fold_left (fun parts block => block c parts) bs parts = parts ++ more.
Proof.
  revert parts. induction bs as [|b bs IH]; intros parts Hbs; simpl.
  - exists []. rewrite app_nil_r. reflexivity.
  - destruct (block_appends b c parts) as [m1 ->]; [apply Hbs; left; reflexivity|].
    destruct (IH (parts ++ m1)) as [m2 ->]; [intros b' Hb'; apply Hbs; right; exact Hb'|].
    exists (m1 ++ m2). rewrite app_assoc. reflexivity.
Qed.

(** C5 (as the code has it).  For every filter with a non-empty subject the
    query has, right after the to: and from: clauses, the clause
    subject:(...) with the subject in parentheses, whether or not the subject
    has white space. *)
Theorem subject_clause_is_parenthesized (c : filters.Config) :
  filters.Subject c <> EmptyString ->
  exists more,
    filters.queryParts c
    = filters.addFrom c (filters.addTo c [])
      ++ ["subject:(" +:+ filters.Subject c +:+ ")"] ++ more.
Proof.
  intros Hs. apply nonEmpty_true in Hs.
  change (filters.queryParts c)
    with (fold_left (fun parts block => block c parts) (drop 3 filters.blocks)
            (filters.addSubject c (filters.addFrom c (filters.addTo c [])))).
  unfold filters.addSubject. rewrite Hs.
  destruct (blocks_append (drop 3 filters.blocks) c
              (filters.addFrom c (filters.addTo c [])
               ++ ["subject:(" +:+ filters.Subject c +:+ ")"])) as [more ->].
  - intros b Hb. unfold filters.blocks in *. simpl in *. tauto.
  - exists more. rewrite <- app_assoc. reflexivity.
Qed.

Lemma subject_clause_is_parenthesized_witness :
  exists more,
    filters.queryParts scenario.invoiceFilter
    = filters.addFrom scenario.invoiceFilter (filters.addTo scenario.invoiceFilter [])
      ++ ["subject:(Invoice)"] ++ more.
Proof.
  apply (subject_clause_is_parenthesized scenario.invoiceFilter). discriminate.
Defined.

(** C5 (as stated) fails: a subject without white space is emitted in
    parentheses too. *)
Lemma subject_without_space_is_parenthesized :
  hasSpace (filters.Subject scenario.invoiceFilter) = false
  /\ filters.queryParts scenario.invoiceFilter = ["subject:(Invoice)"]
  /\ filters.BuildGmailQuery scenario.invoiceFilter = "subject:(Invoice)"
  /\ filters.BuildGmailQuery scenario.invoiceFilter <> "subject:Invoice".
Proof. repeat split; try reflexivity. discriminate. Qed.

(** ** Size strings *)





Lemma mapBytes_mapBytes f g s : mapBytes f (mapBytes g s) = mapBytes (fun c => f (g c)) s.
Proof. induction s as [|c s IH]; simpl; [reflexivity | rewrite IH; reflexivity]. Qed.


Section TrimMap.

Variable f : ascii -> ascii.
Hypothesis f_space : forall c, isSpace (f c) = isSpace c.




End TrimMap.






(** More of the table of the tests: the units and a fractional number. *)
Example ParseSize_examples :
  filters.ParseSize "2GB" = Ok 2147483648
  /\ filters.ParseSize "500KB" = Ok 512000
  /\ filters.ParseSize "1024B" = Ok 1024
  /\ filters.ParseSize "5mb" = Ok 5242880
  /\ filters.ParseSize "1TB" = Ok 1099511627776
  /\ filters.ParseSize " 1.5kb " = Ok 1536
  /\ filters.ParseSize "5XB" = Err "invalid size unit: XB (valid: B, KB, MB, GB, TB)"
  /\ filters.ParseSize "1.2.3MB" = Err "invalid number in size: 1.2.3".
Proof. repeat split; vm_compute; reflexivity. Qed.

(** ** Base64 *)

Import base64.

Lemma lor_add_low a lo k :
  0 <= k -> a mod 2 ^ k = 0 -> 0 <= lo < 2 ^ k -> Z.lor a lo = a + lo.
Proof.
  intros Hk Ha Hlo.
  rewrite <- Z.lxor_lor, <- Z.add_nocarry_lxor; try reflexivity.
  all: apply Z.bits_inj'; intros n Hn; rewrite Z.land_spec, Z.bits_0.
  all: destruct (Z.lt_ge_cases n k) as [Hlt|Hge].
  all: try (rewrite (Z.div_mod a (2 ^ k)), Ha, Z.add_0_r, Z.mul_comm by lia;
            rewrite Z.mul_pow2_bits_low by lia; reflexivity).
  all: assert (Z.testbit lo n = false) as ->
      by (destruct (Z.eq_dec lo 0) as [->|]; [apply Z.bits_0|];
          apply Z.bits_above_log2; [lia|];
          apply Z.log2_lt_pow2; [lia|];
          assert (2 ^ k <= 2 ^ n) by (apply Z.pow_le_mono_r; lia); lia).
  all: apply andb_false_r.
Qed.

(** Shifts and masks as multiplications, divisions and remainders. *)
Ltac bits_to_arith :=
  rewrite ?Z.shiftr_div_pow2, ?Z.shiftl_mul_pow2 by lia;
  change 63 with (Z.ones 6); change 255 with (Z.ones 8);
  rewrite ?Z.land_ones by lia;
  change (2 ^ 18) with 262144 in *; change (2 ^ 16) with 65536 in *;
  change (2 ^ 12) with 4096 in *; change (2 ^ 8) with 256 in *;
  change (2 ^ 6) with 64 in *.

Ltac div_mod_lia := Z.div_mod_to_equations; lia.

Lemma byteVal_range b : 0 <= byteVal b < 256.
Proof. unfold byteVal. pose proof (Byte.to_N_bounded b). lia. Qed.

Lemma byteOf_spec v b : Z.land v 255 = byteVal b -> byteOf v = b.
Proof.
  intros H. unfold byteOf. rewrite H. unfold byteVal.
  rewrite N2Z.id, Byte.of_to_N. reflexivity.
Qed.

Lemma sextet_range v : 0 <= Z.land v 63 < 64.
Proof. change 63 with (Z.ones 6). rewrite Z.land_ones by lia. apply Z.mod_pos_bound. lia. Qed.

(** The 24 bits made of three bytes, or of fewer with zeros for the rest. *)
Lemma val3 x y z :
  0 <= x < 256 -> 0 <= y < 256 -> 0 <= z < 256 ->
  Z.lor (Z.lor (Z.shiftl x 16) (Z.shiftl y 8)) z = x * 65536 + y * 256 + z.
Proof.
  intros. bits_to_arith.
  rewrite (lor_add_low (x * 65536) (y * 256) 16)
    by (try change (2 ^ 16) with 65536; div_mod_lia).
  rewrite (lor_add_low _ z 8) by (try change (2 ^ 8) with 256; div_mod_lia).
  reflexivity.
Qed.

(** Four 6-bit values put the 24 bits they were cut from together again. *)
Lemma quantum4 v :
  0 <= v < 2 ^ 24 ->
  Z.lor (Z.lor (Z.lor (Z.shiftl (Z.land (Z.shiftr v 18) 63) 18)
                      (Z.shiftl (Z.land (Z.shiftr v 12) 63) 12))
               (Z.shiftl (Z.land (Z.shiftr v 6) 63) 6))
        (Z.land v 63) = v.
Proof.
  intros Hv. change (2 ^ 24) with 16777216 in Hv. bits_to_arith.
  rewrite (lor_add_low (_ * 262144) (_ * 4096) 18)
    by (try change (2 ^ 18) with 262144; div_mod_lia).
  rewrite (lor_add_low (_ + _ * 4096) (_ * 64) 12)
    by (try change (2 ^ 12) with 4096; div_mod_lia).
  rewrite (lor_add_low (_ + _ * 64) _ 6) by (try change (2 ^ 6) with 64; div_mod_lia).
  div_mod_lia.
Qed.

(** Facts about the 64 characters of an alphabet, one character at a time. *)
Ltac each_of_64 i :=
  let n := fresh "n" in
  let Hn := fresh "Hn" in
  assert (Hn : exists n, (n < 64)%nat /\ i = Z.of_nat n)
    by (exists (Z.to_nat i); lia);
  destruct Hn as (n & Hn & ->);
  do 64 (destruct n as [|n]; [vm_compute; reflexivity|]);
  lia.

Lemma decodeMap_encodeChar i :
  0 <= i < 64 -> decodeMap encodeStd (encodeChar encodeStd i) = Some i.
Proof. intros Hi. each_of_64 i. Qed.

Lemma encodeChar_url_to_std i :
  0 <= i < 64 ->
  (let c := encodeChar encodeURL i in
   let c := if Ascii.eqb c "-" then "+"%char else c in
   if Ascii.eqb c "_" then "/"%char else c) = encodeChar encodeStd i.
Proof. intros Hi. each_of_64 i. Qed.

Lemma encodeChar_url_not_pad i :
  0 <= i < 64 -> Ascii.eqb (encodeChar encodeURL i) padChar = false.
Proof. intros Hi. each_of_64 i. Qed.

(** Induction on a list of bytes three at a time, as the encoder reads it. *)
Lemma list_ind3 {A} (P : list A -> Prop) :
  P [] -> (forall a, P [a]) -> (forall a b, P [a; b]) ->
  (forall a b c rest, P rest -> P (a :: b :: c :: rest)) ->
  forall l, P l.
Proof.
  intros H0 H1 H2 H3.
  assert (H : forall l, P l /\ (forall a, P (a :: l)) /\ (forall a b, P (a :: b :: l))).
  { induction l as [|x l (IH0 & IH1 & IH2)]; [auto|].
    split; [apply IH1|]. split; [intros a; apply IH2|]. intros a b. apply H3, IH0. }
  intros l. apply H.
Qed.

Lemma TrimRight_keep c t cut :
  Ascii.eqb c cut = false -> TrimRight (String c t) cut = String c (TrimRight t cut).
Proof. intros H. simpl. rewrite H. destruct (TrimRight t cut); reflexivity. Qed.

Lemma addPadding_quantum c1 c2 c3 c4 u :
  exporter.addPadding (String c1 (String c2 (String c3 (String c4 u))))
  = String c1 (String c2 (String c3 (String c4 (exporter.addPadding u)))).
Proof.
  unfold exporter.addPadding.
  replace (String.length (String c1 (String c2 (String c3 (String c4 u)))))
    with (String.length u + 1 * 4)%nat by (simpl; lia).
  rewrite Nat.Div0.mod_add.
  destruct (String.length u mod 4)%nat as [|[|[|[|]]]]; reflexivity.
Qed.

(** Stripping the padding and adding it again is the identity on what the
    encoder writes. *)
Lemma addPadding_TrimRight d :
  exporter.addPadding (TrimRight (EncodeToString encodeURL d) padChar)
  = EncodeToString encodeURL d.
Proof.
  induction d as [|a|a b|a b c rest IH] using list_ind3.
  - reflexivity.
  - cbn [EncodeToString].
    rewrite !TrimRight_keep by (apply encodeChar_url_not_pad, sextet_range).
    reflexivity.
  - cbn [EncodeToString].
    rewrite !TrimRight_keep by (apply encodeChar_url_not_pad, sextet_range).
    reflexivity.
  - cbn [EncodeToString].
    rewrite !TrimRight_keep by (apply encodeChar_url_not_pad, sextet_range).
    rewrite addPadding_quantum, IH. reflexivity.
Qed.

(** The two replacements turn the URL-safe encoding into the standard one. *)
Lemma ReplaceAll_url_to_std d :
  ReplaceAll (ReplaceAll (EncodeToString encodeURL d) "-" "+") "_" "/"
  = EncodeToString encodeStd d.
Proof.
  unfold ReplaceAll. rewrite mapBytes_mapBytes.
  induction d as [|a|a b|a b c rest IH] using list_ind3.
  - reflexivity.
  - cbn [EncodeToString mapBytes].
    rewrite !encodeChar_url_to_std by apply sextet_range. reflexivity.
  - cbn [EncodeToString mapBytes].
    rewrite !encodeChar_url_to_std by apply sextet_range. reflexivity.
  - cbn [EncodeToString mapBytes].
    rewrite !encodeChar_url_to_std by apply sextet_range. rewrite IH. reflexivity.
Qed.

(** The decoder on one full quantum, and on the two padded ends. *)
Lemma decodeFrom_quantum v1 v2 v3 v4 rest si :
  0 <= v1 < 64 -> 0 <= v2 < 64 -> 0 <= v3 < 64 -> 0 <= v4 < 64 ->
  decodeFrom encodeStd
    (String (encodeChar encodeStd v1) (String (encodeChar encodeStd v2)
       (String (encodeChar encodeStd v3) (String (encodeChar encodeStd v4) rest)))) si []
  = match decodeFrom encodeStd rest (S (S (S (S si)))) [] with
    | Ok out =>
        Ok (byteOf (Z.shiftr (quantumVal [v1; v2; v3; v4]) 16)
            :: byteOf (Z.shiftr (quantumVal [v1; v2; v3; v4]) 8)
            :: byteOf (quantumVal [v1; v2; v3; v4]) :: out)
    | Err e => Err e
    end.
Proof.
  intros H1 H2 H3 H4. cbn [decodeFrom].
  rewrite !decodeMap_encodeChar by assumption. reflexivity.
Qed.

Lemma decodeFrom_end2 v1 v2 si :
  0 <= v1 < 64 -> 0 <= v2 < 64 ->
  decodeFrom encodeStd
    (String (encodeChar encodeStd v1) (String (encodeChar encodeStd v2)
       (String padChar (String padChar EmptyString)))) si []
  = Ok [byteOf (Z.shiftr (quantumVal [v1; v2]) 16)].
Proof.
  intros H1 H2. cbn [decodeFrom].
  rewrite !decodeMap_encodeChar by assumption. reflexivity.
Qed.

Lemma decodeFrom_end3 v1 v2 v3 si :
  0 <= v1 < 64 -> 0 <= v2 < 64 -> 0 <= v3 < 64 ->
  decodeFrom encodeStd
    (String (encodeChar encodeStd v1) (String (encodeChar encodeStd v2)
       (String (encodeChar encodeStd v3) (String padChar EmptyString)))) si []
  = Ok [byteOf (Z.shiftr (quantumVal [v1; v2; v3]) 16);
        byteOf (Z.shiftr (quantumVal [v1; v2; v3]) 8)].
Proof.
  intros H1 H2 H3. cbn [decodeFrom].
  rewrite !decodeMap_encodeChar by assumption. reflexivity.
Qed.

(** The quantum read back is the 24 bits that were written. *)
Lemma quantumVal_sextets v :
  0 <= v < 2 ^ 24 ->
  quantumVal [Z.land (Z.shiftr v 18) 63; Z.land (Z.shiftr v 12) 63;
              Z.land (Z.shiftr v 6) 63; Z.land v 63] = v.
Proof. intros Hv. unfold quantumVal. cbn [nth]. apply quantum4. exact Hv. Qed.

Lemma quantumVal_sextets3 v :
  0 <= v < 2 ^ 24 -> Z.land v 63 = 0 ->
  quantumVal [Z.land (Z.shiftr v 18) 63; Z.land (Z.shiftr v 12) 63;
              Z.land (Z.shiftr v 6) 63] = v.
Proof.
  intros Hv H0. rewrite <- (quantum4 v Hv) at 4. unfold quantumVal. cbn [nth].
  rewrite H0. reflexivity.
Qed.

Lemma quantumVal_sextets2 v :
  0 <= v < 2 ^ 24 -> Z.land v 63 = 0 -> Z.land (Z.shiftr v 6) 63 = 0 ->
  quantumVal [Z.land (Z.shiftr v 18) 63; Z.land (Z.shiftr v 12) 63] = v.
Proof.
  intros Hv H0 H6. rewrite <- (quantum4 v Hv) at 3. unfold quantumVal. cbn [nth].
  rewrite H0, H6. reflexivity.
Qed.

(** The standard decoder reads back what the standard encoder wrote. *)
Lemma DecodeString_EncodeToString d si :
  decodeFrom encodeStd (EncodeToString encodeStd d) si [] = Ok d.
Proof.
  revert si. induction d as [|a|a b|a b c rest IH] using list_ind3; intros si.
  - reflexivity.
  - pose proof (byteVal_range a) as Ha.
    cbn [EncodeToString]. rewrite decodeFrom_end2 by apply sextet_range.
    assert (Hv : Z.shiftl (byteVal a) 16 = byteVal a * 65536)
      by (rewrite Z.shiftl_mul_pow2 by lia; reflexivity).
    rewrite quantumVal_sextets2.
    + f_equal. f_equal. apply byteOf_spec. rewrite Hv. bits_to_arith. div_mod_lia.
    + rewrite Hv. change (2 ^ 24) with 16777216. lia.
    + rewrite Hv. bits_to_arith. div_mod_lia.
    + rewrite Hv. bits_to_arith. div_mod_lia.
  - pose proof (byteVal_range a) as Ha. pose proof (byteVal_range b) as Hb.
    cbn [EncodeToString]. rewrite decodeFrom_end3 by apply sextet_range.
    assert (Hv : Z.lor (Z.shiftl (byteVal a) 16) (Z.shiftl (byteVal b) 8)
                 = byteVal a * 65536 + byteVal b * 256).
    { rewrite <- (Z.lor_0_r (Z.lor _ _)). rewrite val3 by lia. lia. }
    rewrite quantumVal_sextets3.
    + f_equal. f_equal; [|f_equal]; apply byteOf_spec; rewrite Hv; bits_to_arith;
        div_mod_lia.
    + rewrite Hv. change (2 ^ 24) with 16777216. lia.
    + rewrite Hv. bits_to_arith. div_mod_lia.
  - pose proof (byteVal_range a) as Ha. pose proof (byteVal_range b) as Hb.
    pose proof (byteVal_range c) as Hc.
    cbn [EncodeToString]. rewrite decodeFrom_quantum by apply sextet_range.
    rewrite IH. rewrite val3 by lia.
    rewrite quantumVal_sextets by (change (2 ^ 24) with 16777216; lia).
    f_equal. f_equal; [|f_equal; [|f_equal]]; apply byteOf_spec; bits_to_arith;
      div_mod_lia.
Qed.

(** C8.  Decoding, with the exporter's decoder, what the importer's encoder
    produced gives the bytes back, whatever they are. *)
Theorem decodeBase64URL_encodeBase64URL (d : list byte) :
  exporter.decodeBase64URL (importer.encodeBase64URL d) = Ok d.
Proof.
  unfold exporter.decodeBase64URL, importer.encodeBase64URL.
  change "="%char with padChar.
  rewrite addPadding_TrimRight, ReplaceAll_url_to_std.
  apply DecodeString_EncodeToString.
Qed.

(** The strings of the importer's tests, and back. *)
Example encodeBase64URL_examples :
  importer.encodeBase64URL (scenario.bytesOf "hello world") = "aGVsbG8gd29ybGQ"
  /\ importer.encodeBase64URL [] = EmptyString
  /\ importer.encodeBase64URL [x00; x01; x02; x03] = "AAECAw"
  /\ exporter.decodeBase64URL "aGVsbG8gd29ybGQ" = Ok (scenario.bytesOf "hello world")
  /\ exporter.decodeBase64URL "AAECAw" = Ok [x00; x01; x02; x03]
  /\ exporter.decodeBase64URL "A" = Err "illegal base64 data at input byte 0".
Proof. repeat split; vm_compute; reflexivity. Qed.

(** ** Cleanup under dry-run *)



Lemma metrics_Save_calls env path d w : calls (snd (metrics.Save env path d w)) = calls w.
Proof.
  unfold metrics.Save, WriteFile.
  destruct (marshalMetrics env d); [|reflexivity].
  destruct (writeError env path); reflexivity.
Qed.




(** ** The mbox format *)

Lemma append_assoc (a b c : string) : (a +:+ b) +:+ c = a +:+ (b +:+ c).
Proof.
  induction a as [|x a IH]; [reflexivity|].
  change (String x ((a +:+ b) +:+ c) = String x (a +:+ (b +:+ c))).
  rewrite IH. reflexivity.
Qed.

(** The output path has the format as its extension and depends on the
    format in nothing else. *)
Lemma getOutputPath_format e f message w :
  exists base w',
    (exporter.getOutputPath (exporter.withFormat e f) message w
     = (Ok (base +:+ "." +:+ f), w')
     \/ exists err,
         exporter.getOutputPath (exporter.withFormat e f) message w = (Err err, w'))
    /\ forall g,
        exporter.getOutputPath (exporter.withFormat e g) message w
        = match exporter.getOutputPath (exporter.withFormat e f) message w with
          | (Ok _, _) => (Ok (base +:+ "." +:+ g), w')
          | (Err err, _) => (Err err, w')
          end.
Proof.
  unfold exporter.getOutputPath, exporter.withFormat, PathJoin. simpl.
  destruct (exporter.OrganizeByLabels (exporter.config e)); simpl.
  - match goal with
    | |- context [MkdirAll ?v ?dir w] =>
        destruct (MkdirAll v dir w) as [[err|] w'];
        [exists EmptyString, w' | exists (dir +:+ "/" +:+ Id message), w']
    end.
    + split; [right; eauto | reflexivity].
    + split.
      * left. rewrite !append_assoc. reflexivity.
      * intros g. rewrite !append_assoc. reflexivity.
  - exists (exporter.OutputDir (exporter.config e) +:+ "/" +:+ Id message), w. split.
    + left. rewrite !append_assoc. reflexivity.
    + intros g. rewrite !append_assoc. reflexivity.
Qed.

(** The EML writer, seen from its output path: the path only decides where
    the decoded message is written, and whether the write is refused. *)
Lemma exportAsEML_path e message w :
  exists w1 (r : result (list byte)),
    (forall q,
        exporter.exportAsEML e message q w
        = match r with
          | Err err => (Err err, w1)
          | Ok rawData =>
              match WriteFile (exporter.env e) q rawData 384 w1 with
              | (Some err, w2) => (Err (wrap "failed to write EML file" err), w2)
              | (None, w2) => (Ok (len rawData), w2)
              end
          end).
Proof.
  unfold exporter.exportAsEML.
  destruct (getMessage _ _ _ _) as [raw|err].
  - destruct (exporter.decodeBase64URL (Raw raw)) as [rawData|err].
    + eexists _, (Ok rawData). intros q. reflexivity.
    + eexists _, (Err _). intros q. reflexivity.
  - eexists _, (Err _). intros q. reflexivity.
Qed.

(** C9.  The mbox writer is the EML writer: on the same path it writes the
    same bytes, returns the same size and leaves the same world.  The output
    paths of the two formats differ in the extension only.  When neither
    write is refused, the two formats return the same size or the same
    error, and the files they write have the same content. *)
Theorem mbox_export_is_eml_export :
  (forall e message outputPath w,
      exporter.exportAsMbox e message outputPath w
      = exporter.exportAsEML e message outputPath w)
  /\ (forall e message w,
         exists base w',
           (exporter.getOutputPath (exporter.withFormat e "eml") message w
            = (Ok (base +:+ ".eml"), w')
            /\ exporter.getOutputPath (exporter.withFormat e "mbox") message w
               = (Ok (base +:+ ".mbox"), w'))
           \/ (exists err,
                  exporter.getOutputPath (exporter.withFormat e "eml") message w
                  = (Err err, w')
                  /\ exporter.getOutputPath (exporter.withFormat e "mbox") message w
                     = (Err err, w')))
  /\ (forall e message p q w,
         writeError (exporter.env e) p = None ->
         writeError (exporter.env e) q = None ->
         fst (exporter.exportAsMbox e message q w) = fst (exporter.exportAsEML e message p w)
         /\ forall size,
             fst (exporter.exportAsEML e message p w) = Ok size ->
             exists data,
               size = len data
               /\ content <$> (files (snd (exporter.exportAsEML e message p w)) !! p)
                  = Some data
               /\ content <$> (files (snd (exporter.exportAsMbox e message q w)) !! q)
                  = Some data)
  /\ (forall e messageID w,
         (forall p, writeError (exporter.env e) p = None) ->
         fst (exporter.exportSingleEmail (exporter.withFormat e "mbox") messageID w)
         = fst (exporter.exportSingleEmail (exporter.withFormat e "eml") messageID w)).
Proof.
  split; [reflexivity|]. split; [|split].
  - intros e message w.
    destruct (getOutputPath_format e "eml" message w) as (base & w' & [H|[err H]] & Hg).
    + exists base, w'. left. split; [exact H|]. rewrite (Hg "mbox"), H. reflexivity.
    + exists base, w'. right. exists err. split; [exact H|].
      rewrite (Hg "mbox"), H. reflexivity.
  - intros e message p q w Hp Hq. unfold exporter.exportAsMbox.
    destruct (exportAsEML_path e message w) as (w1 & r & Hr).
    rewrite (Hr p), (Hr q). destruct r as [rawData|err]; [|split; [reflexivity|discriminate]].
    unfold WriteFile. rewrite Hp, Hq. simpl. split; [reflexivity|].
    intros size [= <-]. exists rawData. split; [reflexivity|].
    rewrite !lookup_insert_eq. simpl.
    split; destruct (files w1 !! _); reflexivity.
  - intros e messageID w Hw. unfold exporter.exportSingleEmail.
    change (exporter.env (exporter.withFormat e "mbox")) with (exporter.env e).
    change (exporter.env (exporter.withFormat e "eml")) with (exporter.env e).
    destruct (getMessage _ _ _ _) as [message|err]; [|reflexivity].
    destruct (getOutputPath_format e "eml" message (called (MessagesGet messageID "full") w))
      as (base & w' & [H|[err H]] & Hg).
    + rewrite (Hg "mbox"), H. cbn [exporter.config exporter.withFormat exporter.Format
                                   exporter.setFormat String.eqb Ascii.eqb Bool.eqb].
      unfold exporter.exportAsMbox.
      change (exporter.exportAsEML (exporter.withFormat e "mbox"))
        with (exporter.exportAsEML e).
      change (exporter.exportAsEML (exporter.withFormat e "eml"))
        with (exporter.exportAsEML e).
      destruct (exportAsEML_path e message w') as (w1 & r & Hr).
      rewrite !Hr. destruct r as [rawData|err]; [|reflexivity].
      unfold WriteFile. rewrite !Hw. reflexivity.
    + rewrite (Hg "mbox"), H. reflexivity.
Qed.

(** ** Finding the files to import *)

(** Induction on a directory tree. *)
Lemma node_tree_ind (P : node -> Prop) :
  (forall name, P (FileNode name)) ->
  (forall name err entries, Forall P entries -> P (DirNode name err entries)) ->
  forall d, P d.
Proof.
  intros Hfile Hdir. fix IH 1. intros [name|name err entries].
  - apply Hfile.
  - apply Hdir. induction entries as [|d ds IHds]; constructor; [apply IH | exact IHds].
Qed.




(** The test of the repository: the three email files of the root and the
    one of the subdirectory are found; a directory that cannot be read stops
    the walk. *)
Example walkDir_examples :
  importer.walkDir "tmp" scenario.testDir []
  = Ok ["tmp/email1.eml"; "tmp/email2.json"; "tmp/email3.mbox"; "tmp/subdir/email4.eml"]
  /\ importer.walkDir "tmp"
       (DirNode "tmp" None [FileNode "a.eml"; DirNode "locked" (Some "permission denied") []])
       []
     = Err "permission denied".
Proof. split; reflexivity. Qed.

(** The extension is compared in lower case; the extension is that of the
    last path element. *)
Example isEmailFile_examples :
  importer.isEmailFile "in/sub/C.EML" = true
  /\ importer.isEmailFile "in/d.Json" = true
  /\ importer.isEmailFile "in/e.mbox" = true
  /\ importer.isEmailFile "in/notes.txt" = false
  /\ importer.isEmailFile "in/dir.eml/readme" = false
  /\ importer.isEmailFile "in/eml" = false.
Proof. repeat split; reflexivity. Qed.

(** ** The manifest *)

(** An export that fails has written no file. *)
Lemma exportSingleEmail_failed_files e messageID w :
  snd (fst (exporter.exportSingleEmail e messageID w)) <> None ->
  files (snd (exporter.exportSingleEmail e messageID w)) = files w.
Proof.
  unfold exporter.exportSingleEmail.
  destruct (getMessage _ _ _ _) as [message|err]; [|reflexivity].
  assert (Hpath : files (snd (exporter.getOutputPath e message
                                 (called (MessagesGet messageID "full") w))) = files w).
  { unfold exporter.getOutputPath, MkdirAll.
    destruct (negb _); [reflexivity|]. destruct (mkdirError _ _); reflexivity. }
  destruct (exporter.getOutputPath e message _) as [[outputPath|err] w1];
    simpl in Hpath; [|intros _; exact Hpath].
  assert (Heml : forall r w2, exporter.exportAsEML e message outputPath w1 = (r, w2) ->
                 is_ok r = false -> files w2 = files w).
  { unfold exporter.exportAsEML, WriteFile. intros r w2.
    destruct (getMessage _ _ _ _) as [raw|err]; [|intros [= <- <-] _; exact Hpath].
    destruct (exporter.decodeBase64URL _) as [rawData|err];
      [|intros [= <- <-] _; exact Hpath].
    destruct (writeError _ _); intros [= <- <-]; [intros _; exact Hpath | discriminate]. }
  assert (Hjson : forall r w2, exporter.exportAsJSON e message outputPath w1 = (r, w2) ->
                  is_ok r = false -> files w2 = files w).
  { unfold exporter.exportAsJSON, WriteFile. intros r w2.
    destruct (marshalMessage _ _) as [jsonData|err]; [|intros [= <- <-] _; exact Hpath].
    destruct (writeError _ _); intros [= <- <-]; [intros _; exact Hpath | discriminate]. }
  unfold exporter.exportAsMbox.
  destruct (String.eqb _ "eml").
  { destruct (exporter.exportAsEML e message outputPath w1) as [[size|err] w2] eqn:E;
      simpl; [congruence | intros _; eapply Heml; eauto]. }
  destruct (String.eqb _ "json").
  { destruct (exporter.exportAsJSON e message outputPath w1) as [[size|err] w2] eqn:E;
      simpl; [congruence | intros _; eapply Hjson; eauto]. }
  destruct (String.eqb _ "mbox").
  { destruct (exporter.exportAsEML e message outputPath w1) as [[size|err] w2] eqn:E;
      simpl; [congruence | intros _; eapply Heml; eauto]. }
  simpl. intros _. exact Hpath.
Qed.

Lemma exportWorker_result e messageID w :
  exporter.MessageID (fst (exporter.exportWorker e messageID w)) = messageID
  /\ (exporter.failed (fst (exporter.exportWorker e messageID w)) ->
      files (snd (exporter.exportWorker e messageID w)) = files w).
Proof.
  unfold exporter.exportWorker, exporter.failed.
  pose proof (exportSingleEmail_failed_files e messageID w) as H.
  destruct (exporter.exportSingleEmail e messageID w) as [[size err] w']. simpl in *.
  auto.
Qed.

Lemma export_collect_files r a w : files (snd (exporter.collect r a w)) = files w.
Proof.
  unfold exporter.collect. destruct a as [res ps]. destruct (exporter.RError r); reflexivity.
Qed.

Lemma export_collect_processed r a w :
  (snd (fst (exporter.collect r a w)) = [] -> exporter.failed r /\ snd a = [])
  /\ (exporter.TotalExported (fst a) = length (snd a) ->
      exporter.TotalExported (fst (fst (exporter.collect r a w)))
      = length (snd (fst (exporter.collect r a w)))).
Proof.
  unfold exporter.collect, exporter.failed. destruct a as [res ps].
  destruct (exporter.RError r); simpl.
  - split; [intros ->; split; [discriminate | reflexivity] | auto].
  - split.
    + intros H. destruct ps; discriminate.
    + intros ->. rewrite length_app. simpl. lia.
Qed.

Lemma export_collect_handledIDs r a w :
  exporter.handledIDs (fst (exporter.collect r a w))
  ≡ₚ exporter.MessageID r :: exporter.handledIDs a.
Proof.
  unfold exporter.collect, exporter.handledIDs. destruct a as [res ps].
  destruct (exporter.RError r); simpl.
  - rewrite map_app. simpl. solve_Permutation.
  - rewrite map_app. simpl. solve_Permutation.
Qed.

Lemma manifestInv_init e ids w : exporter.manifestInv e w (exporter.start e ids w).
Proof.
  unfold exporter.manifestInv, exporter.start. split; [reflexivity|].
  split; [apply init_orderly|]. split.
  - intros _ _ _. reflexivity.
  - intros H. discriminate H.
Qed.

Lemma manifestInv_step e w0 a s s' :
  exporter.manifestInv e w0 s ->
  pool.step_fn (exporter.exportWorker e) exporter.collect (exporter.finish e) a s = Some s' ->
  exporter.manifestInv e w0 s'.
Proof.
  intros (Hcount & Hord & Hun & Hfin) Hstep.
  pose proof (step_orderly _ _ _ _ _ _ Hord Hstep) as Hord'.
  unfold exporter.manifestInv. split; [|split; [exact Hord'|]].
  - (* the count *)
    destruct s as [m js ws rs cl ac w]. unfold pool.step_fn in Hstep. simpl in *.
    destruct a as [|i|].
    + destruct m as [[|x rest]| |]; try discriminate.
      * injection Hstep as <-. exact Hcount.
      * injection Hstep as <-. exact Hcount.
      * destruct rs as [|r rs].
        -- destruct cl; [|discriminate]. injection Hstep as <-. exact Hcount.
        -- pose proof (export_collect_processed r ac w) as [_ Hc].
           destruct (exporter.collect r ac w) as [a' w']. injection Hstep as <-.
           simpl in *. auto.
    + destruct (ws !! i) as [[|x|]|]; try discriminate.
      * destruct js; [destruct (pool.jobsClosed _); [|discriminate]|];
          injection Hstep as <-; exact Hcount.
      * destruct (exporter.exportWorker e x w). injection Hstep as <-. exact Hcount.
    + destruct (_ && _ && _)%bool; [|discriminate]. injection Hstep as <-. exact Hcount.
  - (* the files *)
    destruct s as [m js ws rs cl ac w]. unfold pool.step_fn in Hstep.
    unfold exporter.untouched, exporter.finished in *. simpl in *.
    destruct Hord as (Hcl & Hex & Hret). simpl in *.
    assert (Hm : m = pool.Returned \/ m <> pool.Returned)
      by (destruct m; (left; reflexivity) || (right; discriminate)).
    destruct Hm as [-> | Hm].
    { (* nothing moves once the main goroutine has returned *)
      exfalso. destruct (Hret eq_refl) as [-> ->]. specialize (Hcl eq_refl).
      destruct a as [|i|]; simpl in Hstep; try discriminate.
      destruct (ws !! i) as [k|] eqn:Hi; [|discriminate].
      rewrite (forallb_exited_insert ws i k Hcl Hi) in Hstep. discriminate. }
    specialize (Hun Hm).
    destruct a as [|i|].
    + destruct m as [[|x rest]| |]; try congruence.
      * injection Hstep as <-. simpl. split; [auto | discriminate].
      * injection Hstep as <-. simpl. split; [auto | discriminate].
      * destruct rs as [|r rs].
        -- destruct cl; [|discriminate]. injection Hstep as <-. simpl.
           split; [congruence|]. intros _. exists w. split; [reflexivity|].
           intros Hnil. apply Hun; [exact Hnil | constructor].
        -- pose proof (export_collect_processed r ac w) as [Hp _].
           pose proof (export_collect_files r ac w) as Hf.
           destruct (exporter.collect r ac w) as [a' w']. injection Hstep as <-.
           simpl in *. split; [|discriminate].
           intros _ Hnil Hrs. destruct (Hp Hnil) as [Hr Hac].
           rewrite Hf. apply Hun; [exact Hac | constructor; assumption].
    + destruct (ws !! i) as [[|x|]|]; try discriminate.
      * destruct js; [destruct (pool.jobsClosed _); [|discriminate]|];
          injection Hstep as <-; simpl; (split; [auto | intros; congruence]).
      * pose proof (exportWorker_result e x w) as [_ Hw].
        destruct (exporter.exportWorker e x w) as [r w']. injection Hstep as <-.
        simpl in *. split; [|intros; congruence].
        intros _ Hnil Hrs. apply Forall_app in Hrs as [Hrs Hr].
        apply Forall_cons in Hr as [Hr _]. rewrite (Hw Hr). apply Hun; assumption.
    + destruct (_ && _ && _)%bool; [|discriminate]. injection Hstep as <-. simpl.
      split; [auto | intros; congruence].
Qed.

Lemma exportEmails_handledIDs e ids w s :
  rtc (exporter.poolStep e) (exporter.start e ids w) s -> pool.final s ->
  exporter.handledIDs (pool.acc s) ≡ₚ ids.
Proof.
  intros Hrtc Hfin.
  apply (returns_accounted (exporter.exportWorker e) exporter.collect (exporter.finish e)
           exporter.MessageID exporter.handledIDs
           (fun x w0 => proj1 (exportWorker_result e x w0))
           export_collect_handledIDs ids _ exporter.emptyAccum w s
           (workerCount_pos_export _) eq_refl Hrtc Hfin).
Qed.

(** What the step after the loop writes. *)
Lemma finish_manifest e processedEmails res wp data :
  processedEmails <> [] ->
  marshalProcessed (exporter.env e) processedEmails = Ok data ->
  writeError (exporter.env e) (exporter.manifestPath e) = None ->
  content <$> (files (exporter.finish e (res, processedEmails) wp) !! exporter.manifestPath e)
  = Some data.
Proof.
  intros Hne Hm Hw. unfold exporter.finish, exporter.saveProcessedEmailsFilter. simpl.
  destruct processedEmails as [|p ps]; [congruence|].
  rewrite Hm. unfold WriteFile. fold (exporter.manifestPath e). rewrite Hw. simpl.
  rewrite lookup_insert_eq. destruct (files wp !! _); reflexivity.
Qed.

(** What exportEmails has done when it returns. *)
Lemma exportEmails_outcome e ids w r w' :
  exporter.exportEmails e ids w r w' ->
  exists processedEmails wp,
    length processedEmails = exporter.TotalExported r
    /\ map ID processedEmails ++ map exporter.EmailID (exporter.Failures r) ≡ₚ ids
    /\ w' = exporter.finish e (r, processedEmails) wp
    /\ (processedEmails = [] -> files wp = files w).
Proof.
  intros (s & Hrtc & Hfin & <- & <-).
  pose proof (exportEmails_handledIDs e ids w s Hrtc Hfin) as Hperm.
  pose proof (rtc_keeps (exporter.exportWorker e) exporter.collect (exporter.finish e)
                (exporter.manifestInv e w) (manifestInv_step e w) _ _ Hrtc
                (manifestInv_init e ids w)) as (Hcount & _ & _ & Hret).
  destruct (Hret Hfin) as (wp & Hw & Hwp).
  destruct (pool.acc s) as [res processedEmails] eqn:Hacc. simpl in *.
  exists processedEmails, wp. auto.
Qed.

Lemma append_inj (a b c : string) : a +:+ b = a +:+ c -> b = c.
Proof.
  induction a as [|x a IH]; [auto|].
  change (String x (a +:+ b) = String x (a +:+ c) -> b = c). intros [= H]. auto.
Qed.

(** After exportEmails, Export writes the metrics file and no other. *)
Lemma exportFinish_manifest e t0 t1 ids r w :
  files (snd (exporter.exportFinish e t0 t1 ids r w)) !! exporter.manifestPath e
  = files w !! exporter.manifestPath e.
Proof.
  unfold exporter.exportFinish, Now, metrics.Save, WriteFile. cbn zeta.
  destruct (marshalMetrics _ _) as [data|err]; [|reflexivity].
  destruct (writeError _ _); [reflexivity|]. simpl.
  apply lookup_insert_ne. unfold exporter.manifestPath, PathJoin.
  intros H. apply append_inj, append_inj in H. discriminate.
Qed.

Lemma searchPages_files q pages i ids w :
  files (snd (exporter.searchPages q pages i ids w)) = files w.
Proof.
  revert i ids w. induction pages as [|p rest IH]; intros i ids w; simpl; [reflexivity|].
  destruct p as [found|err]; [|reflexivity].
  destruct rest; [reflexivity|]. rewrite IH. reflexivity.
Qed.

(** Before it calls exportEmails, Export writes no file. *)
Lemma exportPrepare_files e f w : files (snd (exporter.exportPrepare e f w)) = files w.
Proof.
  unfold exporter.exportPrepare, exporter.exportSearch, exporter.searchEmails, Now, MkdirAll.
  cbn zeta.
  destruct (filters.Validate f); [reflexivity|].
  destruct (mkdirError _ _); [reflexivity|].
  match goal with
  | |- context [exporter.searchPages ?q ?ps ?i ?ids ?w0] =>
      pose proof (searchPages_files q ps i ids w0) as H;
      destruct (exporter.searchPages q ps i ids w0) as [[found|err] w1]
  end; simpl in *; [|exact H].
  destruct ((0 <? _) && _)%bool; exact H.
Qed.

(** C10.  When exportEmails returns with no item exported, no file has been
    written or overwritten: in particular the manifest is what it was, also
    at the end of the whole of Export.  When it returns with some item
    exported, the step after the loop saves the records of the processed
    items, one for each exported item (together with the failures they
    account for every identifier given); provided the records can be
    marshalled and the write is not refused, the manifest holds exactly
    these records. *)
Theorem manifest_written_only_after_a_success e :
  (forall ids w r w',
      exporter.exportEmails e ids w r w' ->
      (exporter.TotalExported r = 0%nat ->
       files w' = files w
       /\ files w' !! exporter.manifestPath e = files w !! exporter.manifestPath e)
      /\ ((0 < exporter.TotalExported r)%nat ->
          exists processedEmails,
            length processedEmails = exporter.TotalExported r
            /\ map ID processedEmails ++ map exporter.EmailID (exporter.Failures r) ≡ₚ ids
            /\ forall data,
                marshalProcessed (exporter.env e) processedEmails = Ok data ->
                writeError (exporter.env e) (exporter.manifestPath e) = None ->
                content <$> (files w' !! exporter.manifestPath e) = Some data))
  /\ (forall f w r w',
         exporter.Export e f w (Ok r) w' ->
         exporter.TotalExported r = 0%nat ->
         files w' !! exporter.manifestPath e = files w !! exporter.manifestPath e).
Proof.
  assert (Hzero : forall ids w r w',
             exporter.exportEmails e ids w r w' -> exporter.TotalExported r = 0%nat ->
             files w' = files w).
  { intros ids w r w' H H0.
    destruct (exportEmails_outcome _ _ _ _ _ H) as (ps & wp & Hlen & _ & -> & Hwp).
    rewrite H0 in Hlen. apply length_zero_iff_nil in Hlen. subst ps.
    unfold exporter.finish. simpl. apply Hwp. reflexivity. }
  split.
  - intros ids w r w' H. split.
    + intros H0. rewrite (Hzero _ _ _ _ H H0). auto.
    + destruct (exportEmails_outcome _ _ _ _ _ H)
        as (processedEmails & wp & Hlen & Hperm & -> & Hwp).
      intros Hpos. exists processedEmails. split; [exact Hlen|]. split; [exact Hperm|].
      intros data Hm Hwr. apply finish_manifest; auto.
      intros ->. simpl in Hlen. lia.
  - intros f w r w' H H0. unfold exporter.Export in H.
    pose proof (exportPrepare_files e f w) as Hprep.
    destruct (exporter.exportPrepare e f w) as [[[[t0 t1] ids]|err] w1];
      [|destruct H; discriminate].
    destruct H as (r0 & w2 & Hrun & Hr & ->).
    assert (r = fst (exporter.exportFinish e t0 t1 ids r0 w2)) as -> by congruence.
    destruct (exportFinish_fields e t0 t1 ids r0 w2) as (_ & Hexp & _).
    rewrite Hexp in H0. rewrite exportFinish_manifest, (Hzero _ _ _ _ Hrun H0).
    simpl in Hprep. rewrite Hprep. reflexivity.
Qed.

Lemma manifest_written_only_after_a_success_witness :
  exists r w',
    exporter.exportEmails (scenario.theExporter 0 3 "eml") ["m1"; "m2"; "m3"]
                          scenario.world0 r w'
    /\ (exporter.TotalExported r = 0%nat ->
        files w' = files scenario.world0
        /\ files w' !! "out/processed_emails.json"
           = files scenario.world0 !! "out/processed_emails.json")
    /\ ((0 < exporter.TotalExported r)%nat ->
        exists processedEmails,
          length processedEmails = exporter.TotalExported r
          /\ map ID processedEmails ++ map exporter.EmailID (exporter.Failures r)
             ≡ₚ ["m1"; "m2"; "m3"]
          /\ forall data,
              scenario.manifestText processedEmails = data ->
              content <$> (files w' !! "out/processed_emails.json") = Some data).
Proof.
  destruct (exporter.exportEmailsRun (scenario.theExporter 0 3 "eml") ["m1"; "m2"; "m3"]
                                     scenario.world0) as [[r w']|] eqn:E;
    [|vm_compute in E; discriminate].
  exists r, w'. split; [apply exportEmailsRun_sound; exact E|].
  destruct (proj1 (manifest_written_only_after_a_success (scenario.theExporter 0 3 "eml"))
              ["m1"; "m2"; "m3"] scenario.world0 r w'
              (exportEmailsRun_sound _ _ _ _ _ E)) as [H0 H1].
  split; [exact H0|].
  intros Hpos. destruct (H1 Hpos) as (ps & Hlen & Hperm & Hdata).
  exists ps. split; [exact Hlen|]. split; [exact Hperm|].
  intros data <-. apply Hdata; reflexivity.
Defined.

(** The order of the records follows the order in which the workers finish,
    the counts do not. *)
Example out_of_order_run :
  match pool.exec (exporter.exportWorker (scenario.theExporter 0 2 "eml"))
                  exporter.collect (exporter.finish (scenario.theExporter 0 2 "eml"))
                  scenario.secondFirst
                  (exporter.start (scenario.theExporter 0 2 "eml") ["m1"; "m2"]
                                  scenario.world0) with
  | Some s =>
      pool.main s = pool.Returned
      /\ map ID (snd (pool.acc s)) = ["m2"; "m1"]
      /\ exporter.TotalExported (fst (pool.acc s)) = 2%nat
      /\ exporter.TotalFailed (fst (pool.acc s)) = 0%nat
      /\ content <$> (files (pool.wld s) !! "out/processed_emails.json")
         = Some (scenario.bytesOf "m2
m1")
  | None => False
  end.
Proof. vm_compute. repeat split; reflexivity. Qed.

(** Two runs: all three messages exported under the scheduler, the manifest
    lists them; the mail service down, nothing exported, the manifest as
    it was. *)
Example manifest_examples :
  match exporter.exportEmailsRun (scenario.theExporter 0 3 "eml") ["m1"; "m2"; "m3"]
                                 scenario.world0 with
  | Some (r, w') =>
      exporter.TotalExported r = 3%nat /\ exporter.TotalFailed r = 0%nat
      /\ exporter.TotalSize r = 57
      /\ content <$> (files w' !! "out/processed_emails.json")
         = Some (scenario.bytesOf "m1
m2
m3")
  | None => False
  end
  /\ match exporter.exportEmailsRun (scenario.offlineExporter 2) ["m1"; "m2"; "m3"]
                                    scenario.world0 with
     | Some (r, w') =>
         exporter.TotalExported r = 0%nat /\ exporter.TotalFailed r = 3%nat
         /\ content <$> (files w' !! "out/processed_emails.json")
            = Some (scenario.bytesOf "m1")
     | None => False
     end.
Proof. split; vm_compute; repeat split; reflexivity. Qed.

(** ** The limit and the number of matches *)

Lemma exportPrepare_limited e f w t0 t1 ids w1 :
  exporter.exportPrepare e f w = (Ok (t0, t1, ids), w1) ->
  exists found w0,
    exporter.exportSearch e f w = (Ok (t0, t1, found), w0)
    /\ ids = applyLimit (exporter.Limit (exporter.config e)) found.
Proof.
  unfold exporter.exportPrepare.
  destruct (exporter.exportSearch e f w) as [[[[t0' t1'] found]|err] w0]; [|discriminate].
  intros [= <- <- <- _]. eauto.
Qed.

(** TotalMatched is the length of the list that is left after the limit. *)
Lemma Export_matched e f w r w' :
  exporter.Export e f w (Ok r) w' ->
  exists t0 t1 found w0,
    exporter.exportSearch e f w = (Ok (t0, t1, found), w0)
    /\ exporter.TotalMatched r
       = length (applyLimit (exporter.Limit (exporter.config e)) found).
Proof.
  intros H. unfold exporter.Export in H.
  destruct (exporter.exportPrepare e f w) as [[[[t0 t1] ids]|err] w1] eqn:Hprep;
    [|destruct H; discriminate].
  destruct (exportPrepare_limited _ _ _ _ _ _ _ Hprep) as (found & w0 & Hsearch & ->).
  destruct H as (r0 & w2 & _ & Hr & _).
  assert (r = fst (exporter.exportFinish e t0 t1
                     (applyLimit (exporter.Limit (exporter.config e)) found) r0 w2))
    as -> by congruence.
  exists t0, t1, found, w0. split; [exact Hsearch|].
  apply exportFinish_fields.
Qed.

(** C2 (as the code has it).  The limit is applied to the identifiers found
    before the matches are counted: in every result of Export, TotalMatched is
    the length of the list of identifiers found by the search and cut to the
    limit (the limit itself, when it is positive and smaller than the number
    of identifiers found), which is also the number of items processed
    (exported or failed); and the manifest gets one record for each exported
    item, provided one was exported, the records can be marshalled and the
    write is not refused. *)
Theorem export_matched_is_counted_after_limit e f w r w' :
  exporter.Export e f w (Ok r) w' ->
  exists t0 t1 found w0,
    exporter.exportSearch e f w = (Ok (t0, t1, found), w0)
    /\ exporter.TotalMatched r
       = length (applyLimit (exporter.Limit (exporter.config e)) found)
    /\ (exporter.TotalExported r + exporter.TotalFailed r)%nat = exporter.TotalMatched r
    /\ (0 < exporter.Limit (exporter.config e) < len found ->
        exporter.TotalMatched r = Z.to_nat (exporter.Limit (exporter.config e)))
    /\ exists processedEmails,
        length processedEmails = exporter.TotalExported r
        /\ forall data,
            processedEmails <> [] ->
            marshalProcessed (exporter.env e) processedEmails = Ok data ->
            writeError (exporter.env e) (exporter.manifestPath e) = None ->
            content <$> (files w' !! exporter.manifestPath e) = Some data.
Proof.
  intros H. pose proof (Export_counts _ _ _ _ _ H) as Hcount.
  unfold exporter.Export in H.
  destruct (exporter.exportPrepare e f w) as [[[[t0 t1] ids]|err] w1] eqn:Hprep;
    [|destruct H; discriminate].
  destruct (exportPrepare_limited _ _ _ _ _ _ _ Hprep) as (found & w0 & Hsearch & ->).
  destruct H as (r0 & w2 & Hrun & Hr & ->).
  assert (r = fst (exporter.exportFinish e t0 t1
                     (applyLimit (exporter.Limit (exporter.config e)) found) r0 w2))
    as -> by congruence.
  clear Hr.
  destruct (exportEmails_outcome _ _ _ _ _ Hrun) as (ps & wp & Hlen & _ & -> & _).
  destruct (exportFinish_fields e t0 t1
              (applyLimit (exporter.Limit (exporter.config e)) found)
              r0 (exporter.finish e (r0, ps) wp)) as (Hmatched & Hexported & _).
  exists t0, t1, found, w0.
  split; [exact Hsearch|]. split; [exact Hmatched|]. split; [exact Hcount|]. split.
  - intros [H0 H1]. rewrite Hmatched, applyLimit_length.
    destruct (Z.ltb_spec 0 (exporter.Limit (exporter.config e))); [|lia].
    destruct (Z.ltb_spec (exporter.Limit (exporter.config e)) (len found)); [|lia].
    reflexivity.
  - exists ps. split; [rewrite Hexported; exact Hlen|].
    intros data Hne Hm Hwr. rewrite exportFinish_manifest.
    apply finish_manifest; auto.
Qed.

Lemma export_matched_is_counted_after_limit_witness :
  exists r w',
    exporter.Export (scenario.theExporter 1 3 "eml") scenario.invoiceFilter scenario.world0
                    (Ok r) w'
    /\ exists t0 t1 found w0,
        exporter.exportSearch (scenario.theExporter 1 3 "eml") scenario.invoiceFilter
                              scenario.world0 = (Ok (t0, t1, found), w0)
        /\ exporter.TotalMatched r = length (applyLimit 1 found)
        /\ (exporter.TotalExported r + exporter.TotalFailed r)%nat
           = exporter.TotalMatched r
        /\ (0 < 1 < len found -> exporter.TotalMatched r = Z.to_nat 1)
        /\ exists processedEmails,
            length processedEmails = exporter.TotalExported r
            /\ forall data,
                processedEmails <> [] ->
                Ok (scenario.manifestText processedEmails) = Ok data ->
                @None string = None ->
                content <$> (files w' !! "out/processed_emails.json") = Some data.
Proof.
  destruct (exporter.ExportRun (scenario.theExporter 1 3 "eml") scenario.invoiceFilter
                               scenario.world0) as [[[r|err] w']|] eqn:E;
    [|vm_compute in E; discriminate|vm_compute in E; discriminate].
  exists r, w'. split.
  - apply ExportRun_sound. exact E.
  - exact (export_matched_is_counted_after_limit
             (scenario.theExporter 1 3 "eml") scenario.invoiceFilter scenario.world0 r w'
             (ExportRun_sound _ _ _ _ _ E)).
Defined.

(** C2 (as stated) fails.  The search finds the three identifiers m1, m2, m3
    and the limit is 1: Export returns, and every result it can return
    reports TotalMatched = 1, not 3. *)
Lemma export_limit_one_reports_one_match :
  fst (exporter.exportSearch (scenario.theExporter 1 3 "eml") scenario.invoiceFilter
                             scenario.world0)
  = Ok (0, 1, ["m1"; "m2"; "m3"])
  /\ (exists r w',
        exporter.Export (scenario.theExporter 1 3 "eml") scenario.invoiceFilter
                        scenario.world0 (Ok r) w')
  /\ (forall r w',
        exporter.Export (scenario.theExporter 1 3 "eml") scenario.invoiceFilter
                        scenario.world0 (Ok r) w' ->
        exporter.TotalMatched r = 1%nat /\ exporter.TotalMatched r <> 3%nat).
Proof.
  split; [vm_compute; reflexivity|]. split.
  - destruct (exporter.ExportRun (scenario.theExporter 1 3 "eml") scenario.invoiceFilter
                                 scenario.world0) as [[[r|err] w']|] eqn:E;
      [|vm_compute in E; discriminate|vm_compute in E; discriminate].
    exists r, w'. apply ExportRun_sound. exact E.
  - intros r w' H.
    destruct (Export_matched _ _ _ _ _ H) as (t0 & t1 & found & w0 & Hsearch & Hm).
    assert (Hf : fst (exporter.exportSearch (scenario.theExporter 1 3 "eml")
                        scenario.invoiceFilter scenario.world0)
                 = Ok (0, 1, ["m1"; "m2"; "m3"])) by (vm_compute; reflexivity).
    rewrite Hsearch in Hf. simpl in Hf. injection Hf as _ _ ->.
    rewrite Hm. vm_compute. split; [reflexivity | discriminate].
Qed.

(** The run of the scenario under the scheduler: one match reported, one
    item exported, one record in the manifest. *)
Example export_limit_one_run :
  match exporter.ExportRun (scenario.theExporter 1 3 "eml") scenario.invoiceFilter
                           scenario.world0 with
  | Some (Ok r, w') =>
      exporter.TotalMatched r = 1%nat /\ exporter.TotalExported r = 1%nat
      /\ exporter.TotalFailed r = 0%nat
      /\ content <$> (files w' !! "out/processed_emails.json")
         = Some (scenario.manifestText
                   [{| ID := "m1"; PSubject := ""; PFrom := ""; Date := 0; Size := 19;
                       Processed := 2 |}])
  | _ => False
  end.
Proof. vm_compute. repeat split; reflexivity. Qed.

(** * Further properties *)

(** Every block appends to the slice it is given what it appends to the
    empty slice. *)
Lemma block_local block c parts :
  In block filters.blocks -> block c parts = parts ++ block c [].
Proof.
  assert (Hif : forall (b : bool) (x : list string),
             (if b then parts ++ x else parts) = parts ++ (if b then [] ++ x else [])).
  { intros [] x; [reflexivity | rewrite app_nil_r; reflexivity]. }
  unfold filters.blocks. simpl.
  intros [<- | [<- | [<- | [<- | [<- | [<- | [<- | [<- | [<- | [<- | [<- | [<- | [<- | [<- | []]]]]]]]]]]]]]].
  - apply Hif.
  - apply Hif.
  - apply Hif.
  - apply Hif.
  - unfold filters.addExcludesWords. cbn zeta.
    rewrite !(fold_append_extends (fun word => ["-" +:+ word])). apply Hif.
  - apply Hif.
  - apply Hif.
  - apply Hif.
  - unfold filters.addDateAfter. destruct (filters.DateAfter c); [reflexivity|].
    rewrite app_nil_r. reflexivity.
  - unfold filters.addDateBefore. destruct (filters.DateBefore c); [reflexivity|].
    rewrite app_nil_r. reflexivity.
  - unfold filters.addHasAttachment.
    destruct (filters.HasAttachment c) as [[]|]; try reflexivity.
    rewrite app_nil_r. reflexivity.
  - apply Hif.
  - unfold filters.addLabels. cbn zeta.
    rewrite !(fold_guarded_append_extends
                (fun label => nonEmpty (TrimSpace label))
                (fun label => ["label:" +:+ TrimSpace label])).
    apply Hif.
  - apply Hif.
Qed.

Lemma blocks_concat bs c parts :
  (forall b, In b bs -> In b filters.blocks) ->
  fold_left (fun parts block => block c parts) bs parts
  = parts ++ concat (map (fun block => block c []) bs).
Proof.
  revert parts. induction bs as [|b bs IH]; intros parts Hbs; simpl.
  - rewrite app_nil_r. reflexivity.
  - rewrite IH by (intros b' Hb'; apply Hbs; right; exact Hb').
    rewrite (block_local b c parts) by (apply Hbs; left; reflexivity).
    rewrite <- app_assoc. reflexivity.
Qed.

Lemma queryParts_blocks c :
  filters.queryParts c = concat (map (fun block => block c []) filters.blocks).
Proof. unfold filters.queryParts. rewrite blocks_concat by auto. reflexivity. Qed.






Lemma Fields_empty : Fields EmptyString = [].
Proof. reflexivity. Qed.

Lemma Split_empty sep : Split EmptyString sep = [EmptyString].
Proof. reflexivity. Qed.

Lemma fold_labels (labels : list string) (parts : list string) :
  fold_left
    (fun parts label =>
       let label := TrimSpace label in
       if nonEmpty label then parts ++ ["label:" +:+ label] else parts)
    labels parts
  = parts ++ map (fun l => "label:" +:+ l) (List.filter nonEmpty (map TrimSpace labels)).
Proof.
  revert parts. induction labels as [|l labels IH]; intros parts; cbn [fold_left map List.filter].
  - rewrite app_nil_r. reflexivity.
  - cbn zeta. rewrite IH. destruct (nonEmpty (TrimSpace l)); cbn [map].
    + rewrite <- app_assoc. reflexivity.
    + reflexivity.
Qed.

Lemma addExcludesWords_words c :
  filters.addExcludesWords c []
  = map (fun w => "-" +:+ w) (Fields (filters.ExcludesWords c)).
Proof.
  unfold filters.addExcludesWords. destruct (nonEmpty (filters.ExcludesWords c)) eqn:E.
  - cbn zeta. rewrite (fold_append_extends (fun word => ["-" +:+ word])).
    cbn [app]. induction (Fields _) as [|w ws IH]; [reflexivity|].
    cbn [map concat app]. rewrite IH. reflexivity.
  - assert (filters.ExcludesWords c = EmptyString) as ->.
    { unfold nonEmpty in E. destruct (String.eqb_spec (filters.ExcludesWords c) EmptyString);
        [assumption | discriminate]. }
    reflexivity.
Qed.

Lemma addLabels_labels c :
  filters.addLabels c []
  = map (fun l => "label:" +:+ l)
        (List.filter nonEmpty (map TrimSpace (Split (filters.Labels c) ","))).
Proof.
  unfold filters.addLabels. destruct (nonEmpty (filters.Labels c)) eqn:E.
  - cbn zeta. rewrite fold_labels. reflexivity.
  - assert (filters.Labels c = EmptyString) as ->.
    { unfold nonEmpty in E. destruct (String.eqb_spec (filters.Labels c) EmptyString);
        [assumption | discriminate]. }
    reflexivity.
Qed.

(** The clauses of the query, field by field, in the order they come. *)
Lemma queryParts_clauses c :
  filters.queryParts c
  = (if nonEmpty (filters.To c) then ["to:" +:+ filters.To c] else [])
    ++ (if nonEmpty (filters.From c) then ["from:" +:+ filters.From c] else [])
    ++ (if nonEmpty (filters.Subject c) then ["subject:(" +:+ filters.Subject c +:+ ")"]
        else [])
    ++ (if nonEmpty (filters.IncludesWords c) then [filters.IncludesWords c] else [])
    ++ map (fun w => "-" +:+ w) (Fields (filters.ExcludesWords c))
    ++ (if 0 <? filters.SizeGreaterThan c
        then ["size:" +:+ Itoa (filters.SizeGreaterThan c)] else [])
    ++ (if 0 <? filters.SizeLessThan c
        then ["-size:" +:+ Itoa (filters.SizeLessThan c)] else [])
    ++ (if 0 <? filters.DateWithin c
        then ["newer_than:"
              +:+ Itoa (intOfFloat (fdiv (Hours (filters.DateWithin c)) (floatOfInt 24)))
              +:+ "d"]
        else [])
    ++ match filters.DateAfter c with
       | Some t => ["after:" +:+ FormatDate t]
       | None => []
       end
    ++ match filters.DateBefore c with
       | Some t => ["before:" +:+ FormatDate t]
       | None => []
       end
    ++ match filters.HasAttachment c with
       | Some true => ["has:attachment"]
       | Some false => ["-has:attachment"]
       | None => []
       end
    ++ (if filters.ExcludeChats c then ["-in:chats"] else [])
    ++ map (fun l => "label:" +:+ l)
           (List.filter nonEmpty (map TrimSpace (Split (filters.Labels c) ",")))
    ++ (if (nonEmpty (filters.SearchScope c)
            && negb (String.eqb (filters.SearchScope c) "all_mail"))%bool
        then ["in:" +:+ filters.SearchScope c] else []).
Proof.
  rewrite queryParts_blocks. unfold filters.blocks. cbn [map concat].
  rewrite app_nil_r, addExcludesWords_words, addLabels_labels.
  unfold filters.addTo, filters.addFrom, filters.addSubject, filters.addIncludesWords,
    filters.addSizeGreaterThan, filters.addSizeLessThan, filters.addDateWithin,
    filters.addDateAfter, filters.addDateBefore, filters.addHasAttachment,
    filters.addExcludeChats, filters.addSearchScope.
  cbn zeta.
  repeat (f_equal; [match goal with
                    | |- context [if ?b then _ else _] => destruct b; reflexivity
                    | |- context [match ?o with _ => _ end] =>
                        destruct o as [[]|] || destruct o; reflexivity
                    | _ => reflexivity
                    end|]).
  destruct (_ && _)%bool; reflexivity.
Qed.

(** X1. The query is the clauses of the fields that are set, joined by single
    spaces, in the order recipient, sender, subject, included words, excluded
    words, sizes, dates, attachment, chats, labels, scope; the clause of a
    field depends on that field only. *)
Theorem query_clauses_in_order c :
  filters.BuildGmailQuery c
  = Join ((if nonEmpty (filters.To c) then ["to:" +:+ filters.To c] else [])
          ++ (if nonEmpty (filters.From c) then ["from:" +:+ filters.From c] else [])
          ++ (if nonEmpty (filters.Subject c)
              then ["subject:(" +:+ filters.Subject c +:+ ")"] else [])
          ++ (if nonEmpty (filters.IncludesWords c) then [filters.IncludesWords c] else [])
          ++ map (fun w => "-" +:+ w) (Fields (filters.ExcludesWords c))
          ++ (if 0 <? filters.SizeGreaterThan c
              then ["size:" +:+ Itoa (filters.SizeGreaterThan c)] else [])
          ++ (if 0 <? filters.SizeLessThan c
              then ["-size:" +:+ Itoa (filters.SizeLessThan c)] else [])
          ++ (if 0 <? filters.DateWithin c
              then ["newer_than:"
                    +:+ Itoa (intOfFloat (fdiv (Hours (filters.DateWithin c))
                                               (floatOfInt 24)))
                    +:+ "d"]
              else [])
          ++ match filters.DateAfter c with
             | Some t => ["after:" +:+ FormatDate t]
             | None => []
             end
          ++ match filters.DateBefore c with
             | Some t => ["before:" +:+ FormatDate t]
             | None => []
             end
          ++ match filters.HasAttachment c with
             | Some true => ["has:attachment"]
             | Some false => ["-has:attachment"]
             | None => []
             end
          ++ (if filters.ExcludeChats c then ["-in:chats"] else [])
          ++ map (fun l => "label:" +:+ l)
                 (List.filter nonEmpty (map TrimSpace (Split (filters.Labels c) ",")))
          ++ (if (nonEmpty (filters.SearchScope c)
                  && negb (String.eqb (filters.SearchScope c) "all_mail"))%bool
              then ["in:" +:+ filters.SearchScope c] else []))
         " ".
Proof. unfold filters.BuildGmailQuery. rewrite queryParts_clauses. reflexivity. Qed.






















(** ** Durations *)




Lemma length_mapBytes f s : String.length (mapBytes f s) = String.length s.
Proof. induction s as [|c s IH]; [reflexivity|]. cbn. rewrite IH. reflexivity. Qed.








(** A sign is accepted and a product that does not fit 64 bits wraps
    around; the unit may be in upper case and white space around is ignored. *)
Example ParseDuration_examples :
  filters.ParseDuration "-5d" = Ok (- (5 * 24 * Hour))
  /\ filters.ParseDuration "+3h" = Ok (3 * Hour)
  /\ filters.ParseDuration " 12H " = Ok (12 * Hour)
  /\ filters.ParseDuration "106751d" = Ok (106751 * 24 * Hour)
  /\ filters.ParseDuration "106752d" = Ok (106752 * 24 * Hour - 2 ^ 64)
  /\ filters.ParseDuration "d" = Err "invalid duration format: d"
  /\ filters.ParseDuration "5x" = Err "invalid duration unit: x (valid: h, d, w, m, y)"
  /\ filters.ParseDuration "1.5d" = Err "invalid number in duration: 1.5".
Proof. repeat split; vm_compute; reflexivity. Qed.

(** The number of days of [newer_than], for the durations of whole days up to
    ten years and for the whole hours of less than a day. *)
Lemma whole_days_checked :
  forallb (fun k => intOfFloat (fdiv (Hours (k * 24 * Hour)) (floatOfInt 24)) =? k)
          (map Z.of_nat (seq 1 3650)) = true.
Proof. vm_compute. reflexivity. Qed.

Lemma whole_hours_checked :
  forallb (fun h => intOfFloat (fdiv (Hours (h * Hour)) (floatOfInt 24)) =? 0)
          (map Z.of_nat (seq 1 23)) = true.
Proof. vm_compute. reflexivity. Qed.

Lemma days_of_whole_days k :
  1 <= k <= 3650 -> intOfFloat (fdiv (Hours (k * 24 * Hour)) (floatOfInt 24)) = k.
Proof.
  intros Hk. pose proof whole_days_checked as H. rewrite forallb_forall in H.
  apply Z.eqb_eq, H, in_map_iff. exists (Z.to_nat k). split; [lia|]. apply in_seq. lia.
Qed.

Lemma days_of_whole_hours h :
  1 <= h <= 23 -> intOfFloat (fdiv (Hours (h * Hour)) (floatOfInt 24)) = 0.
Proof.
  intros Hh. pose proof whole_hours_checked as H. rewrite forallb_forall in H.
  apply Z.eqb_eq, H, in_map_iff. exists (Z.to_nat h). split; [lia|]. apply in_seq. lia.
Qed.

(** X6. The clause for mail of the last days: a duration of k whole days, up
    to ten years, gives newer_than:kd; a duration of whole hours under a day
    gives newer_than:0d; a duration that is not positive gives no clause. *)
Theorem date_within_counts_whole_days c parts :
  (forall k, 1 <= k <= 3650 -> filters.DateWithin c = k * 24 * Hour ->
             filters.addDateWithin c parts = parts ++ ["newer_than:" +:+ Itoa k +:+ "d"])
  /\ (forall h, 1 <= h <= 23 -> filters.DateWithin c = h * Hour ->
                filters.addDateWithin c parts = parts ++ ["newer_than:0d"])
  /\ (filters.DateWithin c <= 0 -> filters.addDateWithin c parts = parts).
Proof.
  unfold filters.addDateWithin. split; [|split].
  - intros k Hk ->. cbn zeta. rewrite days_of_whole_days by exact Hk.
    destruct (Z.ltb_spec 0 (k * 24 * Hour)); [reflexivity|]. unfold Hour in *. lia.
  - intros h Hh ->. cbn zeta. rewrite days_of_whole_hours by exact Hh.
    destruct (Z.ltb_spec 0 (h * Hour)); [reflexivity|]. unfold Hour in *. lia.
  - intros H. destruct (Z.ltb_spec 0 (filters.DateWithin c)); [lia | reflexivity].
Qed.

(** ** More on base64 *)

Lemma encodeChar_std_not_pad i :
  0 <= i < 64 -> Ascii.eqb (encodeChar encodeStd i) padChar = false.
Proof. intros Hi. each_of_64 i. Qed.

Lemma encodeChar_std_fixed i :
  0 <= i < 64 ->
  (let c := encodeChar encodeStd i in
   let c := if Ascii.eqb c "-" then "+"%char else c in
   if Ascii.eqb c "_" then "/"%char else c) = encodeChar encodeStd i.
Proof. intros Hi. each_of_64 i. Qed.

Lemma encodeChar_url_safe i :
  0 <= i < 64 -> containsByte (encodeChar encodeURL i) encodeURL = true.
Proof. intros Hi. each_of_64 i. Qed.

(** What the encoders write is a whole number of quanta. *)
Lemma addPadding_EncodeToString alphabet d :
  exporter.addPadding (EncodeToString alphabet d) = EncodeToString alphabet d.
Proof.
  induction d as [|a|a b|a b c rest IH] using list_ind3; try reflexivity.
  cbn [EncodeToString]. rewrite addPadding_quantum, IH. reflexivity.
Qed.

Lemma addPadding_TrimRight_std d :
  exporter.addPadding (TrimRight (EncodeToString encodeStd d) padChar)
  = EncodeToString encodeStd d.
Proof.
  induction d as [|a|a b|a b c rest IH] using list_ind3.
  - reflexivity.
  - cbn [EncodeToString].
    rewrite !TrimRight_keep by (apply encodeChar_std_not_pad, sextet_range).
    reflexivity.
  - cbn [EncodeToString].
    rewrite !TrimRight_keep by (apply encodeChar_std_not_pad, sextet_range).
    reflexivity.
  - cbn [EncodeToString].
    rewrite !TrimRight_keep by (apply encodeChar_std_not_pad, sextet_range).
    rewrite addPadding_quantum, IH. reflexivity.
Qed.

(** The two replacements leave the standard encoding as it is. *)
Lemma ReplaceAll_std d :
  ReplaceAll (ReplaceAll (EncodeToString encodeStd d) "-" "+") "_" "/"
  = EncodeToString encodeStd d.
Proof.
  unfold ReplaceAll. rewrite mapBytes_mapBytes.
  induction d as [|a|a b|a b c rest IH] using list_ind3.
  - reflexivity.
  - cbn [EncodeToString mapBytes].
    rewrite !encodeChar_std_fixed by apply sextet_range. reflexivity.
  - cbn [EncodeToString mapBytes].
    rewrite !encodeChar_std_fixed by apply sextet_range. reflexivity.
  - cbn [EncodeToString mapBytes].
    rewrite !encodeChar_std_fixed by apply sextet_range. rewrite IH. reflexivity.
Qed.

(** X7. decodeBase64URL reads all four spellings of base64: the URL-safe and
    the standard alphabet, each with or without the padding. *)
Theorem decodeBase64URL_reads_every_spelling (d : list byte) :
  exporter.decodeBase64URL (EncodeToString encodeURL d) = Ok d
  /\ exporter.decodeBase64URL (TrimRight (EncodeToString encodeURL d) "=") = Ok d
  /\ exporter.decodeBase64URL (EncodeToString encodeStd d) = Ok d
  /\ exporter.decodeBase64URL (TrimRight (EncodeToString encodeStd d) "=") = Ok d.
Proof.
  unfold exporter.decodeBase64URL. change "="%char with padChar.
  rewrite !addPadding_EncodeToString, addPadding_TrimRight, addPadding_TrimRight_std,
    ReplaceAll_url_to_std, ReplaceAll_std.
  repeat split; apply DecodeString_EncodeToString.
Qed.

Lemma TrimRight_length_keep c t cut :
  Ascii.eqb c cut = false ->
  String.length (TrimRight (String c t) cut) = S (String.length (TrimRight t cut)).
Proof. intros H. rewrite TrimRight_keep by exact H. reflexivity. Qed.

(** The characters of a string that are of the URL-safe alphabet. *)
Local Abbreviation urlSafe s :=
  (forallb (fun c => containsByte c encodeURL) (list_ascii_of_string s)).

(** X8. What encodeBase64URL writes has only characters of the URL-safe
    alphabet (so no padding, no plus sign and no slash), four for every three
    bytes and two or three for the one or two bytes left. *)
Theorem encodeBase64URL_is_url_safe (d : list byte) :
  forallb (fun c => containsByte c encodeURL)
          (list_ascii_of_string (importer.encodeBase64URL d)) = true
  /\ String.length (importer.encodeBase64URL d) = ((4 * length d + 2) / 3)%nat
  /\ containsByte "=" (importer.encodeBase64URL d) = false
  /\ containsByte "+" (importer.encodeBase64URL d) = false
  /\ containsByte "/" (importer.encodeBase64URL d) = false.
Proof.
  unfold importer.encodeBase64URL. change "="%char with padChar.
  assert (Hsafe : urlSafe (TrimRight (EncodeToString encodeURL d) padChar) = true
                  /\ String.length (TrimRight (EncodeToString encodeURL d) padChar)
                     = ((4 * length d + 2) / 3)%nat).
  { induction d as [|a|a b|a b c rest [IH1 IH2]] using list_ind3.
    - split; reflexivity.
    - cbn [EncodeToString].
      rewrite !TrimRight_keep by (apply encodeChar_url_not_pad, sextet_range).
      cbn [TrimRight list_ascii_of_string forallb String.length].
      rewrite !encodeChar_url_safe by apply sextet_range. split; reflexivity.
    - cbn [EncodeToString].
      rewrite !TrimRight_keep by (apply encodeChar_url_not_pad, sextet_range).
      cbn [TrimRight list_ascii_of_string forallb String.length].
      rewrite !encodeChar_url_safe by apply sextet_range. split; reflexivity.
    - cbn [EncodeToString].
      rewrite !TrimRight_keep by (apply encodeChar_url_not_pad, sextet_range).
      cbn [list_ascii_of_string forallb String.length].
      rewrite !encodeChar_url_safe by apply sextet_range. rewrite IH1, IH2.
      split; [reflexivity|]. cbn [length].
      replace (4 * S (S (S (length rest))) + 2)%nat
        with ((4 * length rest + 2) + 4 * 3)%nat by lia.
      rewrite Nat.div_add by lia. lia. }
  destruct Hsafe as [Hsafe Hlen]. split; [exact Hsafe|]. split; [exact Hlen|].
  assert (Hnot : forall c s, containsByte c encodeURL = false -> urlSafe s = true ->
                             containsByte c s = false).
  { intros c s Hc. induction s as [|x s IH]; [reflexivity|].
    cbn [list_ascii_of_string forallb containsByte]. intros H.
    apply andb_true_iff in H as [Hx Hs]. rewrite (IH Hs), orb_false_r.
    destruct (Ascii.eqb_spec c x) as [->|]; [congruence | reflexivity]. }
  repeat split; apply Hnot; auto.
Qed.

(** ** Sizes for the reader *)

(** The loop of FormatBytes ends with the largest power of 1024 that is not
    above the number of bytes. *)
Lemma unitLoop_spec bytes fuel :
  forall n div exp,
    bytes < 2 ^ 63 ->
    div = 1024 ^ (Z.of_nat exp + 1) ->
    n = bytes / div -> 1 <= n < 2 ^ (Z.of_nat fuel + 1) ->
    exists k,
      metrics.unitLoop fuel n div exp = (1024 ^ (Z.of_nat k + 1), k)
      /\ 1024 ^ (Z.of_nat k + 1) <= bytes < 1024 ^ (Z.of_nat k + 2).
Proof.
  induction fuel as [|fuel IH]; intros n div exp Hb Hdiv Hn Hrange.
  - assert (Hpos : 0 < div) by (subst div; apply Z.pow_pos_nonneg; lia).
    exists exp. cbn [metrics.unitLoop]. split; [subst div; reflexivity|].
    change (2 ^ (Z.of_nat 0 + 1)) with 2 in Hrange.
    replace (Z.of_nat exp + 2) with (Z.succ (Z.of_nat exp + 1)) by lia.
    rewrite Z.pow_succ_r by lia. rewrite <- Hdiv.
    pose proof (Z.div_mod bytes div ltac:(lia)) as Hdm.
    pose proof (Z.mod_pos_bound bytes div Hpos). nia.
  - assert (Hpos : 0 < div) by (subst div; apply Z.pow_pos_nonneg; lia).
    pose proof (Z.div_mod bytes div ltac:(lia)) as Hdm.
    pose proof (Z.mod_pos_bound bytes div Hpos) as Hmod.
    cbn [metrics.unitLoop]. destruct (Z.leb_spec 1024 n) as [Hge|Hlt].
    + assert (Hsmall : div * 1024 < 2 ^ 63) by nia.
      assert (Hw : wrap64 (div * 1024) = div * 1024).
      { unfold wrap64. rewrite Z.mod_small; lia. }
      rewrite Hw. rewrite Z.quot_div_nonneg by lia.
      apply IH.
      * exact Hb.
      * subst div. replace (Z.of_nat (S exp) + 1) with (Z.succ (Z.of_nat exp + 1)) by lia.
        rewrite Z.pow_succ_r by lia. ring.
      * subst n. rewrite Z.div_div by lia. reflexivity.
      * split; [apply Z.div_le_lower_bound; lia|].
        apply Z.div_lt_upper_bound; [lia|].
        replace (Z.of_nat (S fuel) + 1) with (Z.succ (Z.of_nat fuel + 1)) in Hrange by lia.
        rewrite Z.pow_succ_r in Hrange by lia. lia.
    + exists exp. split; [subst div; reflexivity|].
      replace (Z.of_nat exp + 2) with (Z.succ (Z.of_nat exp + 1)) by lia.
      rewrite Z.pow_succ_r by lia. rewrite <- Hdiv. nia.
Qed.

(** X9. FormatBytes writes a number of bytes under 1024 as it is, and a larger
    one in the largest unit of KB, MB, GB, TB, PB, EB that is not above it,
    with one decimal. For no number of bytes of 64 bits is the letter of the
    unit looked up outside the table. *)
Theorem FormatBytes_picks_the_unit bytes :
  (bytes < 1024 -> metrics.FormatBytes bytes = Some (Itoa bytes +:+ " B"))
  /\ (1024 <= bytes < 2 ^ 63 ->
      exists k letter,
        String.get k "KMGTPE" = Some letter
        /\ 1024 ^ (Z.of_nat k + 1) <= bytes < 1024 ^ (Z.of_nat k + 2)
        /\ metrics.FormatBytes bytes
           = Some (FormatFixed1 (fdiv (floatOfInt bytes)
                                      (floatOfInt (1024 ^ (Z.of_nat k + 1))))
                   +:+ " " +:+ String letter "B")).
Proof.
  unfold metrics.FormatBytes. split.
  - intros H. destruct (Z.ltb_spec bytes 1024); [reflexivity | lia].
  - intros [Hlo Hhi]. destruct (Z.ltb_spec bytes 1024); [lia|].
    rewrite Z.quot_div_nonneg by lia. cbn zeta.
    assert (Hn : 1 <= bytes / 1024) by (apply Z.div_le_lower_bound; lia).
    destruct (unitLoop_spec bytes (Z.to_nat (Z.log2 (bytes / 1024))) (bytes / 1024) 1024 0)
      as (k & Hloop & Hk); [exact Hhi | reflexivity | reflexivity | |].
    { split; [exact Hn|]. rewrite Z2Nat.id by apply Z.log2_nonneg.
      apply Z.log2_spec. lia. }
    rewrite Hloop.
    assert (Hk6 : (k < 6)%nat).
    { destruct (Nat.lt_ge_cases k 6) as [|Hge]; [assumption|]. exfalso.
      assert (1024 ^ 7 <= 1024 ^ (Z.of_nat k + 1)) by (apply Z.pow_le_mono_r; lia).
      change (1024 ^ 7) with 1180591620717411303424 in *.
      change (2 ^ 63) with 9223372036854775808 in *. lia. }
    do 6 (destruct k as [|k];
          [match type of Hk6 with
           | (?m < 6)%nat => exists m; eexists; split; [reflexivity|]; split; [exact Hk|];
                             reflexivity
           end|]).
    lia.
Qed.

(** The table of the tests, and the sizes on either side of a unit: the
    number just under a unit shows as 1024.0 of the unit below. *)
Example FormatBytes_examples :
  metrics.FormatBytes 512 = Some "512 B"
  /\ metrics.FormatBytes 1536 = Some "1.5 KB"
  /\ metrics.FormatBytes 1572864 = Some "1.5 MB"
  /\ metrics.FormatBytes 1610612736 = Some "1.5 GB"
  /\ metrics.FormatBytes 0 = Some "0 B"
  /\ metrics.FormatBytes 1023 = Some "1023 B"
  /\ metrics.FormatBytes 1024 = Some "1.0 KB"
  /\ metrics.FormatBytes 1048575 = Some "1024.0 KB"
  /\ metrics.FormatBytes 1048576 = Some "1.0 MB"
  /\ metrics.FormatBytes (2 ^ 63 - 1) = Some "8.0 EB".
Proof. repeat split; vm_compute; reflexivity. Qed.

(** ** Configurations *)

(** X10. validateConfig of the exporter accepts a configuration exactly when
    the credentials file, the token file and the output directory are named,
    the number of workers is not negative, and the format is eml, json, mbox
    or empty. It replaces an empty format by eml and changes nothing else.
    With a configuration it has accepted, exportSingleEmail never fails for an
    unsupported format. *)
Theorem exporter_validateConfig_cases c :
  (snd (exporter.validateConfig c) = None <->
     exporter.CredentialsFile c <> EmptyString
     /\ exporter.TokenFile c <> EmptyString
     /\ exporter.OutputDir c <> EmptyString
     /\ 0 <= exporter.ParallelWorkers c
     /\ In (exporter.Format c) [""; "eml"; "json"; "mbox"])
  /\ (snd (exporter.validateConfig c) = None ->
      fst (exporter.validateConfig c)
      = (if String.eqb (exporter.Format c) "" then exporter.setFormat c "eml" else c)
      /\ In (exporter.Format (fst (exporter.validateConfig c))) ["eml"; "json"; "mbox"]
      /\ forall env messageID w,
          snd (fst (exporter.exportSingleEmail
                      {| exporter.config := fst (exporter.validateConfig c);
                         exporter.env := env |} messageID w))
          <> Some ("unsupported export format: "
                   +:+ exporter.Format (fst (exporter.validateConfig c))))
  /\ (snd (exporter.validateConfig c) <> None -> fst (exporter.validateConfig c) = c).
Proof.
  unfold exporter.validateConfig.
  destruct (String.eqb_spec (exporter.CredentialsFile c) "") as [E1|E1].
  { split; [|split; [discriminate | reflexivity]].
    split; [discriminate | intros (H & _); contradiction]. }
  destruct (String.eqb_spec (exporter.TokenFile c) "") as [E2|E2].
  { split; [|split; [discriminate | reflexivity]].
    split; [discriminate | intros (_ & H & _); contradiction]. }
  destruct (String.eqb_spec (exporter.OutputDir c) "") as [E3|E3].
  { split; [|split; [discriminate | reflexivity]].
    split; [discriminate | intros (_ & _ & H & _); contradiction]. }
  destruct (Z.ltb_spec (exporter.ParallelWorkers c) 0) as [E4|E4].
  { split; [|split; [discriminate | reflexivity]].
    split; [discriminate | intros (_ & _ & _ & H & _); lia]. }
  cbn zeta.
  assert (Hrun : forall c' env messageID w,
             In (exporter.Format c') ["eml"; "json"; "mbox"] ->
             snd (fst (exporter.exportSingleEmail
                         {| exporter.config := c'; exporter.env := env |} messageID w))
             <> Some ("unsupported export format: " +:+ exporter.Format c')).
  { intros c' env messageID w Hin. unfold exporter.exportSingleEmail. simpl.
    destruct (getMessage _ _ _ _) as [message|err]; simpl; [|discriminate].
    destruct (exporter.getOutputPath _ message _) as [[outputPath|err] w1]; simpl;
      [|discriminate].
    unfold exporter.exportAsMbox.
    assert (Heml : forall w2 err,
               fst (exporter.exportAsEML {| exporter.config := c'; exporter.env := env |}
                      message outputPath w2) <> Err ("unsupported export format: " +:+ err)).
    { intros w2 err. unfold exporter.exportAsEML, WriteFile. simpl.
      destruct (getMessage _ _ _ _); [|discriminate].
      destruct (exporter.decodeBase64URL _); [|discriminate].
      destruct (writeError _ _); discriminate. }
    assert (Hjson : forall w2 err,
               fst (exporter.exportAsJSON {| exporter.config := c'; exporter.env := env |}
                      message outputPath w2) <> Err ("unsupported export format: " +:+ err)).
    { intros w2 err. unfold exporter.exportAsJSON, WriteFile. simpl.
      destruct (marshalMessage _ _); [|discriminate].
      destruct (writeError _ _); discriminate. }
    destruct (String.eqb_spec (exporter.Format c') "eml").
    { specialize (Heml w1 (exporter.Format c')).
      destruct (exporter.exportAsEML _ message outputPath w1) as [[size|err] w2];
        simpl in *; congruence. }
    destruct (String.eqb_spec (exporter.Format c') "json").
    { specialize (Hjson w1 (exporter.Format c')).
      destruct (exporter.exportAsJSON _ message outputPath w1) as [[size|err] w2];
        simpl in *; congruence. }
    destruct (String.eqb_spec (exporter.Format c') "mbox").
    { specialize (Heml w1 (exporter.Format c')).
      destruct (exporter.exportAsEML _ message outputPath w1) as [[size|err] w2];
        simpl in *; congruence. }
    simpl in Hin. intuition congruence. }
  destruct (String.eqb_spec (exporter.Format c) "") as [E5|E5].
  - cbn [exporter.setFormat exporter.Format existsb String.eqb Ascii.eqb Bool.eqb orb negb].
    split; [|split].
    3: { simpl. congruence. }
    + split; [intros _|reflexivity]. rewrite E5. cbn [In]. auto 10.
    + intros _. split; [reflexivity|]. split; [cbn [In]; auto|].
      intros env messageID w. apply (Hrun (exporter.setFormat c "eml")). cbn [In]. auto.
  - assert (Hv : existsb (String.eqb (exporter.Format c)) ["eml"; "json"; "mbox"] = true
                 <-> In (exporter.Format c) ["eml"; "json"; "mbox"]) by apply existsb_eqb_In.
    destruct (existsb (String.eqb (exporter.Format c)) ["eml"; "json"; "mbox"]);
      cbn [negb snd fst].
    + assert (Hin : In (exporter.Format c) ["eml"; "json"; "mbox"]) by (apply Hv; reflexivity).
      split; [|split; [|congruence]].
      * split; [intros _|reflexivity]. repeat split; auto. right. exact Hin.
      * intros _. split; [reflexivity|]. split; [exact Hin|].
        intros env messageID w. apply Hrun. exact Hin.
    + split; [|split; [discriminate | reflexivity]].
      split; [discriminate|]. intros (_ & _ & _ & _ & [H|H]); [congruence|].
      apply Hv in H. discriminate.
Qed.


(** ** The requests of a batch *)

Section PoolCalls.

Context {R Acc : Type}.
Variable handler : string -> World -> R * World.
Variable collect : R -> Acc -> World -> Acc * World.
Variable finish : Acc -> World -> World.

(** The items of the batch, what holds of the world all along, the requests
    a call of the per-item function may make, and how many. *)
Variable items : list string.
Variable keeps : World -> Prop.
Variable allowed : apiCall -> Prop.
Variable bound : nat.

Hypothesis handler_calls :
  forall x w, In x items -> keeps w ->
    keeps (snd (handler x w))
    /\ exists extra, calls (snd (handler x w)) = calls w ++ extra
                     /\ Forall allowed extra /\ (length extra <= bound)%nat.
Hypothesis collect_calls :
  forall r a w, keeps w ->
    keeps (snd (collect r a w)) /\ calls (snd (collect r a w)) = calls w.
Hypothesis finish_calls :
  forall a w, keeps w -> keeps (finish a w) /\ calls (finish a w) = calls w.

Local Abbreviation state := (@pool.state R Acc).
Local Abbreviation step_fn := (pool.step_fn handler collect finish).
Local Abbreviation step := (pool.step handler collect finish).
Local Abbreviation ahead s :=
  (pool.toSend (pool.main s) ++ pool.jobs s ++ pool.runningItems (pool.workers s)).
#[warnings="-inconsistent-scopes"]
Local Abbreviation quota w0 s :=
  (keeps (pool.wld s)
   /\ Forall (fun x => In x items) (ahead s)
   /\ exists extra, calls (pool.wld s) = calls w0 ++ extra
                    /\ Forall allowed extra
                    /\ (length extra + bound * length (ahead s) <= bound * length items)%nat).

Lemma step_quota w0 a (s s' : state) :
  quota w0 s -> step_fn a s = Some s' -> quota w0 s'.
Proof.
  destruct s as [m js ws rs cl ac w]. unfold pool.step_fn. simpl.
  intros (Hk & Hin & extra & Hcalls & Hok & Hlen).
  destruct a as [|i|].
  - destruct m as [[|x rest]| |]; simpl in *.
    + intros [= <-]. simpl. eauto 10.
    + intros [= <-]. simpl. split; [exact Hk|]. split.
      * assert (Hp : rest ++ (js ++ [x]) ++ pool.runningItems ws
                     ≡ₚ x :: rest ++ js ++ pool.runningItems ws) by solve_Permutation.
        rewrite Hp. exact Hin.
      * exists extra. split; [exact Hcalls|]. split; [exact Hok|].
        rewrite !length_app in *. simpl in *. lia.
    + destruct rs as [|r rs].
      * destruct cl; intros [= <-]. simpl.
        destruct (finish_calls ac w Hk) as [Hk' Hc']. split; [exact Hk'|].
        split; [exact Hin|]. exists extra. rewrite Hc'. auto.
      * destruct (collect_calls r ac w Hk) as [Hk' Hc'].
        destruct (collect r ac w) as [a' w']. intros [= <-]. simpl in *.
        split; [exact Hk'|]. split; [exact Hin|]. exists extra. rewrite Hc'. auto.
    + discriminate.
  - destruct (ws !! i) as [[|x|]|] eqn:Hi; try discriminate.
    + destruct js as [|x rest].
      * destruct (pool.jobsClosed _); intros [= <-]; simpl.
        rewrite (runningItems_exit ws i Hi). eauto 10.
      * intros [= <-]. simpl. split; [exact Hk|].
        pose proof (runningItems_take ws i x Hi) as Hp. split.
        -- assert (Hq : pool.toSend m ++ rest ++ pool.runningItems (<[i:=pool.Running x]> ws)
                        ≡ₚ pool.toSend m ++ (x :: rest) ++ pool.runningItems ws)
             by (rewrite Hp; solve_Permutation).
           rewrite Hq. exact Hin.
        -- exists extra. split; [exact Hcalls|]. split; [exact Hok|].
           rewrite !length_app, Hp in *. simpl in *. lia.
    + pose proof (runningItems_done ws i x Hi) as Hp.
      assert (Hx : In x items).
      { rewrite Hp in Hin. rewrite !Forall_app in Hin. destruct Hin as (_ & _ & Hin).
        inversion Hin. assumption. }
      destruct (handler_calls x w Hx Hk) as (Hk' & more & Hc' & Hok' & Hlen').
      destruct (handler x w) as [r w']. intros [= <-]. simpl in *.
      split; [exact Hk'|]. split.
      * rewrite Hp in Hin. rewrite !Forall_app in *. destruct Hin as (H1 & H2 & H3).
        inversion H3. auto.
      * exists (extra ++ more). rewrite Hc', Hcalls, app_assoc. split; [reflexivity|].
        split; [apply Forall_app; auto|].
        rewrite !length_app, Hp in *. simpl in *. nia.
  - destruct (_ && _ && _)%bool; intros [= <-]. simpl. eauto 10.
Qed.

Lemma runningItems_waiting n : pool.runningItems (replicate n pool.Waiting) = [].
Proof. induction n as [|n IH]; [reflexivity | exact IH]. Qed.

(** Whatever the interleaving, the requests made by the time a batch
    returns are those of its calls of the per-item function: each is
    allowed, and there are at most [bound] of them per item. *)
Lemma returns_quota n a0 w0 (s : state) :
  keeps w0 ->
  rtc step (pool.init items n a0 w0) s ->
  keeps (pool.wld s)
  /\ exists extra, calls (pool.wld s) = calls w0 ++ extra
                   /\ Forall allowed extra
                   /\ (length extra <= bound * length items)%nat.
Proof.
  intros Hk Hrtc.
  assert (H0 : quota w0 (pool.init items n a0 w0 : state)).
  { simpl. rewrite runningItems_waiting, app_nil_r. split; [exact Hk|]. split.
    - apply List.Forall_forall. auto.
    - exists []. rewrite app_nil_r. split; [reflexivity|]. split; [constructor|].
      simpl. lia. }
  pose proof (rtc_keeps handler collect finish (fun s => quota w0 s)
                (step_quota w0) _ _ Hrtc H0) as (Hk' & _ & extra & Hc & Hok & Hlen).
  split; [exact Hk'|]. exists extra. split; [exact Hc|]. split; [exact Hok|]. lia.
Qed.

End PoolCalls.

(** ** The requests of an export *)

(** A request that reads the mailbox. *)
Local Abbreviation reads c :=
  (match c with MessagesList _ _ | MessagesGet _ _ => True | _ => False end).
Local Abbreviation fetches c :=
  (match c with MessagesGet _ _ => True | _ => False end).

(** exportSingleEmail asks for the message in full and then, in the formats
    eml and mbox, for its raw content; in the format json it asks once. *)
Lemma exportSingleEmail_calls e messageID w :
  exists extra,
    calls (snd (exporter.exportSingleEmail e messageID w))
    = calls w ++ MessagesGet messageID "full" :: extra
    /\ (extra = [] \/ exists id, extra = [MessagesGet id "raw"])
    /\ (exporter.Format (exporter.config e) = "json" -> extra = []).
Proof.
  unfold exporter.exportSingleEmail.
  destruct (getMessage _ _ _ _) as [message|err];
    [|exists []; simpl; auto].
  assert (Hpath : calls (snd (exporter.getOutputPath e message
                                (called (MessagesGet messageID "full") w)))
                  = calls w ++ [MessagesGet messageID "full"]).
  { unfold exporter.getOutputPath, MkdirAll.
    destruct (negb _); [reflexivity|]. destruct (mkdirError _ _); reflexivity. }
  destruct (exporter.getOutputPath e message _) as [[outputPath|err] w1];
    simpl in Hpath; [|exists []; simpl; auto].
  assert (Heml : exists id, calls (snd (exporter.exportAsEML e message outputPath w1))
                            = calls w ++ [MessagesGet messageID "full"; MessagesGet id "raw"]).
  { exists (Id message). unfold exporter.exportAsEML, WriteFile.
    destruct (getMessage _ _ _ _) as [raw|err]; simpl;
      [|rewrite Hpath, <- app_assoc; reflexivity].
    destruct (exporter.decodeBase64URL _) as [rawData|err]; simpl;
      [|rewrite Hpath, <- app_assoc; reflexivity].
    destruct (writeError _ _); simpl; rewrite Hpath, <- app_assoc; reflexivity. }
  assert (Hjson : calls (snd (exporter.exportAsJSON e message outputPath w1))
                  = calls w ++ [MessagesGet messageID "full"]).
  { unfold exporter.exportAsJSON, WriteFile.
    destruct (marshalMessage _ _) as [jsonData|err]; simpl; [|exact Hpath].
    destruct (writeError _ _); simpl; exact Hpath. }
  unfold exporter.exportAsMbox.
  destruct (String.eqb_spec (exporter.Format (exporter.config e)) "eml") as [Ef|Ef].
  { destruct Heml as [id Heml].
    destruct (exporter.exportAsEML e message outputPath w1) as [[size|err] w2];
      simpl in *; exists [MessagesGet id "raw"]; rewrite Heml;
      (split; [reflexivity|]); (split; [eauto|]); rewrite Ef; discriminate. }
  destruct (String.eqb_spec (exporter.Format (exporter.config e)) "json") as [Ej|Ej].
  { destruct (exporter.exportAsJSON e message outputPath w1) as [[size|err] w2];
      simpl in *; exists []; rewrite Hjson; auto. }
  destruct (String.eqb_spec (exporter.Format (exporter.config e)) "mbox") as [Em|Em].
  { destruct Heml as [id Heml].
    destruct (exporter.exportAsEML e message outputPath w1) as [[size|err] w2];
      simpl in *; exists [MessagesGet id "raw"]; rewrite Heml;
      (split; [reflexivity|]); (split; [eauto|]); congruence. }
  simpl. exists []. rewrite Hpath. split; [reflexivity|]. split; [auto|]. congruence.
Qed.

Lemma export_collect_calls r a w : calls (snd (exporter.collect r a w)) = calls w.
Proof.
  unfold exporter.collect. destruct a as [res ps]. destruct (exporter.RError r); reflexivity.
Qed.

Lemma export_finish_calls e a w : calls (exporter.finish e a w) = calls w.
Proof.
  unfold exporter.finish, exporter.saveProcessedEmailsFilter, WriteFile.
  destruct (snd a); [reflexivity|].
  destruct (marshalProcessed _ _); [|reflexivity].
  destruct (writeError _ _); reflexivity.
Qed.

(** The requests of exportEmails: reads of single messages, at most two for
    each identifier, and one for each in the format json. *)
Lemma exportEmails_calls e ids w r w' :
  exporter.exportEmails e ids w r w' ->
  exists gets,
    calls w' = calls w ++ gets
    /\ Forall (fun c => fetches c) gets
    /\ (length gets <= 2 * length ids)%nat.
Proof.
  intros (s & Hrtc & _ & _ & <-).
  assert (Hh : forall x w0, In x ids -> True ->
             True /\ exists extra,
               calls (snd (exporter.exportWorker e x w0)) = calls w0 ++ extra
               /\ Forall (fun c => fetches c) extra /\ (length extra <= 2)%nat).
  { intros x w0 _ _. split; [exact I|].
    unfold exporter.exportWorker.
    destruct (exportSingleEmail_calls e x w0) as (extra & Hc & Hextra & _).
    destruct (exporter.exportSingleEmail e x w0) as [[size err] w1]. simpl in *.
    exists (MessagesGet x "full" :: extra). split; [exact Hc|].
    destruct Hextra as [->|[id ->]]; simpl; split; repeat constructor. }
  destruct (returns_quota (exporter.exportWorker e) exporter.collect (exporter.finish e)
              ids (fun _ => True) (fun c => fetches c) 2 Hh
              (fun r0 a w0 _ => conj I (export_collect_calls r0 a w0))
              (fun a w0 _ => conj I (export_finish_calls e a w0))
              _ _ _ s I Hrtc)
    as (_ & gets & Hc & Hok & Hlen).
  eauto.
Qed.

Local Abbreviation lists c :=
  (match c with MessagesList _ _ => True | _ => False end).

(** The listing: one request per page, in order, up to the last page or the
    first page that fails. *)
Lemma searchPages_calls q pages i messageIDs w :
  exists n,
    calls (snd (exporter.searchPages q pages i messageIDs w))
    = calls w ++ map (MessagesList q) (seq i n)
    /\ (1 <= n <= Nat.max 1 (length pages))%nat
    /\ (forall idss, pages = map Ok idss ->
          n = Nat.max 1 (length pages)
          /\ fst (exporter.searchPages q pages i messageIDs w)
             = Ok (messageIDs ++ concat idss))
    /\ (forall idss err rest, pages = map Ok idss ++ Err err :: rest ->
          n = S (length idss)
          /\ fst (exporter.searchPages q pages i messageIDs w)
             = Err (wrap "failed to list messages" err)).
Proof.
  revert i messageIDs w. induction pages as [|p pages IH]; intros i messageIDs w.
  - exists 1%nat. simpl. split; [reflexivity|]. split; [lia|]. split.
    + intros [|ids idss]; [|discriminate]. intros _. simpl. rewrite app_nil_r. auto.
    + intros [|ids idss] err rest; discriminate.
  - cbn [exporter.searchPages]. destruct p as [ids|e].
    + destruct pages as [|p' pages'].
      * exists 1%nat. simpl. split; [reflexivity|]. split; [lia|]. split.
        -- intros [|ids' [|? ?]]; try discriminate. intros [= <-]. simpl.
           rewrite app_nil_r. auto.
        -- intros [|ids' [|? ?]] err rest; try discriminate.
      * destruct (IH (S i) (messageIDs ++ ids) (called (MessagesList q i) w))
          as (n & Hc & Hn & Hok & Herr).
        exists (S n). split.
        { rewrite Hc. simpl. rewrite <- app_assoc. reflexivity. }
        split; [simpl in *; lia|]. split.
        -- intros [|ids' idss]; [discriminate|]. intros [= <- Hp].
           destruct (Hok idss Hp) as [-> ->]. simpl. rewrite app_assoc. split; [lia | reflexivity].
        -- intros [|ids' idss] err rest; [discriminate|]. intros [= <- Hp].
           destruct (Herr idss err rest Hp) as [-> ->]. auto.
    + exists 1%nat. simpl. split; [reflexivity|]. split; [lia|]. split.
      * intros [|ids' idss]; discriminate.
      * intros [|ids' idss] err rest; [|discriminate]. intros [= <- _]. auto.
Qed.

Lemma searchPages_frame q pages i messageIDs w :
  files (snd (exporter.searchPages q pages i messageIDs w)) = files w
  /\ dirs (snd (exporter.searchPages q pages i messageIDs w)) = dirs w
  /\ logs (snd (exporter.searchPages q pages i messageIDs w)) = logs w
  /\ clock (snd (exporter.searchPages q pages i messageIDs w)) = clock w.
Proof.
  revert i messageIDs w. induction pages as [|p rest IH]; intros i ids w; simpl; [auto|].
  destruct p as [found|err]; [|auto].
  destruct rest; [auto|].
  exact (IH (S i) (ids ++ found) (called (MessagesList q i) w)).
Qed.

(** X12. searchEmails asks for the pages of the listing one after the other.
    If every page is served, it returns the identifiers of all the pages in
    order, after one request per page; if a page fails, it returns the error,
    and has asked for no page after that one. It does nothing else. *)
Theorem searchEmails_reads_every_page e f w :
  (forall idss,
      idss <> [] ->
      listPages (gmailService (exporter.env e)) (calls w) (filters.BuildGmailQuery f)
      = map Ok idss ->
      fst (exporter.searchEmails e f w) = Ok (concat idss)
      /\ calls (snd (exporter.searchEmails e f w))
         = calls w ++ map (MessagesList (filters.BuildGmailQuery f)) (seq 0 (length idss)))
  /\ (forall idss err rest,
         listPages (gmailService (exporter.env e)) (calls w) (filters.BuildGmailQuery f)
         = map Ok idss ++ Err err :: rest ->
         fst (exporter.searchEmails e f w) = Err (wrap "failed to list messages" err)
         /\ calls (snd (exporter.searchEmails e f w))
            = calls w ++ map (MessagesList (filters.BuildGmailQuery f))
                             (seq 0 (S (length idss))))
  /\ files (snd (exporter.searchEmails e f w)) = files w
  /\ dirs (snd (exporter.searchEmails e f w)) = dirs w
  /\ logs (snd (exporter.searchEmails e f w)) = logs w
  /\ clock (snd (exporter.searchEmails e f w)) = clock w.
Proof.
  unfold exporter.searchEmails. cbn zeta.
  set (q := filters.BuildGmailQuery f).
  set (pages := listPages (gmailService (exporter.env e)) (calls w) q).
  destruct (searchPages_calls q pages 0 [] w) as (n & Hc & Hn & Hok & Herr).
  split; [|split; [|apply searchPages_frame]].
  - intros idss Hne Hp. destruct (Hok idss Hp) as [-> ->]. split; [reflexivity|].
    rewrite Hc, Hp, length_map. destruct idss; [congruence|]. reflexivity.
  - intros idss err rest Hp. destruct (Herr idss err rest Hp) as [-> ->].
    split; [reflexivity | exact Hc].
Qed.

Lemma Forall_map_list q l : Forall (fun c => lists c) (map (MessagesList q) l).
Proof. induction l; simpl; constructor; auto. Qed.

Lemma exportPrepare_calls e f w :
  exists ls, calls (snd (exporter.exportPrepare e f w)) = calls w ++ ls
             /\ Forall (fun c => lists c) ls.
Proof.
  unfold exporter.exportPrepare, exporter.exportSearch, exporter.searchEmails, Now, MkdirAll.
  cbn zeta.
  destruct (filters.Validate f); [exists []; simpl; rewrite app_nil_r; auto|].
  destruct (mkdirError _ _); [exists []; simpl; rewrite app_nil_r; auto|].
  match goal with
  | |- context [exporter.searchPages ?q ?ps ?i ?ids ?w0] =>
      destruct (searchPages_calls q ps i ids w0) as (n & Hc & _);
      destruct (exporter.searchPages q ps i ids w0) as [[found|err] w1]
  end; simpl in *.
  - exists (map (MessagesList (filters.BuildGmailQuery f)) (seq 0 n)).
    split; [|apply Forall_map_list]. destruct ((0 <? _) && _)%bool; exact Hc.
  - exists (map (MessagesList (filters.BuildGmailQuery f)) (seq 0 n)).
    split; [exact Hc | apply Forall_map_list].
Qed.

Lemma exportFinish_calls e t0 t1 ids r w :
  calls (snd (exporter.exportFinish e t0 t1 ids r w)) = calls w.
Proof.
  unfold exporter.exportFinish, Now. cbn zeta.
  match goal with
  | |- context [metrics.Save ?env ?pth ?d ?w0] =>
      pose proof (metrics_Save_calls env pth d w0) as Hsave;
      destruct (metrics.Save env pth d w0) as [[err|] w2]
  end; simpl in *; exact Hsave.
Qed.

(** X13. Export only reads the mailbox: its requests are listings, followed by
    reads of single messages; there are at most two reads for each message it
    reports as matched, so at most twice the limit when one is set, and none
    when it returns an error. *)
Theorem export_only_reads_the_mailbox e f w out w' :
  exporter.Export e f w out w' ->
  exists listings gets,
    calls w' = calls w ++ listings ++ gets
    /\ Forall (fun c => match c with MessagesList _ _ => True | _ => False end) listings
    /\ Forall (fun c => match c with MessagesGet _ _ => True | _ => False end) gets
    /\ (forall r, out = Ok r -> (length gets <= 2 * exporter.TotalMatched r)%nat)
    /\ (0 < exporter.Limit (exporter.config e) ->
        (length gets <= 2 * Z.to_nat (exporter.Limit (exporter.config e)))%nat)
    /\ (is_ok out = false -> gets = []).
Proof.
  unfold exporter.Export.
  destruct (exportPrepare_calls e f w) as (ls & Hls & Hlists).
  destruct (exporter.exportPrepare e f w) as [[[[t0 t1] ids]|err] w1] eqn:Hprep;
    simpl in Hls.
  - intros (r & w2 & Hrun & -> & ->).
    destruct (exportEmails_calls _ _ _ _ _ Hrun) as (gets & Hgets & Hok & Hlen).
    exists ls, gets. rewrite exportFinish_calls, Hgets, Hls, <- app_assoc.
    split; [reflexivity|]. split; [exact Hlists|]. split; [exact Hok|].
    destruct (exportPrepare_limited _ _ _ _ _ _ _ Hprep) as (found & w0 & _ & Hids).
    split; [|split; [|discriminate]].
    + intros r' Hr'.
      assert (r' = fst (exporter.exportFinish e t0 t1 ids r w2)) as -> by congruence.
      destruct (exportFinish_fields e t0 t1 ids r w2) as (-> & _). exact Hlen.
    + intros Hlim. subst ids. rewrite applyLimit_length in Hlen.
      destruct (Z.ltb_spec 0 (exporter.Limit (exporter.config e))); [|lia].
      destruct (Z.ltb_spec (exporter.Limit (exporter.config e)) (len found));
        simpl in Hlen; [exact Hlen|]. unfold len in *. lia.
  - intros [-> ->]. exists ls, []. rewrite app_nil_r.
    split; [exact Hls|]. split; [exact Hlists|]. split; [constructor|].
    split; [discriminate|]. split; [simpl; lia | reflexivity].
Qed.

Lemma export_only_reads_the_mailbox_witness :
  exists r w',
    exporter.Export (scenario.theExporter 1 3 "eml") scenario.invoiceFilter scenario.world0
                    (Ok r) w'
    /\ exists listings gets,
        calls w' = calls scenario.world0 ++ listings ++ gets
        /\ Forall (fun c => match c with MessagesList _ _ => True | _ => False end) listings
        /\ Forall (fun c => match c with MessagesGet _ _ => True | _ => False end) gets
        /\ (forall r0, Ok r = Ok r0 -> (length gets <= 2 * exporter.TotalMatched r0)%nat)
        /\ (0 < 1 -> (length gets <= 2 * Z.to_nat 1)%nat)
        /\ (is_ok (Ok r) = false -> gets = []).
Proof.
  destruct (exporter.ExportRun (scenario.theExporter 1 3 "eml") scenario.invoiceFilter
                               scenario.world0) as [[[r|err] w']|] eqn:E;
    [|vm_compute in E; discriminate|vm_compute in E; discriminate].
  exists r, w'. split.
  - apply ExportRun_sound. exact E.
  - exact (export_only_reads_the_mailbox
             (scenario.theExporter 1 3 "eml") scenario.invoiceFilter scenario.world0
             (Ok r) w' (ExportRun_sound _ _ _ _ _ E)).
Defined.

(** X14. Export stops at the first step that fails. An invalid filter is
    reported before anything is done; a refused output directory before any
    request; a failed listing before any message is read or any file written. *)
Theorem export_stops_at_the_first_failure e f w out w' :
  exporter.Export e f w out w' ->
  (forall err,
      filters.Validate f = Some err ->
      out = Err (wrap "invalid filter configuration" err)
      /\ calls w' = calls w /\ files w' = files w /\ dirs w' = dirs w)
  /\ (forall err,
         filters.Validate f = None ->
         mkdirError (exporter.env e) (exporter.OutputDir (exporter.config e)) = Some err ->
         out = Err (wrap "failed to create output directory" err)
         /\ calls w' = calls w /\ files w' = files w /\ dirs w' = dirs w)
  /\ (forall idss err rest,
         filters.Validate f = None ->
         mkdirError (exporter.env e) (exporter.OutputDir (exporter.config e)) = None ->
         listPages (gmailService (exporter.env e)) (calls w) (filters.BuildGmailQuery f)
         = map Ok idss ++ Err err :: rest ->
         out = Err (wrap "failed to search emails" (wrap "failed to list messages" err))
         /\ calls w' = calls w ++ map (MessagesList (filters.BuildGmailQuery f))
                                      (seq 0 (S (length idss)))
         /\ files w' = files w
         /\ dirs w' = {[exporter.OutputDir (exporter.config e)]} ∪ dirs w).
Proof.
  unfold exporter.Export, exporter.exportPrepare, exporter.exportSearch, Now, MkdirAll.
  cbn zeta. intros H. split; [|split].
  - intros err Hv. rewrite Hv in H. destruct H as [-> ->]. auto.
  - intros err Hv Hm. rewrite Hv, Hm in H. destruct H as [-> ->]. auto.
  - intros idss err rest Hv Hm Hp. rewrite Hv, Hm in H.
    unfold exporter.searchEmails in H. cbn zeta in H. simpl calls in H.
    rewrite Hp in H.
    match type of H with
    | context [exporter.searchPages ?q ?ps ?i ?ids ?w0] =>
        destruct (searchPages_calls q ps i ids w0) as (n & Hc & _ & _ & Herr);
        destruct (searchPages_frame q ps i ids w0) as (Hf & Hd & _);
        destruct (Herr idss err rest eq_refl) as [-> Hfst];
        destruct (exporter.searchPages q ps i ids w0) as [[found|err'] w1]
    end; simpl in *; [discriminate|].
    injection Hfst as ->. destruct H as [-> ->]. auto.
Qed.

Lemma export_stops_at_the_first_failure_witness :
  exists out w',
    exporter.Export (scenario.offlineExporter 2) scenario.invoiceFilter scenario.world0
                    out w'
    /\ out = Err (wrap "failed to search emails"
                       (wrap "failed to list messages" "connection refused"))
    /\ calls w' = [MessagesList "subject:(Invoice)" 0%nat]
    /\ files w' = files scenario.world0
    /\ dirs w' = {["out"]} ∪ dirs scenario.world0.
Proof.
  destruct (exporter.ExportRun (scenario.offlineExporter 2) scenario.invoiceFilter
                               scenario.world0) as [[out w']|] eqn:E;
    [|vm_compute in E; discriminate].
  exists out, w'. split; [apply ExportRun_sound; exact E|].
  exact (proj2 (proj2 (export_stops_at_the_first_failure
                         (scenario.offlineExporter 2) scenario.invoiceFilter
                         scenario.world0 out w' (ExportRun_sound _ _ _ _ _ E)))
           [] "connection refused" [] eq_refl eq_refl eq_refl).
Defined.

(** ** What a batch collects *)

Section PoolResults.

Context {R Acc : Type}.
Variable handler : string -> World -> R * World.
Variable collect : R -> Acc -> World -> Acc * World.
Variable finish : Acc -> World -> World.

(** What holds of every result a worker sends, and of the accumulator of
    the collecting loop. *)
Variable sound : R -> Prop.
Variable tidy : Acc -> Prop.

Hypothesis handler_sound : forall x w, sound (fst (handler x w)).
Hypothesis collect_tidy :
  forall r a w, sound r -> tidy a -> tidy (fst (collect r a w)).

Local Abbreviation state := (@pool.state R Acc).
Local Abbreviation step_fn := (pool.step_fn handler collect finish).
Local Abbreviation step := (pool.step handler collect finish).

Lemma step_tidy a (s s' : state) :
  tidy (pool.acc s) /\ Forall sound (pool.results s) ->
  step_fn a s = Some s' ->
  tidy (pool.acc s') /\ Forall sound (pool.results s').
Proof.
  destruct s as [m js ws rs cl ac w]. unfold pool.step_fn. simpl. intros [Ht Hs].
  destruct a as [|i|].
  - destruct m as [[|x rest]| |]; simpl in *; try (intros [= <-]; simpl; auto; fail).
    destruct rs as [|r rs].
    + destruct cl; intros [= <-]. simpl. auto.
    + inversion Hs; subst.
      pose proof (collect_tidy r ac w) as Hc.
      destruct (collect r ac w) as [a' w']. intros [= <-]. simpl in *. auto.
  - destruct (ws !! i) as [[|x|]|] eqn:Hi; try discriminate.
    + destruct js as [|x rest].
      * destruct (pool.jobsClosed _); intros [= <-]; simpl. auto.
      * intros [= <-]. simpl. auto.
    + pose proof (handler_sound x w) as Hh.
      destruct (handler x w) as [r w']. intros [= <-]. simpl in *.
      split; [exact Ht|]. apply Forall_app. auto.
  - destruct (_ && _ && _)%bool; intros [= <-]. simpl. auto.
Qed.

Lemma returns_tidy items n a0 w0 (s : state) :
  tidy a0 -> rtc step (pool.init items n a0 w0) s -> tidy (pool.acc s).
Proof.
  intros H0 Hrtc.
  apply (rtc_keeps handler collect finish
           (fun s => tidy (pool.acc s) /\ Forall sound (pool.results s))
           step_tidy _ _ Hrtc).
  simpl. split; [exact H0 | constructor].
Qed.

End PoolResults.

(** ** What an export reports *)

(** The sum of the sizes of the records of a manifest. *)
Local Abbreviation totalOf ps := (fold_right Z.add 0 (map Size ps)).

Lemma wrap64_add_l a b : wrap64 (wrap64 a + b) = wrap64 (a + b).
Proof.
  unfold wrap64. rewrite (Z.mod_eq (a + 2 ^ 63) (2 ^ 64)) by lia.
  set (q := (a + 2 ^ 63) / 2 ^ 64).
  replace (a + 2 ^ 63 - 2 ^ 64 * q - 2 ^ 63 + b + 2 ^ 63)
    with (a + b + 2 ^ 63 + (- q) * 2 ^ 64) by ring.
  rewrite Z.mod_add by lia. reflexivity.
Qed.

Lemma wrap64_small a : - 2 ^ 63 <= a < 2 ^ 63 -> wrap64 a = a.
Proof. intros H. unfold wrap64. rewrite Z.mod_small; lia. Qed.

Lemma totalOf_app ps qs : totalOf (ps ++ qs) = totalOf ps + totalOf qs.
Proof. induction ps as [|p ps IH]; simpl; [reflexivity | rewrite IH; ring]. Qed.

(** A result that carries no error carries a size that is not negative, and
    a result that carries one carries the size 0. *)
Lemma exportSingleEmail_size e messageID w :
  match fst (exporter.exportSingleEmail e messageID w) with
  | (size, None) => 0 <= size
  | (size, Some _) => size = 0
  end.
Proof.
  unfold exporter.exportSingleEmail.
  destruct (getMessage _ _ _ _) as [message|err]; [|reflexivity].
  destruct (exporter.getOutputPath e message _) as [[outputPath|err] w1]; [|reflexivity].
  assert (Heml : match fst (exporter.exportAsEML e message outputPath w1) with
                 | Ok size => 0 <= size
                 | Err _ => True
                 end).
  { unfold exporter.exportAsEML, WriteFile.
    destruct (getMessage _ _ _ _) as [raw|err]; [|exact I].
    destruct (exporter.decodeBase64URL _) as [rawData|err]; [|exact I].
    destruct (writeError _ _); simpl; [exact I | unfold len; lia]. }
  assert (Hjson : match fst (exporter.exportAsJSON e message outputPath w1) with
                  | Ok size => 0 <= size
                  | Err _ => True
                  end).
  { unfold exporter.exportAsJSON, WriteFile.
    destruct (marshalMessage _ _) as [jsonData|err]; [|exact I].
    destruct (writeError _ _); simpl; [exact I | unfold len; lia]. }
  unfold exporter.exportAsMbox.
  destruct (String.eqb _ "eml").
  { destruct (exporter.exportAsEML e message outputPath w1) as [[size|err] w2];
      simpl in *; auto. }
  destruct (String.eqb _ "json").
  { destruct (exporter.exportAsJSON e message outputPath w1) as [[size|err] w2];
      simpl in *; auto. }
  destruct (String.eqb _ "mbox").
  { destruct (exporter.exportAsEML e message outputPath w1) as [[size|err] w2];
      simpl in *; auto. }
  reflexivity.
Qed.

(** The accumulator of exportEmails, at every turn of its loop. *)
Local Abbreviation tidyExport a :=
  (exporter.TotalExported (fst a) = length (snd a)
   /\ exporter.TotalFailed (fst a) = length (exporter.Failures (fst a))
   /\ exporter.TotalSize (fst a) = wrap64 (totalOf (snd a))
   /\ exporter.TotalMatched (fst a) = 0%nat
   /\ exporter.Duration (fst a) = 0
   /\ Forall (fun p => 0 <= Size p /\ PSubject p = EmptyString /\ PFrom p = EmptyString
                       /\ Date p = 0) (snd a)).

Lemma export_collect_tidy (r : exporter.exportResult) (a : exporter.accum) w :
  (exporter.RError r = None -> 0 <= exporter.RSize r) ->
  tidyExport a -> tidyExport (fst (exporter.collect r a w)).
Proof.
  destruct a as [res ps]. unfold exporter.collect. simpl.
  intros Hr (H1 & H2 & H3 & H4 & H5 & H6).
  destruct (exporter.RError r) as [err|]; simpl.
  - rewrite length_app. simpl. repeat split; auto; lia.
  - rewrite length_app, totalOf_app. simpl. rewrite H3, wrap64_add_l, Z.add_0_r.
    repeat split; auto; try lia.
    apply Forall_app. split; [exact H6|]. repeat constructor. simpl. auto.
Qed.

(** X15. What exportEmails reports adds up, whatever the interleaving: one
    failure record per failed item; one manifest record per exported item,
    with the size of the file and without subject, sender or date; and the
    total size is the sum of the sizes of the manifest records (modulo 2^64,
    so the sum itself whenever it fits). *)
Theorem export_result_adds_up e ids w r w' :
  exporter.exportEmails e ids w r w' ->
  exporter.TotalFailed r = length (exporter.Failures r)
  /\ exists processedEmails,
      exporter.TotalExported r = length processedEmails
      /\ exporter.TotalSize r = wrap64 (fold_right Z.add 0 (map Size processedEmails))
      /\ (fold_right Z.add 0 (map Size processedEmails) < 2 ^ 63 ->
          exporter.TotalSize r = fold_right Z.add 0 (map Size processedEmails))
      /\ Forall (fun p => 0 <= Size p /\ PSubject p = EmptyString /\ PFrom p = EmptyString
                          /\ Date p = 0) processedEmails
      /\ (processedEmails <> [] ->
          forall data,
            marshalProcessed (exporter.env e) processedEmails = Ok data ->
            writeError (exporter.env e) (exporter.manifestPath e) = None ->
            content <$> (files w' !! exporter.manifestPath e) = Some data).
Proof.
  intros (s & Hrtc & Hfin & <- & <-).
  assert (Htidy : tidyExport (pool.acc s)).
  { assert (Hh : forall x w0,
               exporter.RError (fst (exporter.exportWorker e x w0)) = None ->
               0 <= exporter.RSize (fst (exporter.exportWorker e x w0))).
    { intros x w0. unfold exporter.exportWorker.
      pose proof (exportSingleEmail_size e x w0) as H.
      destruct (exporter.exportSingleEmail e x w0) as [[size err] w1]. simpl in *.
      intros ->. exact H. }
    refine (returns_tidy (exporter.exportWorker e) exporter.collect (exporter.finish e)
              (fun r => exporter.RError r = None -> 0 <= exporter.RSize r)
              (fun a => tidyExport a) Hh export_collect_tidy _ _ _ _ s _ Hrtc).
    simpl. repeat split; constructor. }
  pose proof (rtc_keeps (exporter.exportWorker e) exporter.collect (exporter.finish e)
                (exporter.manifestInv e w) (manifestInv_step e w) _ _ Hrtc
                (manifestInv_init e ids w)) as (_ & _ & _ & Hret).
  destruct (Hret Hfin) as (wp & Hw & _).
  destruct Htidy as (H1 & H2 & H3 & _ & _ & H6).
  split; [exact H2|]. exists (snd (pool.acc s)).
  split; [exact H1|]. split; [exact H3|]. split; [|split; [exact H6|]].
  - intros Hlt. rewrite H3. apply wrap64_small. split; [|exact Hlt].
    assert (0 <= totalOf (snd (pool.acc s))); [|lia].
    clear -H6. induction H6 as [|p ps [Hp _] _ IH]; simpl; lia.
  - intros Hne data Hm Hwr. rewrite Hw.
    destruct (pool.acc s) as [res ps]. simpl in *. apply finish_manifest; assumption.
Qed.

Lemma export_result_adds_up_witness :
  exists r w',
    exporter.exportEmails (scenario.theExporter 0 3 "eml") ["m1"; "m2"; "m3"]
                          scenario.world0 r w'
    /\ exporter.TotalFailed r = length (exporter.Failures r)
    /\ exists processedEmails,
        exporter.TotalExported r = length processedEmails
        /\ exporter.TotalSize r = wrap64 (fold_right Z.add 0 (map Size processedEmails))
        /\ (fold_right Z.add 0 (map Size processedEmails) < 2 ^ 63 ->
            exporter.TotalSize r = fold_right Z.add 0 (map Size processedEmails))
        /\ Forall (fun p => 0 <= Size p /\ PSubject p = EmptyString
                            /\ PFrom p = EmptyString /\ Date p = 0) processedEmails
        /\ (processedEmails <> [] ->
            forall data,
              scenario.manifestText processedEmails = data ->
              content <$> (files w' !! "out/processed_emails.json") = Some data).
Proof.
  destruct (exporter.exportEmailsRun (scenario.theExporter 0 3 "eml") ["m1"; "m2"; "m3"]
                                     scenario.world0) as [[r w']|] eqn:E;
    [|vm_compute in E; discriminate].
  exists r, w'. split; [apply exportEmailsRun_sound; exact E|].
  destruct (export_result_adds_up (scenario.theExporter 0 3 "eml") ["m1"; "m2"; "m3"]
              scenario.world0 r w' (exportEmailsRun_sound _ _ _ _ _ E))
    as (H1 & ps & H2 & H3 & H4 & H5 & H6).
  split; [exact H1|]. exists ps. repeat (split; [assumption|]).
  intros Hne data Hdata. apply (H6 Hne data); [|reflexivity].
  simpl. rewrite Hdata. reflexivity.
Defined.

(** ** One message *)


Lemma WriteFile_err env name data p w :
  fst (WriteFile env name data p w) <> None -> snd (WriteFile env name data p w) = w.
Proof. unfold WriteFile. destruct (writeError env name); simpl; congruence. Qed.




(** ** The requests of an import *)

Lemma decodeBase64URL_encoded d :
  exporter.decodeBase64URL (importer.encodeBase64URL d) = Ok d.
Proof.
  unfold exporter.decodeBase64URL, importer.encodeBase64URL.
  change "="%char with padChar.
  rewrite addPadding_TrimRight, ReplaceAll_url_to_std.
  apply DecodeString_EncodeToString.
Qed.

(** What importSingleEmail sends for the file at [path]. *)
#[warnings="-inconsistent-scopes"]
Local Abbreviation sendsFile env fs path c :=
  (exists f raw,
      fs !! path = Some f /\ c = MessagesImport raw
      /\ ((ToLower (Ext path) = ".json" /\ unmarshalRaw env (content f) = Ok raw)
          \/ ((ToLower (Ext path) = ".eml" \/ ToLower (Ext path) = ".mbox")
              /\ raw = importer.encodeBase64URL (content f)
              /\ exporter.decodeBase64URL raw = Ok (content f)))).

Lemma importRaw_calls i raw size w :
  calls (snd (importer.importRaw i raw size w)) = calls w ++ [MessagesImport raw]
  /\ files (snd (importer.importRaw i raw size w)) = files w
  /\ dirs (snd (importer.importRaw i raw size w)) = dirs w
  /\ (snd (fst (importer.importRaw i raw size w)) = None ->
      fst (fst (importer.importRaw i raw size w)) = size)
  /\ (snd (fst (importer.importRaw i raw size w)) <> None ->
      fst (fst (importer.importRaw i raw size w)) = 0).
Proof.
  unfold importer.importRaw. destruct (importMessage _ _ _); simpl; repeat split; congruence.
Qed.

(** importSingleEmail reads the file and makes at most one request, which
    carries the content of the file: base64url-encoded for an .eml or .mbox
    file, the raw field of the document for a .json file.  A file that
    cannot be read, that has another extension or whose JSON cannot be parsed
    gives an error and no request.  No file is written. *)
Lemma importSingleEmail_calls i filePath w :
  files (snd (importer.importSingleEmail i filePath w)) = files w
  /\ dirs (snd (importer.importSingleEmail i filePath w)) = dirs w
  /\ exists extra,
      calls (snd (importer.importSingleEmail i filePath w)) = calls w ++ extra
      /\ (extra = [] \/ exists c, extra = [c] /\ sendsFile (importer.env i) (files w) filePath c)
      /\ (snd (fst (importer.importSingleEmail i filePath w)) = None ->
          extra <> []
          /\ exists f, files w !! filePath = Some f
                       /\ fst (fst (importer.importSingleEmail i filePath w)) = len (content f))
      /\ (snd (fst (importer.importSingleEmail i filePath w)) <> None ->
          fst (fst (importer.importSingleEmail i filePath w)) = 0).
Proof.
  unfold importer.importSingleEmail, ReadFile.
  destruct (files w !! filePath) as [f|] eqn:Hf.
  2: { split; [reflexivity|]. split; [reflexivity|]. exists []. simpl.
       rewrite app_nil_r. repeat split; auto; discriminate. }
  assert (Hsend : forall raw size,
             let out := importer.importRaw i raw size w in
             size = len (content f) ->
             ((ToLower (Ext filePath) = ".json"
               /\ unmarshalRaw (importer.env i) (content f) = Ok raw)
              \/ ((ToLower (Ext filePath) = ".eml" \/ ToLower (Ext filePath) = ".mbox")
                  /\ raw = importer.encodeBase64URL (content f)
                  /\ exporter.decodeBase64URL raw = Ok (content f))) ->
             files (snd out) = files w /\ dirs (snd out) = dirs w
             /\ exists extra,
                 calls (snd out) = calls w ++ extra
                 /\ (extra = [] \/ exists c, extra = [c]
                       /\ sendsFile (importer.env i) (files w) filePath c)
                 /\ (snd (fst out) = None ->
                     extra <> []
                     /\ exists f0, Some f = Some f0 /\ fst (fst out) = len (content f0))
                 /\ (snd (fst out) <> None -> fst (fst out) = 0)).
  { intros raw size out -> Hkind. subst out.
    destruct (importRaw_calls i raw (len (content f)) w) as (Hc & Hfs & Hd & Hok & Herr).
    split; [exact Hfs|]. split; [exact Hd|]. exists [MessagesImport raw].
    split; [exact Hc|]. split.
    - right. exists (MessagesImport raw). split; [reflexivity|]. exists f, raw. auto.
    - split; [|exact Herr]. intros H. split; [discriminate|]. exists f. auto. }
  destruct (String.eqb_spec (ToLower (Ext filePath)) ".eml") as [Ee|Ee].
  { unfold importer.importEMLFile. rewrite Hf in Hsend. apply Hsend; [reflexivity|].
    right. split; [auto|]. split; [reflexivity | apply decodeBase64URL_encoded]. }
  destruct (String.eqb_spec (ToLower (Ext filePath)) ".json") as [Ej|Ej].
  { unfold importer.importJSONFile.
    destruct (unmarshalRaw (importer.env i) (content f)) as [raw|err] eqn:Hu.
    - rewrite Hf in Hsend. apply Hsend; [reflexivity|]. left. auto.
    - split; [reflexivity|]. split; [reflexivity|]. exists []. simpl.
      rewrite app_nil_r. repeat split; auto; discriminate. }
  destruct (String.eqb_spec (ToLower (Ext filePath)) ".mbox") as [Em|Em].
  { unfold importer.importMboxFile. rewrite Hf in Hsend. apply Hsend; [reflexivity|].
    right. split; [auto|]. split; [reflexivity | apply decodeBase64URL_encoded]. }
  split; [reflexivity|]. split; [reflexivity|]. exists []. simpl.
  rewrite app_nil_r. repeat split; auto; discriminate.
Qed.

Lemma import_collect_frame r a w :
  files (snd (importer.collect r a w)) = files w
  /\ calls (snd (importer.collect r a w)) = calls w.
Proof. unfold importer.collect. destruct (importer.RError r); simpl; auto. Qed.

(** The requests of a batch of imports, and the files it leaves alone. *)
Lemma import_sends_files_lemma i emailFiles w r w' :
  importer.importEmails i emailFiles w r w' ->
  files w' = files w
  /\ exists sent,
      calls w' = calls w ++ sent
      /\ (length sent <= length emailFiles)%nat
      /\ Forall (fun c =>
                   exists path f raw,
                     In path emailFiles /\ files w !! path = Some f
                     /\ c = MessagesImport raw
                     /\ ((ToLower (Ext path) = ".json"
                          /\ unmarshalRaw (importer.env i) (content f) = Ok raw)
                         \/ ((ToLower (Ext path) = ".eml" \/ ToLower (Ext path) = ".mbox")
                             /\ raw = importer.encodeBase64URL (content f)
                             /\ exporter.decodeBase64URL raw = Ok (content f))))
                sent.
Proof.
  intros (s & Hrtc & _ & _ & <-).
  set (allowed := fun c : apiCall =>
         exists path f raw,
           In path emailFiles /\ files w !! path = Some f
           /\ c = MessagesImport raw
           /\ ((ToLower (Ext path) = ".json"
                /\ unmarshalRaw (importer.env i) (content f) = Ok raw)
               \/ ((ToLower (Ext path) = ".eml" \/ ToLower (Ext path) = ".mbox")
                   /\ raw = importer.encodeBase64URL (content f)
                   /\ exporter.decodeBase64URL raw = Ok (content f)))).
  assert (Hh : forall x w0, In x emailFiles -> files w0 = files w ->
             files (snd (importer.importWorker i x w0)) = files w
             /\ exists extra,
                 calls (snd (importer.importWorker i x w0)) = calls w0 ++ extra
                 /\ Forall allowed extra /\ (length extra <= 1)%nat).
  { intros x w0 Hx Hw0. unfold importer.importWorker.
    destruct (importSingleEmail_calls i x w0) as (Hf & _ & extra & Hc & Hextra & _).
    destruct (importer.importSingleEmail i x w0) as [[size err] w1]. simpl in *.
    split; [congruence|]. exists extra. split; [exact Hc|].
    destruct Hextra as [->|(c & -> & f & raw & Hfile & -> & Hkind)].
    - split; [constructor | simpl; lia].
    - split; [|simpl; lia]. repeat constructor. exists x, f, raw.
      rewrite <- Hw0. auto. }
  destruct (returns_quota (importer.importWorker i) importer.collect importer.finish
              emailFiles (fun w0 => files w0 = files w) allowed 1 Hh
              (fun r0 a w0 Hw0 =>
                 conj (eq_trans (proj1 (import_collect_frame r0 a w0)) Hw0)
                      (proj2 (import_collect_frame r0 a w0)))
              (fun a w0 Hw0 => conj Hw0 eq_refl)
              _ _ _ s eq_refl Hrtc)
    as (Hfiles & sent & Hc & Hok & Hlen).
  split; [exact Hfiles|]. exists sent. split; [exact Hc|]. split; [lia | exact Hok].
Qed.

(** X17. Whatever the interleaving, importEmails writes no file and makes at
    most one request per file, each carrying the content of one of the files
    it was given: for an .eml or .mbox file the request decodes, with the
    exporter's decoder, to the bytes of the file. *)
Theorem import_sends_the_files i emailFiles w r w' :
  importer.importEmails i emailFiles w r w' ->
  files w' = files w
  /\ exists sent,
      calls w' = calls w ++ sent
      /\ (length sent <= length emailFiles)%nat
      /\ Forall (fun c =>
                   exists path f raw,
                     In path emailFiles /\ files w !! path = Some f
                     /\ c = MessagesImport raw
                     /\ ((ToLower (Ext path) = ".json"
                          /\ unmarshalRaw (importer.env i) (content f) = Ok raw)
                         \/ ((ToLower (Ext path) = ".eml" \/ ToLower (Ext path) = ".mbox")
                             /\ raw = importer.encodeBase64URL (content f)
                             /\ exporter.decodeBase64URL raw = Ok (content f))))
                sent.
Proof. exact (import_sends_files_lemma i emailFiles w r w'). Qed.

Lemma import_sends_the_files_witness :
  exists r w',
    importer.importEmails (scenario.theImporter 0 2) ["in/a.eml"; "in/b.eml"]
                          scenario.world0 r w'
    /\ files w' = files scenario.world0
    /\ exists sent,
        calls w' = sent
        /\ (length sent <= 2)%nat
        /\ Forall (fun c =>
                     exists path f,
                       In path ["in/a.eml"; "in/b.eml"]
                       /\ files scenario.world0 !! path = Some f
                       /\ c = MessagesImport (importer.encodeBase64URL (content f)))
                  sent.
Proof.
  destruct (importer.importEmailsRun (scenario.theImporter 0 2) ["in/a.eml"; "in/b.eml"]
                                     scenario.world0) as [[r w']|] eqn:E;
    [|vm_compute in E; discriminate].
  exists r, w'. split; [apply importEmailsRun_sound; exact E|].
  destruct (import_sends_the_files (scenario.theImporter 0 2) ["in/a.eml"; "in/b.eml"]
              scenario.world0 r w' (importEmailsRun_sound _ _ _ _ _ E))
    as (Hfiles & sent & Hcalls & Hlen & Hsent).
  split; [exact Hfiles|]. exists sent. split; [exact Hcalls|]. split; [exact Hlen|].
  eapply Forall_impl; [exact Hsent|].
  intros c (path & f & raw & Hin & Hf & -> & Hkind). exists path, f.
  split; [exact Hin|]. split; [exact Hf|].
  destruct Hkind as [[Hj _]|(_ & -> & _)]; [|reflexivity].
  exfalso. destruct Hin as [<-|[<-|[]]]; vm_compute in Hj; discriminate.
Defined.








(** ** The requests of a cleanup *)

(** The request cleanupSingleEmail makes for a message when it is not a dry
    run: none for an action that is neither archive nor delete. *)
Local Abbreviation requestOf c emailID :=
  (if String.eqb (cleaner.Action (cleaner.config c)) "archive"
   then [MessagesModify emailID ["INBOX"]]
   else if String.eqb (cleaner.Action (cleaner.config c)) "delete"
        then [MessagesDelete emailID]
        else []).






(** X20. When the manifest cannot be read or parsed, Cleanup returns the error
    without a request and without writing a file. *)
Theorem cleanup_without_manifest_does_nothing c w err :
  cleaner.loadProcessedEmails c w = Err err ->
  fst (cleaner.Cleanup c w) = Err (wrap "failed to load processed emails" err)
  /\ calls (snd (cleaner.Cleanup c w)) = calls w
  /\ files (snd (cleaner.Cleanup c w)) = files w
  /\ (files w !! cleaner.FilterFile (cleaner.config c) = None ->
      err = wrap "failed to read filter file"
                 ("open " +:+ cleaner.FilterFile (cleaner.config c)
                  +:+ ": no such file or directory")).
Proof.
  intros Hload. unfold cleaner.Cleanup, Now. cbn zeta.
  replace (cleaner.loadProcessedEmails c _) with (Err (A:=list ProcessedEmail) err)
    by (rewrite <- Hload; reflexivity).
  simpl. repeat split. intros Hnone.
  unfold cleaner.loadProcessedEmails, ReadFile in Hload. rewrite Hnone in Hload.
  congruence.
Qed.

Lemma cleanup_without_manifest_does_nothing_witness :
  fst (cleaner.Cleanup
         {| cleaner.config :=
              {| cleaner.CredentialsFile := "credentials.json";
                 cleaner.TokenFile := "token.json";
                 cleaner.Action := "delete";
                 cleaner.FilterFile := "missing.json";
                 cleaner.DryRun := false;
                 cleaner.Limit := 0 |};
            cleaner.env := scenario.env0 |} scenario.world0)
  = Err (wrap "failed to load processed emails"
           (wrap "failed to read filter file"
                 "open missing.json: no such file or directory")).
Proof.
  apply (cleanup_without_manifest_does_nothing _ scenario.world0). vm_compute. reflexivity.
Defined.


(** ** From export to cleanup *)

(** Whatever the action and the mode, Cleanup reports as found the records
    of the manifest that the limit leaves. *)
Lemma Cleanup_found c w records :
  cleaner.loadProcessedEmails c w = Ok records ->
  exists r w',
    cleaner.Cleanup c w = (Ok r, w')
    /\ cleaner.TotalFound r = length (applyLimit (cleaner.Limit (cleaner.config c)) records)
    /\ cleaner.RAction r = cleaner.Action (cleaner.config c)
    /\ cleaner.RDryRun r = cleaner.DryRun (cleaner.config c).
Proof.
  intros Hload. unfold cleaner.Cleanup, Now. cbn zeta.
  replace (cleaner.loadProcessedEmails c _) with (Ok (A:=list ProcessedEmail) records)
    by (rewrite <- Hload; reflexivity).
  destruct (cleaner.cleanupEmails c _ _) as [r1 w1].
  match goal with
  | |- context [metrics.Save ?e ?pth ?d ?w0] =>
      destruct (metrics.Save e pth d w0) as [[err|] w2]
  end; do 2 eexists; split; reflexivity || (simpl; auto).
Qed.

(** X22. The manifest that Export leaves is the one that Cleanup reads: after
    an export with at least one message exported, and a manifest that could be
    written, the file named by the exporter holds the marshalled records of
    the exported messages; a cleaner given that file parses exactly these
    bytes, and if it reads the records back, it reports as found as many
    messages as were exported (up to its own limit). *)
Theorem cleanup_reads_the_manifest_of_export e f w r w1 c :
  exporter.Export e f w (Ok r) w1 ->
  (0 < exporter.TotalExported r)%nat ->
  writeError (exporter.env e) (exporter.manifestPath e) = None ->
  cleaner.FilterFile (cleaner.config c) = exporter.manifestPath e ->
  exists processedEmails,
    length processedEmails = exporter.TotalExported r
    /\ forall data,
        marshalProcessed (exporter.env e) processedEmails = Ok data ->
        ReadFile (exporter.manifestPath e) w1 = Ok data
        /\ cleaner.loadProcessedEmails c w1
           = match unmarshalProcessed (cleaner.env c) data with
             | Ok records => Ok records
             | Err err => Err (wrap "failed to parse filter file" err)
             end
        /\ (unmarshalProcessed (cleaner.env c) data = Ok processedEmails ->
            exists r' w2,
              cleaner.Cleanup c w1 = (Ok r', w2)
              /\ cleaner.TotalFound r'
                 = length (applyLimit (cleaner.Limit (cleaner.config c)) processedEmails)
              /\ (cleaner.Limit (cleaner.config c) <= 0 ->
                  cleaner.TotalFound r' = exporter.TotalExported r)).
Proof.
  intros H Hpos Hwr Hfile. unfold exporter.Export in H.
  destruct (exporter.exportPrepare e f w) as [[[[t0 t1] ids]|err] w0];
    [|destruct H; discriminate].
  destruct H as (r0 & w2 & Hrun & Hr & ->).
  assert (r = fst (exporter.exportFinish e t0 t1 ids r0 w2)) as -> by congruence.
  clear Hr.
  destruct (exportFinish_fields e t0 t1 ids r0 w2) as (_ & Hexp & _).
  rewrite Hexp in *.
  destruct (exportEmails_outcome _ _ _ _ _ Hrun) as (ps & wp & Hlen & _ & -> & _).
  exists ps. split; [exact Hlen|]. intros data Hm.
  assert (Hne : ps <> []) by (intros ->; simpl in Hlen; lia).
  pose proof (finish_manifest e ps r0 wp data Hne Hm Hwr) as Hcontent.
  rewrite <- (exportFinish_manifest e t0 t1 ids r0) in Hcontent.
  assert (Hread : ReadFile (exporter.manifestPath e)
                    (snd (exporter.exportFinish e t0 t1 ids r0
                            (exporter.finish e (r0, ps) wp))) = Ok data).
  { unfold ReadFile. destruct (files _ !! exporter.manifestPath e) as [file|];
      simpl in Hcontent; congruence. }
  split; [exact Hread|].
  assert (Hload : cleaner.loadProcessedEmails c
                    (snd (exporter.exportFinish e t0 t1 ids r0
                            (exporter.finish e (r0, ps) wp)))
                  = match unmarshalProcessed (cleaner.env c) data with
                    | Ok records => Ok records
                    | Err err => Err (wrap "failed to parse filter file" err)
                    end).
  { unfold cleaner.loadProcessedEmails. rewrite Hfile, Hread. reflexivity. }
  split; [exact Hload|]. intros Hun. rewrite Hun in Hload.
  destruct (Cleanup_found c _ ps Hload) as (r' & w3 & Hc & Hfound & _).
  exists r', w3. split; [exact Hc|]. split; [exact Hfound|].
  intros Hlim. rewrite Hfound, applyLimit_length, Hlen.
  destruct (Z.ltb_spec 0 (cleaner.Limit (cleaner.config c))); [lia | reflexivity].
Qed.

Lemma cleanup_reads_the_manifest_of_export_witness :
  exists r w1 processedEmails,
    exporter.Export (scenario.theExporter 0 2 "eml") scenario.invoiceFilter scenario.world0
                    (Ok r) w1
    /\ length processedEmails = exporter.TotalExported r
    /\ ReadFile "out/processed_emails.json" w1 = Ok (scenario.manifestText processedEmails).
Proof.
  destruct (exporter.ExportRun (scenario.theExporter 0 2 "eml") scenario.invoiceFilter
                               scenario.world0) as [[[r|err] w1]|] eqn:E;
    [|vm_compute in E; discriminate|vm_compute in E; discriminate].
  assert (Hpos : (0 < exporter.TotalExported r)%nat).
  { vm_compute in E. injection E as <- _. vm_compute. lia. }
  destruct (cleanup_reads_the_manifest_of_export
              (scenario.theExporter 0 2 "eml") scenario.invoiceFilter scenario.world0 r w1
              (scenario.theCleaner "archive" false 0)
              (ExportRun_sound _ _ _ _ _ E) Hpos eq_refl eq_refl)
    as (ps & Hlen & Hdata).
  exists r, w1, ps. split; [apply ExportRun_sound; exact E|]. split; [exact Hlen|].
  apply (Hdata (scenario.manifestText ps)). reflexivity.
Defined.

(** ** The command generate-filter *)


Lemma length_append (a b : string) :
  String.length (a +:+ b) = (String.length a + String.length b)%nat.
Proof.
  induction a as [|c a IH]; [reflexivity|].
  change (String c a +:+ b) with (String c (a +:+ b)). cbn [String.length].
  rewrite IH. reflexivity.
Qed.

Lemma cutSuffix_append a suffix : cutSuffix (a +:+ suffix) suffix = Some a.
Proof.
  induction a as [|c a IH].
  - change (EmptyString +:+ suffix) with suffix.
    destruct suffix; cbn [cutSuffix]; rewrite String.eqb_refl; reflexivity.
  - change (String c a +:+ suffix) with (String c (a +:+ suffix)).
    cbn [cutSuffix]. destruct (String.eqb_spec (String c (a +:+ suffix)) suffix) as [E|_].
    + exfalso. apply (f_equal String.length) in E. cbn [String.length] in E.
      rewrite length_append in E. lia.
    + rewrite IH. reflexivity.
Qed.

Lemma TrimSuffix_append a suffix : TrimSuffix (a +:+ suffix) suffix = a.
Proof. unfold TrimSuffix. rewrite cutSuffix_append. reflexivity. Qed.

Lemma containsByte_append c a b :
  containsByte c (a +:+ b) = (containsByte c a || containsByte c b)%bool.
Proof.
  induction a as [|x a IH]; [reflexivity|].
  change (String x a +:+ b) with (String x (a +:+ b)). cbn [containsByte].
  rewrite IH, orb_assoc. reflexivity.
Qed.

(** The extension of a path that ends with a dot and a name without dot or
    slash. *)
Lemma Ext_append a name :
  containsByte "." name = false -> containsByte "/" name = false ->
  Ext (a +:+ String "." name) = String "." name.
Proof.
  intros Hdot Hslash. induction a as [|c a IH].
  - change (EmptyString +:+ String "." name) with (String "." name).
    cbn [Ext]. rewrite Hdot, Hslash. reflexivity.
  - change (String c a +:+ String "." name) with (String c (a +:+ String "." name)).
    cbn [Ext]. rewrite containsByte_append. cbn [containsByte].
    rewrite Ascii.eqb_refl. cbn [orb]. rewrite orb_true_r, andb_false_r. cbn [andb].
    exact IH.
Qed.

Lemma allHexDigits_no c id :
  cli.isHexDigit c = false -> cli.allHexDigits id = true -> containsByte c id = false.
Proof.
  intros Hc. induction id as [|x id IH]; [reflexivity|].
  cbn [cli.allHexDigits containsByte]. intros H. apply andb_true_iff in H as [Hx Hid].
  rewrite (IH Hid), orb_false_r.
  destruct (Ascii.eqb_spec c x) as [->|]; [congruence | reflexivity].
Qed.

Lemma isValid_allHex id :
  cli.isValidGmailMessageID id = true ->
  cli.allHexDigits id = true /\ (10 <= String.length id <= 20)%nat.
Proof.
  unfold cli.isValidGmailMessageID.
  destruct (Nat.ltb_spec (String.length id) 10) as [|H10]; [discriminate|].
  destruct (Nat.ltb_spec 20 (String.length id)) as [|H20]; [discriminate|].
  simpl. intros Hall. split; [exact Hall | lia].
Qed.

Lemma isHexDigit_case c :
  cli.isHexDigit (lowerByte c) = cli.isHexDigit c
  /\ cli.isHexDigit (upperByte c) = cli.isHexDigit c.
Proof. destruct c as [[] [] [] [] [] [] [] []]; split; reflexivity. Qed.

Lemma allHexDigits_mapBytes f id :
  (forall c, cli.isHexDigit (f c) = cli.isHexDigit c) ->
  cli.allHexDigits (mapBytes f id) = cli.allHexDigits id.
Proof.
  intros Hf. induction id as [|c id IH]; [reflexivity|].
  cbn [mapBytes cli.allHexDigits]. rewrite Hf, IH. reflexivity.
Qed.

(** X23. isValidGmailMessageID accepts exactly the strings of ten to twenty
    hexadecimal digits, in either case: an identifier stays valid, or invalid,
    when its letters are put in lower or in upper case, and a valid one has
    neither a dot nor a slash, so it is a file name without extension. *)
Theorem isValidGmailMessageID_cases id :
  (cli.isValidGmailMessageID id = true <->
     (10 <= String.length id <= 20)%nat
     /\ forallb cli.isHexDigit (list_ascii_of_string id) = true)
  /\ cli.isValidGmailMessageID (ToLower id) = cli.isValidGmailMessageID id
  /\ cli.isValidGmailMessageID (ToUpper id) = cli.isValidGmailMessageID id
  /\ (cli.isValidGmailMessageID id = true ->
      containsByte "." id = false /\ containsByte "/" id = false
      /\ Ext id = EmptyString).
Proof.
  assert (Hall : cli.allHexDigits id = forallb cli.isHexDigit (list_ascii_of_string id)).
  { induction id as [|c id IH]; [reflexivity|].
    cbn [cli.allHexDigits list_ascii_of_string forallb]. rewrite IH. reflexivity. }
  split; [|split; [|split]].
  - unfold cli.isValidGmailMessageID. rewrite <- Hall.
    destruct (Nat.ltb_spec (String.length id) 10) as [|H10];
      [split; [discriminate | intros [? _]; lia]|].
    destruct (Nat.ltb_spec 20 (String.length id)) as [|H20];
      [split; [discriminate | intros [? _]; lia]|].
    simpl. split; [intros Hd; split; [lia | exact Hd] | intros [_ Hd]; exact Hd].
  - unfold cli.isValidGmailMessageID, ToLower.
    rewrite length_mapBytes, allHexDigits_mapBytes by apply isHexDigit_case. reflexivity.
  - unfold cli.isValidGmailMessageID, ToUpper.
    rewrite length_mapBytes, allHexDigits_mapBytes by apply isHexDigit_case. reflexivity.
  - intros H. apply isValid_allHex in H as [H _].
    assert (Hdot : containsByte "." id = false) by (apply allHexDigits_no; auto).
    assert (Hslash : containsByte "/" id = false) by (apply allHexDigits_no; auto).
    split; [exact Hdot|]. split; [exact Hslash|].
    clear -Hdot. induction id as [|c id IH]; [reflexivity|].
    cbn [Ext containsByte] in *. apply orb_false_iff in Hdot as [Hc Hid].
    rewrite Ascii.eqb_sym, Hc. cbn [andb]. apply IH. exact Hid.
Qed.

(** What the callback of the scan does with one file. *)
Lemma scanFile_spec now path filename processedEmails w :
  files (snd (cli.scanFile now path filename processedEmails w)) = files w
  /\ calls (snd (cli.scanFile now path filename processedEmails w)) = calls w
  /\ (fst (cli.scanFile now path filename processedEmails w) = processedEmails
      \/ (importer.isEmailFile path = true
          /\ cli.isValidGmailMessageID (TrimSuffix filename (ToLower (Ext path))) = true
          /\ fst (cli.scanFile now path filename processedEmails w)
             = processedEmails ++
                 [{| ID := TrimSuffix filename (ToLower (Ext path));
                     PSubject := EmptyString; PFrom := EmptyString; Date := 0;
                     Size := match files w !! path with
                             | Some fileInfo => len (content fileInfo)
                             | None => 0
                             end;
                     Processed := now |}]))
  /\ (importer.isEmailFile path = true ->
      cli.isValidGmailMessageID (TrimSuffix filename (ToLower (Ext path))) = true ->
      fst (cli.scanFile now path filename processedEmails w) <> processedEmails).
Proof.
  unfold cli.scanFile, importer.isEmailFile. cbn zeta.
  destruct (_ || _ || _)%bool; cbn [negb]; [|repeat split; auto; discriminate].
  destruct (cli.isValidGmailMessageID _); cbn [negb]; [|repeat split; auto; discriminate].
  assert (Hne : forall (p : ProcessedEmail), processedEmails ++ [p] <> processedEmails).
  { intros p H. apply (f_equal (@length _)) in H. rewrite length_app in H. simpl in H. lia. }
  destruct (files w !! path) as [fileInfo|]; simpl; repeat split; auto.
Qed.

(** A record of the scan: a valid identifier, the time of the scan, a size
    that is not negative, and nothing else. *)
Local Abbreviation scanned now p :=
  (cli.isValidGmailMessageID (ID p) = true /\ Processed p = now /\ 0 <= Size p
   /\ PSubject p = EmptyString /\ PFrom p = EmptyString /\ Date p = 0).

Lemma scanWalk_spec now d :
  forall path processedEmails w,
    Forall (fun p => scanned now p) processedEmails ->
    files (snd (cli.scanWalk now path d processedEmails w)) = files w
    /\ calls (snd (cli.scanWalk now path d processedEmails w)) = calls w
    /\ match fst (cli.scanWalk now path d processedEmails w) with
       | Ok found =>
           Forall (fun p => scanned now p) found
           /\ (length found
               <= length processedEmails
                  + length (List.filter importer.isEmailFile (importer.walkFiles path d)))%nat
           /\ importer.readable d = true
       | Err _ => importer.readable d = false
       end.
Proof.
  induction d as [name|name err entries IH] using node_tree_ind;
    intros path processedEmails w Hps.
  - cbn [cli.scanWalk importer.walkFiles importer.readable List.filter].
    destruct (scanFile_spec now path name processedEmails w) as (Hf & Hc & Hcase & _).
    destruct (cli.scanFile now path name processedEmails w) as [found w1]. simpl in *.
    split; [exact Hf|]. split; [exact Hc|].
    destruct Hcase as [->|(He & Hv & ->)].
    + split; [exact Hps|]. split; [lia | reflexivity].
    + rewrite He. split; [|split; [rewrite length_app; simpl; lia | reflexivity]].
      apply Forall_app. split; [exact Hps|]. repeat constructor; simpl; auto.
      destruct (files w !! path); unfold len; lia.
  - destruct err as [e|]; [simpl; auto|].
    cbn [cli.scanWalk importer.walkFiles importer.readable].
    revert processedEmails w Hps.
    induction IH as [|d ds Hd _ IHds]; intros processedEmails w Hps.
    + simpl. split; [reflexivity|]. split; [reflexivity|]. split; [exact Hps|].
      split; [lia | reflexivity].
    + specialize (Hd (PathJoin path (importer.nodeName d)) processedEmails w Hps).
      destruct (cli.scanWalk now (PathJoin path (importer.nodeName d)) d processedEmails w)
        as [[found|e] w1]; simpl in Hd.
      * destruct Hd as (Hf & Hc & Hfound & Hlen & Hr). rewrite Hr. cbn [andb].
        specialize (IHds found w1 Hfound).
        match type of IHds with
        | context [snd ?t] => destruct t as [[found2|e2] w2]
        end; simpl in IHds |- *.
        -- destruct IHds as (Hf2 & Hc2 & Hfound2 & Hlen2 & Hr2).
           split; [congruence|]. split; [congruence|]. split; [exact Hfound2|].
           split; [rewrite List.filter_app, length_app; lia | exact Hr2].
        -- destruct IHds as (Hf2 & Hc2 & Hr2). split; [congruence|]. split; [congruence|].
           exact Hr2.
      * destruct Hd as (Hf & Hc & Hr). rewrite Hr. cbn [andb]. simpl. auto.
Qed.

(** X24. The records of a scan name valid identifiers only and carry the time
    of the scan; there are no more of them than files that Import would take
    from the same directory; the scan fails exactly when a directory cannot be
    read, and it neither writes a file nor makes a request. *)
Theorem scanExportsDirectory_lists_valid_identifiers env inputDir w :
  files (snd (cli.scanExportsDirectory env inputDir w)) = files w
  /\ calls (snd (cli.scanExportsDirectory env inputDir w)) = calls w
  /\ match fst (cli.scanExportsDirectory env inputDir w) with
     | Ok found =>
         Forall (fun p => cli.isValidGmailMessageID (ID p) = true
                          /\ Processed p = clock w /\ 0 <= Size p
                          /\ PSubject p = EmptyString /\ PFrom p = EmptyString
                          /\ Date p = 0) found
         /\ exists d,
             lstat env inputDir = Some d /\ importer.readable d = true
             /\ (length found
                 <= length (List.filter importer.isEmailFile
                              (importer.walkFiles inputDir d)))%nat
     | Err _ =>
         match lstat env inputDir with
         | Some d => importer.readable d = false
         | None => True
         end
     end.
Proof.
  unfold cli.scanExportsDirectory, Now. cbn zeta.
  destruct (lstat env inputDir) as [d|]; [|simpl; auto].
  match goal with
  | |- context [cli.scanWalk ?now ?path d [] ?w0] =>
      destruct (scanWalk_spec now d path [] w0 (List.Forall_nil _)) as (Hf & Hc & Hres);
      destruct (cli.scanWalk now path d [] w0) as [[found|err] w1]
  end; simpl in *.
  - destruct Hres as (Hfound & Hlen & Hr). repeat split; auto. exists d. auto.
  - auto.
Qed.

(** The callback on a file that Export wrote for a message with a valid
    identifier: the identifier is read back from the name. *)
Lemma scanFile_exported now dir id format processedEmails w :
  In format ["eml"; "json"; "mbox"] ->
  cli.isValidGmailMessageID id = true ->
  files (snd (cli.scanFile now (PathJoin dir (id +:+ "." +:+ format))
                (id +:+ "." +:+ format) processedEmails w)) = files w
  /\ fst (cli.scanFile now (PathJoin dir (id +:+ "." +:+ format))
            (id +:+ "." +:+ format) processedEmails w)
     = processedEmails ++
         [{| ID := id; PSubject := EmptyString; PFrom := EmptyString; Date := 0;
             Size := match files w !! PathJoin dir (id +:+ "." +:+ format) with
                     | Some fileInfo => len (content fileInfo)
                     | None => 0
                     end;
             Processed := now |}].
Proof.
  intros Hfmt Hid.
  assert (Hext : ToLower (Ext (PathJoin dir (id +:+ "." +:+ format))) = "." +:+ format).
  { unfold PathJoin.
    replace (dir +:+ "/" +:+ id +:+ "." +:+ format)
      with ((dir +:+ "/" +:+ id) +:+ String "." format)
      by (rewrite !append_assoc; reflexivity).
    cbn [In] in Hfmt.
    destruct Hfmt as [<-|[<-|[<-|[]]]]; rewrite Ext_append by reflexivity; reflexivity. }
  destruct (scanFile_spec now (PathJoin dir (id +:+ "." +:+ format))
              (id +:+ "." +:+ format) processedEmails w) as (Hf & _ & Hcase & Hkeep).
  rewrite Hext in Hcase, Hkeep.
  change (id +:+ "." +:+ format) with (id +:+ ("." +:+ format)) in Hcase, Hkeep.
  rewrite TrimSuffix_append in Hcase, Hkeep.
  split; [exact Hf|].
  assert (He : importer.isEmailFile (PathJoin dir (id +:+ "." +:+ format)) = true).
  { unfold importer.isEmailFile. rewrite Hext. cbn [In] in Hfmt.
    destruct Hfmt as [<-|[<-|[<-|[]]]]; reflexivity. }
  destruct Hcase as [Hsame|(_ & _ & Hres)]; [|exact Hres].
  exfalso. exact (Hkeep He Hid Hsame).
Qed.

(** The callback on the two files that Export writes beside the messages:
    neither name is taken for an identifier. *)
Lemma scanFile_bookkeeping now dir processedEmails w :
  fst (cli.scanFile now (PathJoin dir "metrics.json") "metrics.json" processedEmails w)
  = processedEmails
  /\ fst (cli.scanFile now (PathJoin dir "processed_emails.json") "processed_emails.json"
            processedEmails w) = processedEmails.
Proof.
  assert (H1 : Ext (PathJoin dir "metrics.json") = ".json").
  { unfold PathJoin.
    change (dir +:+ "/" +:+ "metrics.json") with (dir +:+ ("/metrics" +:+ String "." "json")).
    rewrite <- append_assoc. apply Ext_append; reflexivity. }
  assert (H2 : Ext (PathJoin dir "processed_emails.json") = ".json").
  { unfold PathJoin.
    change (dir +:+ "/" +:+ "processed_emails.json")
      with (dir +:+ ("/processed_emails" +:+ String "." "json")).
    rewrite <- append_assoc. apply Ext_append; reflexivity. }
  unfold cli.scanFile. rewrite H1, H2. split; reflexivity.
Qed.

(** X25. generate-filter after Export: in a directory that holds the files
    Export wrote for messages with valid identifiers, all in one format, and
    its metrics file and manifest, the scan finds the identifiers of the
    messages, in the order of the files, with the sizes of the files; the
    command then writes them as the manifest of the directory. *)
Theorem generate_filter_recovers_exported_identifiers env inputDir name ids format w :
  In format ["eml"; "json"; "mbox"] ->
  Forall (fun id => cli.isValidGmailMessageID id = true) ids ->
  lstat env inputDir
  = Some (DirNode name None
            (map (fun id => FileNode (id +:+ "." +:+ format)) ids
             ++ [FileNode "metrics.json"; FileNode "processed_emails.json"])) ->
  exists found w',
    cli.scanExportsDirectory env inputDir w = (Ok found, w')
    /\ found
       = map (fun id =>
                {| ID := id; PSubject := EmptyString; PFrom := EmptyString; Date := 0;
                   Size := match files w !! PathJoin inputDir (id +:+ "." +:+ format) with
                           | Some fileInfo => len (content fileInfo)
                           | None => 0
                           end;
                   Processed := clock w |}) ids
    /\ (ids <> [] -> inputDir <> EmptyString ->
        forall data,
          marshalProcessed env found = Ok data ->
          writeError env (PathJoin inputDir "processed_emails.json") = None ->
          fst (cli.generateFilter env inputDir "" w) = None
          /\ content <$> (files (snd (cli.generateFilter env inputDir "" w))
                            !! PathJoin inputDir "processed_emails.json") = Some data).
Proof.
  intros Hfmt Hids Hdir.
  set (mk := fun (fs : gmap string File) (now : Z) id =>
         {| ID := id; PSubject := EmptyString; PFrom := EmptyString; Date := 0;
            Size := match fs !! PathJoin inputDir (id +:+ "." +:+ format) with
                    | Some fileInfo => len (content fileInfo)
                    | None => 0
                    end;
            Processed := now |}).
  assert (Hwalk : forall now w0,
             exists w1,
               cli.scanWalk now inputDir
                 (DirNode name None
                    (map (fun id => FileNode (id +:+ "." +:+ format)) ids
                     ++ [FileNode "metrics.json"; FileNode "processed_emails.json"])) [] w0
               = (Ok (map (mk (files w0) now) ids), w1)
               /\ files w1 = files w0).
  { intros now w0. cbn [cli.scanWalk].
    assert (Hgen : forall ps w2,
               files w2 = files w0 ->
               exists w1,
                 (fix walkEntries (ds : list node) (processedEmails : list ProcessedEmail)
                      (w : World) :=
                    match ds with
                    | [] => (Ok processedEmails, w)
                    | d1 :: ds' =>
                        match cli.scanWalk now (PathJoin inputDir (importer.nodeName d1)) d1
                                processedEmails w with
                        | (Ok processedEmails, w) => walkEntries ds' processedEmails w
                        | (Err err, w) => (Err err, w)
                        end
                    end)
                   (map (fun id => FileNode (id +:+ "." +:+ format)) ids
                    ++ [FileNode "metrics.json"; FileNode "processed_emails.json"]) ps w2
                 = (Ok (ps ++ map (mk (files w0) now) ids), w1)
                 /\ files w1 = files w0).
    { clear Hdir. induction Hids as [|id ids Hid _ IH]; intros ps w2 Hw2.
      - cbn [map app cli.scanWalk importer.nodeName].
        destruct (scanFile_bookkeeping now inputDir ps w2) as [H1 _].
        pose proof (scanFile_spec now (PathJoin inputDir "metrics.json") "metrics.json"
                      ps w2) as (Hf1 & _).
        destruct (cli.scanFile now (PathJoin inputDir "metrics.json") "metrics.json" ps w2)
          as [ps1 w3]. simpl in H1, Hf1. subst ps1.
        destruct (scanFile_bookkeeping now inputDir ps w3) as [_ H2].
        pose proof (scanFile_spec now (PathJoin inputDir "processed_emails.json")
                      "processed_emails.json" ps w3) as (Hf2 & _).
        destruct (cli.scanFile now (PathJoin inputDir "processed_emails.json")
                    "processed_emails.json" ps w3) as [ps2 w4]. simpl in H2, Hf2. subst ps2.
        exists w4. rewrite app_nil_r. split; [reflexivity | congruence].
      - cbn [map app cli.scanWalk importer.nodeName].
        destruct (scanFile_exported now inputDir id format ps w2 Hfmt Hid) as [Hf Hres].
        destruct (cli.scanFile now (PathJoin inputDir (id +:+ "." +:+ format))
                    (id +:+ "." +:+ format) ps w2) as [ps1 w3]. simpl in Hf, Hres. subst ps1.
        destruct (IH (ps ++ [mk (files w0) now id]) w3) as (w1 & Hw1 & Hf1); [congruence|].
        exists w1. split; [|exact Hf1].
        rewrite Hw2. fold (mk (files w0) now id).
        rewrite Hw1, <- app_assoc. reflexivity. }
    destruct (Hgen [] w0 eq_refl) as (w1 & H1 & H2). exists w1. auto. }
  assert (Hscan : forall w0,
             exists w1,
               cli.scanExportsDirectory env inputDir w0
               = (Ok (map (mk (files w0) (clock w0)) ids), w1)
               /\ files w1 = files w0).
  { intros w0. unfold cli.scanExportsDirectory, Now. cbn zeta. rewrite Hdir.
    match goal with
    | |- context [cli.scanWalk ?now inputDir ?d [] ?w2] =>
        destruct (Hwalk now w2) as (w1 & -> & Hf)
    end.
    exists w1. split; [reflexivity | exact Hf]. }
  destruct (Hscan w) as (w1 & Hw1 & Hf1).
  exists (map (mk (files w) (clock w)) ids), w1.
  split; [exact Hw1|]. split; [reflexivity|].
  intros Hne Hin data Hm Hwr. unfold cli.generateFilter.
  destruct (String.eqb_spec inputDir "") as [|_]; [contradiction|].
  cbn [String.eqb]. cbn zeta.
  destruct (Hscan (Log "info" "Generating filter file from exports directory" w))
    as (w2 & -> & Hf2).
  change (files (Log "info" "Generating filter file from exports directory" w))
    with (files w) in *.
  change (clock (Log "info" "Generating filter file from exports directory" w))
    with (clock w) in *.
  destruct (map (mk (files w) (clock w)) ids) as [|p ps] eqn:Hmap.
  { destruct ids; [congruence | discriminate]. }
  rewrite Hm. unfold WriteFile. rewrite Hwr. simpl. rewrite lookup_insert_eq.
  split; [reflexivity|]. destruct (files w2 !! _); reflexivity.
Qed.

Lemma generate_filter_recovers_exported_identifiers_witness :
  exists found w',
    cli.scanExportsDirectory scenario.exportedEnv "exported" scenario.exportedWorld
    = (Ok found, w')
    /\ map ID found = ["125288cd4bd52814"; "125289498b7ee74e"]
    /\ map Size found = [18; 13]
    /\ content <$> (files (snd (cli.generateFilter scenario.exportedEnv "exported" ""
                                                   scenario.exportedWorld))
                      !! "exported/processed_emails.json")
       = Some (scenario.manifestText found).
Proof.
  destruct (generate_filter_recovers_exported_identifiers
              scenario.exportedEnv "exported" "exported"
              ["125288cd4bd52814"; "125289498b7ee74e"] "eml" scenario.exportedWorld)
    as (found & w' & Hscan & Hfound & Hgen);
    [simpl; auto | repeat constructor | reflexivity |].
  exists found, w'. split; [exact Hscan|].
  split; [rewrite Hfound; reflexivity|].
  split; [rewrite Hfound; vm_compute; reflexivity|].
  refine (proj2 (Hgen _ _ _ eq_refl eq_refl)); discriminate.
Defined.

(** The directory of the test of the command: the four files named after
    an identifier are listed, whatever their format. *)
Example scanExportsDirectory_examples :
  map ID (match cli.scanWalk 0 "exports" scenario.exportsDir [] scenario.world0 with
          | (Ok found, _) => found
          | (Err _, _) => []
          end)
  = ["125288cd4bd52814"; "125289498b7ee74e"; "125289e540f06a4e"; "12d7a4179949125c"]
  /\ cli.isValidGmailMessageID "125288CD4BD52814" = true
  /\ cli.isValidGmailMessageID "123" = false
  /\ cli.isValidGmailMessageID "125288cd4bd52814125288cd4bd52814" = false
  /\ cli.isValidGmailMessageID "125288cd4bd5281g" = false
  /\ cli.isValidGmailMessageID "125288cd-4bd52814" = false
  /\ cli.isValidGmailMessageID EmptyString = false.
Proof. repeat split; vm_compute; reflexivity. Qed.
